(** * OHM-Data-Converter: name resolution, translation cache and orchestration

    A shallow embedding of [src/converter/main.py] and the properties of
    its name-resolution / translation-caching pipeline.

    Python strings are sequences of Unicode code points, Python objects
    are the values of [pyval], dictionaries are finite maps, the module
    global [_cache] and the observable effects (dataset reads and writes,
    translation calls, printed messages) live in an explicit state that
    is threaded through a small state-and-exception monad. *)

From Stdlib Require Import ZArith String Ascii List Lia.
From stdpp Require Import base option list gmap fin_maps.

#[local] Set Warnings "-register-all".

(** ** Python strings *)

(** A [str] is a sequence of code points. *)
Abbreviation pystr := (list Z).

(** ASCII literals. *)
Definition u (s : string) : pystr :=
  map (fun a => Z.of_N (N_of_ascii a)) (list_ascii_of_string s).

(** [str.isspace] on one code point (the table of CPython's
    [_PyUnicode_IsWhitespace]). *)
Definition isspace (c : Z) : bool :=
  ((9 <=? c) && (c <=? 13) || (28 <=? c) && (c <=? 32)
   || (c =? 0x85) || (c =? 0xa0) || (c =? 0x1680)
   || (0x2000 <=? c) && (c <=? 0x200a)
   || (c =? 0x2028) || (c =? 0x2029) || (c =? 0x202f)
   || (c =? 0x205f) || (c =? 0x3000))%Z.

Fixpoint lstrip (s : pystr) : pystr :=
  match s with
  | c :: s' => if isspace c then lstrip s' else s
  | [] => []
  end.

Definition rstrip (s : pystr) : pystr := reverse (lstrip (reverse s)).

(** [s.strip()] *)
Definition strip (s : pystr) : pystr := rstrip (lstrip s).

(** Truth value of a [str]: non-empty. *)
Definition nonempty (s : pystr) : bool :=
  match s with [] => false | _ => true end.

(** ** Python values and exceptions *)

Inductive pyval : Type :=
| PyNone
| PyBool (b : bool)
| PyInt (z : Z)
| PyStr (s : pystr)
| PyList (l : list pyval)
| PyDict (d : gmap pystr pyval)
| PyOther (truth : bool) (id : N).   (* any other object: a float, a geometry *)

(** The exceptions that the converter's own code raises or lets
    through: [AttributeError] ([.get] or [.strip] on an object without
    it), [KeyError] (a missing column label) and [SystemExit].  What
    the collaborators raise on their own account, [json.loads] beyond
    the decode error that [parse_tags] catches, the dataset reader and
    the writer, is outside the embedding. *)
Inductive exn : Type :=
| AttributeError
| KeyError
| SystemExit (code : Z).

Inductive exc (A : Type) : Type :=
| Ok (a : A)
| Raise (e : exn).
Arguments Ok {A} a.
Arguments Raise {A} e.

#[global] Instance exc_ret : MRet exc := fun _ a => Ok a.
#[global] Instance exc_bind : MBind exc := fun _ _ f m =>
  match m with Ok a => f a | Raise e => Raise e end.

(** [bool(v)] *)
Definition truthy (v : pyval) : bool :=
  match v with
  | PyNone => false
  | PyBool b => b
  | PyInt z => negb (z =? 0)%Z
  | PyStr s => nonempty s
  | PyList l => match l with [] => false | _ => true end
  | PyDict d => negb (bool_decide (d = ∅))
  | PyOther t _ => t
  end.

(** [a or b] *)
Definition py_or (a b : pyval) : pyval := if truthy a then a else b.

(** [v.get(key)]: only a dict has the method. *)
Definition py_get (v : pyval) (key : pystr) : exc pyval :=
  match v with
  | PyDict d => Ok (default PyNone (d !! key))
  | _ => Raise AttributeError
  end.

(** [v.strip()]: only a str has the method. *)
Definition py_strip (v : pyval) : exc pystr :=
  match v with
  | PyStr s => Ok (strip s)
  | _ => Raise AttributeError
  end.

Definition is_dict (v : pyval) : bool :=
  match v with PyDict _ => true | _ => false end.

(** A dict all of whose values are strings, as a Python object. *)
Definition str_dict (d : gmap pystr pystr) : pyval := PyDict (PyStr <$> d).

(** ** Helpers: Chinese character detection *)

(** The character class of [_CJK_RE]: CJK Unified Ideographs and
    Extension A. *)
Definition _CJK_RE (c : Z) : bool :=
  ((0x4e00 <=? c) && (c <=? 0x9fff) || (0x3400 <=? c) && (c <=? 0x4dbf))%Z.

Definition has_chinese (text : option pystr) : bool :=
  existsb _CJK_RE (default [] text).

(** ** Helpers: extract fields from a row's tags *)

Definition ZH_KEYS : list pystr :=
  [u "name:zh"; u "name:zh-Hans"; u "name:zh-Hant";
   u "name:zh-CN"; u "name:zh-TW"; u "name:zh-SG"].

Section Resolver.

(** [json.loads] on a [str]; [None] stands for the [JSONDecodeError]
    ([ValueError]) that [parse_tags] catches. *)
Variable json_loads : pystr -> option pyval.

Definition parse_tags (raw : pyval) : pyval :=
  match raw with
  | PyDict d => PyDict d
  | PyStr s =>
      match json_loads s with
      | Some v => v
      | None => PyDict ∅
      end
  | _ => PyDict ∅
  end.

End Resolver.

Definition get_title_en (tags : pyval) (name : pystr) : exc pystr :=
  v ← py_get tags (u "name:en");
  py_strip (py_or (py_or v (PyStr name)) (PyStr [])).

(** The [for key in (...)] loop of [get_title_zh]. *)
Fixpoint get_title_zh_loop (tags : pyval) (keys : list pystr)
  : exc (option pystr) :=
  match keys with
  | [] => Ok None
  | key :: keys' =>
      v ← py_get tags key;
      val ← py_strip (py_or v (PyStr []));
      if nonempty val then Ok (Some val) else get_title_zh_loop tags keys'
  end.

Definition get_title_zh (tags : pyval) (name : pystr) : exc (option pystr) :=
  r ← get_title_zh_loop tags ZH_KEYS;
  match r with
  | Some val => Ok (Some val)
  | None =>
      if has_chinese (Some name) then Ok (Some (strip name)) else Ok None
  end.

(** ** The data frame handed over by the dataset reader *)

(** A [GeoDataFrame]: the column labels and, per feature, the cells of
    the row (the geometry is the cell of the column "geometry"). *)
Record GeoDataFrame : Type := {
  columns : list pystr;
  rows : list (gmap pystr pyval)
}.

(** [row.get(key)] *)
Definition row_get (row : gmap pystr pyval) (key : pystr) : pyval :=
  default PyNone (row !! key).

(** [gdf[col] = values] *)
Definition set_column (col : pystr) (values : list pyval) (gdf : GeoDataFrame)
  : GeoDataFrame :=
  {| columns := if bool_decide (col ∈ columns gdf) then columns gdf
                else columns gdf ++ [col];
     rows := zip_with (fun row v => <[col := v]> row) (rows gdf) values |}.

(** [gdf[[c1, ..., cn]]]: a missing label is a [KeyError]. *)
Definition select_columns (cols : list pystr) (gdf : GeoDataFrame)
  : exc GeoDataFrame :=
  if forallb (fun c => bool_decide (c ∈ columns gdf)) cols
  then Ok {| columns := cols;
             rows := map (filter (fun kv => kv.1 ∈ cols)) (rows gdf) |}
  else Raise KeyError.

(** The values of one column, top to bottom. *)
Definition column (col : pystr) (gdf : GeoDataFrame) : list pyval :=
  map (fun row => row_get row col) (rows gdf).

Definition OUT_COLUMNS : list pystr :=
  [u "oid"; u "title"; u "title_en"; u "geometry"].

(** ** Effects: the global cache and the observable trace *)

(** The trace records what the script does to its collaborators, in
    order: what it prints, which datasets it reads and writes, which
    directories it creates and what it asks of the translation provider.
    The pauses ([time.sleep]) between provider calls leave no event. *)

Inductive message : Type :=
| MsgRangeError (start end_ : Z)
| MsgPhase1 (n : nat)
| MsgPhase2
| MsgPhase3
| MsgNoTranslationNeeded
| MsgTranslating (n : nat)
| MsgBatchFailed
| MsgCouldNotTranslate (src : pystr)
| MsgTranslationComplete
| MsgSkipping (year : Z)
| MsgFeatures (year : Z) (n : nat)
| MsgDone (written : Z) (total : nat).

Inductive event : Type :=
| EvPrint (m : message)
| EvRead (year : Z)                        (* gpd.read_file(src) *)
| EvMkdir (dir : option Z)                 (* OUTPUT_DIR, or OUTPUT_DIR/<year> *)
| EvWrite (year : Z) (out : GeoDataFrame)  (* out.to_file(dst, ...) *)
| EvTranslateBatch (chunk : list pystr)    (* translator.translate_batch(chunk) *)
| EvTranslate (src : pystr).               (* translator.translate(src) *)

Record state : Type := {
  _cache : gmap pystr pystr;
  trace : list event
}.

Definition initial_state : state := {| _cache := ∅; trace := [] |}.

(** Computations that read and write the state and may raise. *)
Definition M (A : Type) : Type := state -> exc A * state.

#[global] Instance M_ret : MRet M := fun _ a s => (Ok a, s).
#[global] Instance M_bind : MBind M := fun _ _ f m s =>
  match m s with
  | (Ok a, s') => f a s'
  | (Raise e, s') => (Raise e, s')
  end.

Definition raise {A} (e : exn) : M A := fun s => (Raise e, s).

Definition lift {A} (r : exc A) : M A := fun s => (r, s).

Definition emit (e : event) : M unit :=
  fun s => (Ok tt, {| _cache := _cache s; trace := trace s ++ [e] |}).

Definition print (m : message) : M unit := emit (EvPrint m).

Definition get_cache : M (gmap pystr pystr) := fun s => (Ok (_cache s), s).

(** [_cache[src] = tgt] *)
Definition cache_set (src tgt : pystr) : M unit :=
  fun s => (Ok tt, {| _cache := <[src := tgt]> (_cache s); trace := trace s |}).

(** [for x in l: body(x)] *)
Fixpoint for_each {A} (l : list A) (body : A -> M unit) : M unit :=
  match l with
  | [] => mret tt
  | x :: l' => body x;; for_each l' body
  end.

(** [range(start, stop)] *)
Definition py_range (start stop : Z) : list Z :=
  map (fun i => (start + Z.of_nat i)%Z) (seq 0 (Z.to_nat (stop - start))).

(** [range(0, stop, step)] *)
Definition py_range_step (stop step : nat) : list nat :=
  map (fun k => k * step) (seq 0 ((stop + step - 1) / step)).

(** [l[i:j]] for [0 <= i <= j] *)
Definition slice {A} (l : list A) (i j : nat) : list A :=
  take (j - i) (drop i l).

(** [list(dict.fromkeys(l))]: the first occurrence of every key, in order. *)
Definition fromkeys (l : list pystr) : list pystr :=
  fold_left (fun acc n => if bool_decide (n ∈ acc) then acc else acc ++ [n])
            l [].

(** [tgt or src] on strings *)
Definition str_or (tgt src : pystr) : pystr :=
  if nonempty tgt then tgt else src.

Definition BATCH : nat := 50.

(** ** The converter *)

Section Converter.

(** The collaborators of the core, which the script reaches through
    libraries: the JSON decoder, the builtin [str()], the dataset
    reader ([None]: the year's GeoJSON file does not exist) and the
    translation provider.  A provider call may answer differently
    from one call to the next, so it sees the trace so far; [None]
    stands for a raised [Exception]. *)
Variable json_loads : pystr -> option pyval.
Variable py_str : pyval -> pystr.
Variable input_files : Z -> option GeoDataFrame.
Variable translate_batch : list event -> list pystr -> option (list pystr).
Variable translate : list event -> pystr -> option pystr.

(** *** Translation (batched, with a global cross-year cache) *)

Definition call_translate_batch (chunk : list pystr)
  : M (option (list pystr)) :=
  fun s => (Ok (translate_batch (trace s) chunk),
            {| _cache := _cache s;
               trace := trace s ++ [EvTranslateBatch chunk] |}).

Definition call_translate (src : pystr) : M (option pystr) :=
  fun s => (Ok (translate (trace s) src),
            {| _cache := _cache s; trace := trace s ++ [EvTranslate src] |}).

(** The [except] branch: one label at a time. *)
Definition translate_one_by_one (chunk : list pystr) : M unit :=
  for_each chunk (fun src =>
    r ← call_translate src;
    match r with
    | Some tgt => cache_set src (str_or tgt src)
    | None => print (MsgCouldNotTranslate src);; cache_set src src
    end).

(** The body of the loop over the batches. *)
Definition translate_chunk (chunk : list pystr) : M unit :=
  r ← call_translate_batch chunk;
  match r with
  | Some results =>
      for_each (zip chunk results) (fun '(src, tgt) =>
        cache_set src (str_or tgt src))
  | None => print MsgBatchFailed;; translate_one_by_one chunk
  end.

(** [list(dict.fromkeys(n for n in names if n and n not in _cache))] *)
Definition unique_names (cache : gmap pystr pystr) (names : list pystr)
  : list pystr :=
  fromkeys (filter (fun n => nonempty n = true ∧ cache !! n = None) names).

Definition prime_translation_cache (names : list pystr) : M unit :=
  cache ← get_cache;
  let unique := unique_names cache names in
  match unique with
  | [] => print MsgNoTranslationNeeded
  | _ =>
      print (MsgTranslating (length unique));;
      for_each (py_range_step (length unique) BATCH) (fun i =>
        translate_chunk (slice unique i (i + BATCH)));;
      print MsgTranslationComplete
  end.

(** *** Per-year shapefile generation *)

(** [str(row.get("name") or '')] *)
Definition raw_name (row : gmap pystr pyval) : pystr :=
  py_str (py_or (row_get row (u "name")) (PyStr [])).

(** A list comprehension whose element expression may raise. *)
Fixpoint exc_map {A B} (f : A -> exc B) (l : list A) : exc (list B) :=
  match l with
  | [] => Ok []
  | x :: l' => y ← f x; ys ← exc_map f l'; Ok (y :: ys)
  end.

(** [if zh:] on an [Optional[str]] *)
Definition zh_truthy (zh : option pystr) : bool :=
  match zh with Some z => nonempty z | None => false end.

(** [_cache.get(en, en)]; only a [str] can be a key of the cache. *)
Definition cache_get (cache : gmap pystr pystr) (en : pyval) : pyval :=
  match en with
  | PyStr s => PyStr (default s (cache !! s))
  | v => v
  end.

(** One iteration of the loop that fills [titles]. *)
Definition resolve_title (cache : gmap pystr pystr)
    (tr : pyval * gmap pystr pyval) : exc pyval :=
  let '(tags, row) := tr in
  zh ← get_title_zh tags (raw_name row);
  match zh with
  | Some z =>
      if nonempty z then Ok (PyStr z)
      else match row !! u "title_en" with
           | Some en => Ok (cache_get cache en)
           | None => Raise KeyError
           end
  | None =>
      match row !! u "title_en" with
      | Some en => Ok (cache_get cache en)
      | None => Raise KeyError
      end
  end.

Definition tags_series (gdf : GeoDataFrame) : list pyval :=
  if bool_decide (u "tags" ∈ columns gdf)
  then map (fun row => parse_tags json_loads (row_get row (u "tags")))
           (rows gdf)
  else map (fun _ => PyDict ∅) (rows gdf).

(** [process_year] between [gpd.read_file] and [out.to_file]. *)
Definition enrich_frame (cache : gmap pystr pystr) (gdf : GeoDataFrame)
  : exc GeoDataFrame :=
  let tags := tags_series gdf in
  title_en ← exc_map (fun '(tags, row) => get_title_en tags (raw_name row))
                      (zip tags (rows gdf));
  let gdf1 := set_column (u "title_en") (PyStr <$> title_en) gdf in
  titles ← exc_map (resolve_title cache) (zip tags (rows gdf1));
  let gdf2 := set_column (u "title") titles gdf1 in
  let gdf3 :=
    set_column (u "oid")
      (map (fun i => PyInt (Z.of_nat i + 1)) (seq 0 (length (rows gdf2))))
      gdf2 in
  select_columns OUT_COLUMNS gdf3.

Definition process_year (year : Z) : M bool :=
  match input_files year with
  | None => print (MsgSkipping year);; mret false
  | Some gdf =>
      emit (EvMkdir (Some year));;
      emit (EvRead year);;
      cache ← get_cache;
      out ← lift (enrich_frame cache gdf);
      emit (EvWrite year out);;
      print (MsgFeatures year (length (rows out)));;
      mret true
  end.

(** *** Main *)

(** Phase 1, the loop over the rows of one dataset. *)
Fixpoint scan_rows (rws : list (gmap pystr pyval))
    (needs_translation : list pystr) : exc (list pystr) :=
  match rws with
  | [] => Ok needs_translation
  | row :: rws' =>
      let tags := parse_tags json_loads (row_get row (u "tags")) in
      zh ← get_title_zh tags (raw_name row);
      if zh_truthy zh then scan_rows rws' needs_translation
      else
        en ← get_title_en tags (raw_name row);
        if nonempty en then scan_rows rws' (needs_translation ++ [en])
        else scan_rows rws' needs_translation
  end.

(** Phase 1, the loop over the years. *)
Fixpoint scan_years (years : list Z) (needs_translation : list pystr)
  : M (list pystr) :=
  match years with
  | [] => mret needs_translation
  | year :: years' =>
      match input_files year with
      | None => scan_years years' needs_translation
      | Some gdf =>
          emit (EvRead year);;
          needs ← lift (scan_rows (rows gdf) needs_translation);
          scan_years years' needs
      end
  end.

(** [sum(process_year(y) for y in years)] *)
Fixpoint sum_process_year (years : list Z) (acc : Z) : M Z :=
  match years with
  | [] => mret acc
  | y :: years' =>
      b ← process_year y;
      sum_process_year years' (acc + (if b : bool then 1 else 0))%Z
  end.

Definition DEFAULT_START : Z := 1900.
Definition DEFAULT_END : Z := 2026.

(** [main], after [argparse] has produced the two integers (by default
    [DEFAULT_START] and [DEFAULT_END]). *)
Definition main (start end_ : Z) : M unit :=
  if (start >? end_)%Z then
    print (MsgRangeError start end_);;
    raise (SystemExit 1%Z)
  else
    let years := py_range start (end_ + 1) in
    print (MsgPhase1 (length years));;
    needs_translation ← scan_years years [];
    print MsgPhase2;;
    prime_translation_cache needs_translation;;
    print MsgPhase3;;
    emit (EvMkdir None);;
    written ← sum_process_year years 0%Z;
    print (MsgDone written (length years)).

(** A whole run of the script: the cache starts empty. *)
Definition run (start end_ : Z) : exc unit * state :=
  main start end_ initial_state.

End Converter.

(** ** The resolver as the specification words it *)

(** English label: the explicit English tag if non-empty, otherwise the
    raw name if non-empty, otherwise the empty string; trimmed. *)
Definition spec_title_en (tags : gmap pystr pystr) (name : pystr) : pystr :=
  let fallback := if nonempty name then name else [] in
  strip (match tags !! u "name:en" with
         | Some en => if nonempty en then en else fallback
         | None => fallback
         end).

(** The six locale keys the specification names, in its order: generic,
    Simplified, Traditional, Mainland, Taiwan, Singapore. *)
Definition spec_zh_keys : list pystr :=
  [u "name:zh"; u "name:zh-Hans"; u "name:zh-Hant";
   u "name:zh-CN"; u "name:zh-TW"; u "name:zh-SG"].

(** A code point of the block CJK Unified Ideographs (U+4E00 to U+9FFF)
    or of the block CJK Unified Ideographs Extension A (U+3400 to
    U+4DBF). *)
Definition spec_cjk (c : Z) : bool :=
  bool_decide ((0x4E00 <= c <= 0x9FFF)%Z \/ (0x3400 <= c <= 0x4DBF)%Z).

(** Chinese label candidate: the first non-empty trimmed value among the
    six locale keys in their fixed order; failing that, the trimmed raw
    name when it holds at least one CJK code point; otherwise nothing. *)
Definition spec_title_zh (tags : gmap pystr pystr) (name : pystr)
  : option pystr :=
  match filter (fun val => nonempty val = true)
               (map (fun key => strip (default [] (tags !! key)))
                    spec_zh_keys) with
  | val :: _ => Some val
  | [] => if existsb spec_cjk name then Some (strip name) else None
  end.

(** ** Observations on a trace *)

(** The labels handed to the batched call, in call order. *)
Fixpoint batched (tr : list event) : list pystr :=
  match tr with
  | [] => []
  | EvTranslateBatch chunk :: tr' => chunk ++ batched tr'
  | _ :: tr' => batched tr'
  end.

(** The labels handed to the individual call, in call order. *)
Fixpoint singles (tr : list event) : list pystr :=
  match tr with
  | [] => []
  | EvTranslate src :: tr' => src :: singles tr'
  | _ :: tr' => singles tr'
  end.

(** How often a label occurs in a list of labels. *)
Definition occurrences (label : pystr) (labels : list pystr) : nat :=
  length (filter (fun n => n = label) labels).

(** How often a label was passed to the translation provider. *)
Definition times_passed (label : pystr) (tr : list event) : nat :=
  occurrences label (batched tr) + occurrences label (singles tr).

(** The datasets written, in order. *)
Fixpoint written (tr : list event) : list (Z * GeoDataFrame) :=
  match tr with
  | [] => []
  | EvWrite year out :: tr' => (year, out) :: written tr'
  | _ :: tr' => written tr'
  end.

(** ** Well-formed input *)

Section WellFormed.

Variable json_loads : pystr -> option pyval.

(** The tags of the row normalise to a mapping from strings to
    strings. *)
Definition wf_row (row : gmap pystr pyval) : Prop :=
  exists d : gmap pystr pystr,
    parse_tags json_loads (row_get row (u "tags")) = str_dict d.

(** What the dataset reader hands over: a geometry column, and tags
    that normalise to string mappings. *)
Definition wf_frame (gdf : GeoDataFrame) : Prop :=
  u "geometry" ∈ columns gdf ∧ Forall wf_row (rows gdf).

Definition wf_files (input_files : Z -> option GeoDataFrame) : Prop :=
  forall year gdf, input_files year = Some gdf -> wf_frame gdf.

(** Tag data that does not parse: text that is no JSON, or a value
    that is neither a mapping nor text. *)
Definition unparsable (raw : pyval) : Prop :=
  match raw with
  | PyStr s => json_loads s = None
  | PyDict _ => False
  | _ => True
  end.

End WellFormed.

(** ** Vocabulary of the properties *)

(** No whitespace at either end. *)
Definition trimmed (s : pystr) : Prop :=
  (forall c, head s = Some c -> isspace c = false) /\
  (forall c, last s = Some c -> isspace c = false).

(** The result is not a [SystemExit]. *)
Definition no_exit {A} (r : exc A) : Prop :=
  match r with
  | Raise (SystemExit _) => False
  | _ => True
  end.

(** [m] started in [s] returns [a], leaves the cache [c] and appends the
    events [tr]. *)
Definition runs_to {A} (m : M A) (s : state) (a : A)
    (c : gmap pystr pystr) (tr : list event) : Prop :=
  m s = (Ok a, {| _cache := c; trace := trace s ++ tr |}).

(** [m] started in [s] ends with the result [r], leaves the cache [c]
    and appends the events [tr]. *)
Definition steps_to {A} (m : M A) (s : state) (r : exc A)
    (c : gmap pystr pystr) (tr : list event) : Prop :=
  m s = (r, {| _cache := c; trace := trace s ++ tr |}).

(** The slices taken by the loop over the batches. *)
Definition chunks (unique : list pystr) : list (list pystr) :=
  map (fun i => slice unique i (i + BATCH))
      (py_range_step (length unique) BATCH).

(** What one stretch of the priming loop leaves behind: nothing is
    raised, and the cache only changes at the labels handed over. *)
Record primed (labels : list pystr) (s : state)
    (c : gmap pystr pystr) (tr : list event) : Prop := {
  primed_frame : forall k, k ∉ labels -> c !! k = _cache s !! k;
  primed_mono : forall k, is_Some (_cache s !! k) -> is_Some (c !! k);
  primed_batched : batched tr = labels;
  primed_singles : sublist (singles tr) labels;
  primed_written : written tr = [];
  primed_quiet : Forall (fun e => match e with
                                  | EvPrint _ | EvTranslateBatch _
                                  | EvTranslate _ => True
                                  | _ => False
                                  end) tr
}.

(** The row written for the feature at index [i]. *)
Definition out_row (i : nat) (row : gmap pystr pyval) (en : pystr)
    (title : pyval) : gmap pystr pyval :=
  filter (fun kv => kv.1 ∈ OUT_COLUMNS)
    (<[u "oid" := PyInt (Z.of_nat i + 1)]>
       (<[u "title" := title]> (<[u "title_en" := PyStr en]> row))).

(** The event belongs to the dataset of the year. *)
Definition touches (year : Z) (e : event) : Prop :=
  match e with
  | EvRead y | EvMkdir (Some y) | EvWrite y _ => y = year
  | _ => False
  end.

Section Vocabulary.

Variable json_loads : pystr -> option pyval.
Variable py_str : pyval -> pystr.
Variable input_files : Z -> option GeoDataFrame.
Variable translate_batch : list event -> list pystr -> option (list pystr).

(** The provider contract the batched call is used under: an answer
    for every label of the batch. *)
Definition batch_contract : Prop :=
  forall h chunk results,
    translate_batch h chunk = Some results -> length chunk <= length results.

(** The years of the list whose dataset exists. *)
Definition existing (years : list Z) : list Z :=
  filter (fun y => is_Some (input_files y)) years.

(** Phase 1 without its trace: the labels found in the given years. *)
Fixpoint needs_of_years (years : list Z) (needs_translation : list pystr)
  : exc (list pystr) :=
  match years with
  | [] => Ok needs_translation
  | year :: years' =>
      match input_files year with
      | None => needs_of_years years' needs_translation
      | Some gdf =>
          needs ← scan_rows json_loads py_str (rows gdf) needs_translation;
          needs_of_years years' needs
      end
  end.

(** What phases 1 and 3 may leave in the trace, given the cache of
    phase 3: messages, directories, reads of existing datasets, and
    writes of the enriched frame of an existing dataset. *)
Definition dataset_event (c : gmap pystr pystr) (e : event) : Prop :=
  match e with
  | EvPrint _ | EvMkdir None => True
  | EvRead y | EvMkdir (Some y) => is_Some (input_files y)
  | EvWrite y out =>
      exists gdf, input_files y = Some gdf /\
                  enrich_frame json_loads py_str c gdf = Ok out
  | EvTranslateBatch _ | EvTranslate _ => False
  end.

(** What a whole run may leave in the trace, given the final cache. *)
Definition run_event (c : gmap pystr pystr) (e : event) : Prop :=
  match e with
  | EvTranslateBatch _ | EvTranslate _ => True
  | _ => dataset_event c e
  end.

End Vocabulary.

(** ** Further observations *)

(** The arguments of the batched calls, call by call. *)
Fixpoint batches (tr : list event) : list (list pystr) :=
  match tr with
  | [] => []
  | EvTranslateBatch chunk :: tr' => chunk :: batches tr'
  | _ :: tr' => batches tr'
  end.

(** The years phase 3 dealt with: written ([true]) or reported as
    skipped ([false]). *)
Fixpoint handled (tr : list event) : list (Z * bool) :=
  match tr with
  | [] => []
  | EvWrite year _ :: tr' => (year, true) :: handled tr'
  | EvPrint (MsgSkipping year) :: tr' => (year, false) :: handled tr'
  | _ :: tr' => handled tr'
  end.

(** The directories created below [OUTPUT_DIR], in order. *)
Fixpoint year_dirs (tr : list event) : list Z :=
  match tr with
  | [] => []
  | EvMkdir (Some year) :: tr' => year :: year_dirs tr'
  | _ :: tr' => year_dirs tr'
  end.

(** What [prime_translation_cache] may leave in the trace. *)
Definition priming_event (e : event) : Prop :=
  match e with
  | EvTranslateBatch _ | EvTranslate _ => True
  | EvPrint MsgNoTranslationNeeded | EvPrint (MsgTranslating _)
  | EvPrint MsgBatchFailed | EvPrint (MsgCouldNotTranslate _)
  | EvPrint MsgTranslationComplete => True
  | _ => False
  end.

(** What the body of the loop over the batches may leave in the trace
    after its batched call. *)
Definition retry_event (e : event) : Prop :=
  match e with
  | EvTranslate _ | EvPrint MsgBatchFailed
  | EvPrint (MsgCouldNotTranslate _) => True
  | _ => False
  end.

(** The result is a value or an [AttributeError]. *)
Definition attr_only {A} (r : exc A) : Prop :=
  match r with
  | Ok _ | Raise AttributeError => True
  | Raise _ => False
  end.

(** Every event that [m] appends to the trace satisfies [Q]. *)
Definition emits {A} (Q : event -> Prop) (m : M A) : Prop :=
  forall s, exists tr, trace (m s).2 = trace s ++ tr /\ Forall Q tr.

(** The rows of the frame hold cells of the frame's columns only. *)
Definition frame_consistent (gdf : GeoDataFrame) : Prop :=
  Forall (fun row : gmap pystr pyval =>
            forall k, is_Some (row !! k) -> k ∈ columns gdf)
         (rows gdf).

(** The event creates something on disk: a directory or a dataset. *)
Definition output_event (e : event) : Prop :=
  match e with
  | EvMkdir _ | EvWrite _ _ => True
  | _ => False
  end.

(** The event is a call of the translation provider. *)
Definition provider_event (e : event) : Prop :=
  match e with
  | EvTranslateBatch _ | EvTranslate _ => True
  | _ => False
  end.

(** The years whose dataset was read, read by read. *)
Fixpoint reads (tr : list event) : list Z :=
  match tr with
  | [] => []
  | EvRead year :: tr' => year :: reads tr'
  | _ :: tr' => reads tr'
  end.

Section Provenance.

Variable json_loads : pystr -> option pyval.
Variable py_str : pyval -> pystr.
Variable translate_batch : list event -> list pystr -> option (list pystr).
Variable translate : list event -> pystr -> option pystr.

(** A batched call of the run: the trace [tr] holds the call for
    [chunk] right after its first events [h], and the provider, which
    saw [h], answered [r]. *)
Definition batch_call (tr h : list event) (chunk : list pystr)
    (r : option (list pystr)) : Prop :=
  (h ++ [EvTranslateBatch chunk]) `prefix_of` tr /\
  translate_batch h chunk = r.

(** An individual call of the run, likewise. *)
Definition single_call (tr h : list event) (src : pystr)
    (r : option pystr) : Prop :=
  (h ++ [EvTranslate src]) `prefix_of` tr /\ translate h src = r.

(** Where a value of the cache comes from, by the calls the run made
    after the events [h0]: [v] is what the priming stores under the
    label [k] after a batched call that was answered and holds [k] at
    the position of the answer, or after a batched call that held [k]
    and failed, followed by the individual call for [k]: its answer, or
    [k] itself when that call failed too. *)
Definition resolved (h0 tr : list event) (k v : pystr) : Prop :=
  (exists h chunk results p a,
     h0 `prefix_of` h /\ batch_call tr h chunk (Some results) /\
     chunk !! p = Some k /\ results !! p = Some a /\ v = str_or a k) \/
  (exists hb chunk h r,
     h0 `prefix_of` hb /\ batch_call tr hb chunk None /\ k ∈ chunk /\
     (hb ++ [EvTranslateBatch chunk]) `prefix_of` h /\
     single_call tr h k r /\
     v = match r with Some a => str_or a k | None => k end).

(** What the provider calls made after the events [h0] did, when the
    batches were [cs], the cache was [c0] before them, and the run ends
    with the trace [tr] and the cache [c]: every batch was called; a
    batched call that was answered stored the answers, position by
    position; a batched call that failed was followed by an individual
    call for each of its labels; an individual call only ever follows a
    failed batched call that held its label, and the cache then holds
    its answer, or the label itself when it failed. *)
Record calls (h0 : list event) (c0 c : gmap pystr pystr)
    (tr : list event) (cs : list (list pystr)) : Prop := {
  calls_batches : forall chunk, chunk ∈ cs ->
    exists h, h0 `prefix_of` h /\
              (h ++ [EvTranslateBatch chunk]) `prefix_of` tr;
  calls_batch : forall h chunk,
    h0 `prefix_of` h -> (h ++ [EvTranslateBatch chunk]) `prefix_of` tr ->
    chunk ∈ cs /\
    match translate_batch h chunk with
    | Some results =>
        forall p k, chunk !! p = Some k ->
          c !! k = match results !! p with
                   | Some a => Some (str_or a k)
                   | None => c0 !! k
                   end
    | None =>
        forall k, k ∈ chunk ->
          exists h', (h ++ [EvTranslateBatch chunk]) `prefix_of` h' /\
                     (h' ++ [EvTranslate k]) `prefix_of` tr
    end;
  calls_single : forall h src,
    h0 `prefix_of` h -> (h ++ [EvTranslate src]) `prefix_of` tr ->
    (exists hb chunk,
       h0 `prefix_of` hb /\
       (hb ++ [EvTranslateBatch chunk]) `prefix_of` h /\
       translate_batch hb chunk = None /\ src ∈ chunk) /\
    c !! src = Some (match translate h src with
                     | Some a => str_or a src
                     | None => src
                     end)
}.

(** Phase 1 records the label [en] for the row: the row has no Chinese
    candidate and [en] is its non-empty English label. *)
Definition needs_label (row : gmap pystr pyval) (en : pystr) : Prop :=
  exists zh,
    get_title_zh (parse_tags json_loads (row_get row (u "tags")))
                 (raw_name py_str row) = Ok zh /\
    zh_truthy zh = false /\
    get_title_en (parse_tags json_loads (row_get row (u "tags")))
                 (raw_name py_str row) = Ok en /\
    en <> [].

End Provenance.

(** ** A sample world *)

Module Sample.

Definition germany : pystr := u "Germany".
Definition deguo : pystr := [0x5fb7; 0x56fd]%Z.        (* 德国 *)
Definition deguo_hant : pystr := [0x5fb7; 0x570b]%Z.   (* 德國 *)
Definition riben : pystr := [0x65e5; 0x672c]%Z.        (* 日本 *)

(** A decoder that knows two texts. *)
Definition json_loads (s : pystr) : option pyval :=
  if bool_decide (s = u "[]") then Some (PyList [])
  else if bool_decide (s = u "{}") then Some (PyDict ∅)
  else None.

Definition py_str (v : pyval) : pystr :=
  match v with PyStr s => s | _ => u "?" end.

Definition geom (n : N) : pyval := PyOther true n.

Definition feature (name : pystr) (tags : pyval) (g : N)
  : gmap pystr pyval :=
  <[u "name" := PyStr name]>
    (<[u "tags" := tags]> (<[u "geometry" := geom g]> ∅)).

Definition zh_tags : gmap pystr pystr :=
  <[u "name:zh" := deguo]> (<[u "name:zh-Hant" := deguo_hant]>
    (<[u "name:en" := u " Germany "]> ∅)).

Definition cols : list pystr := [u "name"; u "tags"; u "geometry"].

Definition frame_1900 : GeoDataFrame :=
  {| columns := cols;
     rows := [feature germany (PyStr (u "{}")) 1;
              feature riben (PyStr (u "oops")) 2;
              feature [] (PyStr (u "oops")) 3] |}.

Definition frame_1901 : GeoDataFrame :=
  {| columns := cols;
     rows := [feature (u "Deutschland") (str_dict zh_tags) 4;
              feature germany PyNone 5] |}.

(** Datasets exist for 1900 and 1901 only. *)
Definition input_files (year : Z) : option GeoDataFrame :=
  if (year =? 1900)%Z then Some frame_1900
  else if (year =? 1901)%Z then Some frame_1901
  else None.

(** A provider whose batched call always fails, one whose batched call
    works, and an individual call that works. *)
Definition batch_down (h : list event) (chunk : list pystr)
  : option (list pystr) := None.

Definition batch_up (h : list event) (chunk : list pystr)
  : option (list pystr) := Some (map (fun _ => deguo) chunk).

Definition translate (h : list event) (src : pystr) : option pystr :=
  Some deguo.

Definition france : pystr := u "France".

(** A batched call that fails only when nothing has happened yet. *)
Definition batch_late (h : list event) (chunk : list pystr)
  : option (list pystr) :=
  match h with
  | [] => None
  | _ => Some (map (fun _ => deguo) chunk)
  end.

(** A batched call that succeeds without any answer. *)
Definition batch_short (h : list event) (chunk : list pystr)
  : option (list pystr) := Some [].

(** An individual call that fails the first time it is used and works
    from then on. *)
Definition translate_flaky (h : list event) (src : pystr) : option pystr :=
  match singles h with
  | [] => None
  | _ => Some deguo
  end.

(** The dataset written first by a run over 1899..1901. *)
Definition out_1900 : GeoDataFrame :=
  match written (trace (run json_loads py_str input_files batch_up translate
                            1899 1901).2) with
  | (_, out) :: _ => out
  | [] => {| columns := []; rows := [] |}
  end.

(** The dataset written by a run over 1900 alone. *)
Definition out_1900_alone : GeoDataFrame :=
  match written (trace (run json_loads py_str input_files batch_up translate
                            1900 1900).2) with
  | (_, out) :: _ => out
  | [] => {| columns := []; rows := [] |}
  end.

(** A third dataset, with one feature whose tags are the JSON text of a
    list. *)
Definition frame_1902 : GeoDataFrame :=
  {| columns := cols; rows := [feature germany (PyStr (u "[]")) 6] |}.

Definition input_files_1902 (year : Z) : option GeoDataFrame :=
  if (year =? 1902)%Z then Some frame_1902 else input_files year.

End Sample.

(** * Properties *)

(** ** Strings *)

Lemma nonempty_true (s : pystr) : nonempty s = true <-> s <> [].
Proof. destruct s; simpl; split; congruence. Qed.

Lemma nonempty_false (s : pystr) : nonempty s = false <-> s = [].
Proof. destruct s; simpl; split; congruence. Qed.

Example strip_germany : strip (u "  Germany ") = u "Germany".
Proof. reflexivity. Qed.

Example strip_ideographic_space :
  strip (0x3000 :: Sample.riben ++ [0xa0])%Z = Sample.riben.
Proof. reflexivity. Qed.

(** ** The name resolver on string-valued tags *)

Lemma py_get_str_dict (d : gmap pystr pystr) (key : pystr) :
  py_get (str_dict d) key = Ok (from_option PyStr PyNone (d !! key)).
Proof.
  unfold str_dict, py_get. rewrite lookup_fmap.
  destruct (d !! key); reflexivity.
Qed.

Lemma get_title_en_str_dict (d : gmap pystr pystr) (name : pystr) :
  get_title_en (str_dict d) name = Ok (spec_title_en d name).
Proof.
  unfold get_title_en, spec_title_en. rewrite py_get_str_dict.
  destruct (d !! u "name:en") as [en|]; simpl.
  - unfold py_or at 2. simpl. destruct (nonempty en) eqn:Hen.
    + unfold py_or. simpl. rewrite Hen. reflexivity.
    + unfold py_or. simpl. destruct (nonempty name); reflexivity.
  - unfold py_or. simpl. destruct (nonempty name); reflexivity.
Qed.

Lemma get_title_zh_loop_str_dict (d : gmap pystr pystr) (keys : list pystr) :
  get_title_zh_loop (str_dict d) keys =
  Ok (head (filter (fun val => nonempty val = true)
                   (map (fun key => strip (default [] (d !! key))) keys))).
Proof.
  induction keys as [|key keys IH]; [reflexivity|].
  cbn [get_title_zh_loop map]. rewrite py_get_str_dict.
  rewrite filter_cons.
  destruct (d !! key) as [v|]; simpl.
  - unfold py_or. simpl. destruct (nonempty v) eqn:Hv; simpl.
    + destruct (nonempty (strip v)) eqn:Hs.
      * rewrite decide_True by done. reflexivity.
      * rewrite decide_False by congruence. exact IH.
    + apply nonempty_false in Hv. subst v. simpl. exact IH.
  - unfold py_or. simpl. exact IH.
Qed.

(** The character class of the code is the two blocks of the
    specification. *)
Lemma _CJK_RE_spec (c : Z) : _CJK_RE c = spec_cjk c.
Proof.
  unfold _CJK_RE, spec_cjk. case_bool_decide as H.
  - apply orb_true_iff. rewrite !andb_true_iff, !Z.leb_le. lia.
  - apply not_true_is_false. intros Ht. apply H.
    apply orb_true_iff in Ht. rewrite !andb_true_iff, !Z.leb_le in Ht. lia.
Qed.

Lemma has_chinese_spec (name : pystr) :
  has_chinese (Some name) = existsb spec_cjk name.
Proof.
  change (existsb _CJK_RE name = existsb spec_cjk name).
  induction name as [|c name IH]; [reflexivity|].
  cbn [existsb]. rewrite IH, _CJK_RE_spec. reflexivity.
Qed.


Lemma get_title_zh_str_dict (d : gmap pystr pystr) (name : pystr) :
  get_title_zh (str_dict d) name = Ok (spec_title_zh d name).
Proof.
  unfold get_title_zh, spec_title_zh.
  rewrite get_title_zh_loop_str_dict, has_chinese_spec.
  change ZH_KEYS with spec_zh_keys.
  destruct (filter _ _) as [|val vals]; simpl; [|reflexivity].
  destruct (existsb spec_cjk name); reflexivity.
Qed.



(** The raw name alone decides when no locale key is present. *)
Example get_title_zh_cjk_name :
  get_title_zh (PyDict ∅) Sample.riben = Ok (Some Sample.riben).
Proof. reflexivity. Qed.

Example get_title_zh_latin_name :
  get_title_zh (PyDict ∅) Sample.germany = Ok None.
Proof. reflexivity. Qed.

(** A value that is blank once trimmed does not count as present. *)
Example get_title_zh_blank_value :
  get_title_zh
    (str_dict (<[u "name:zh" := u " "]>
                 (<[u "name:zh-Hant" := Sample.deguo_hant]> ∅)))
    Sample.germany
  = Ok (Some Sample.deguo_hant).
Proof. vm_compute. reflexivity. Qed.

(** A blank English tag still shadows the raw name. *)
Example get_title_en_blank_tag :
  get_title_en (str_dict (<[u "name:en" := u " "]> ∅)) Sample.germany = Ok [].
Proof. vm_compute. reflexivity. Qed.

(** Tag values that are no strings make the resolver raise. *)
Example get_title_en_number :
  get_title_en (PyDict (<[u "name:en" := PyInt 5]> ∅)) Sample.germany
  = Raise AttributeError.
Proof. vm_compute. reflexivity. Qed.

(** ** Trimming *)

Lemma lstrip_head (s : pystr) (c : Z) :
  head (lstrip s) = Some c -> isspace c = false.
Proof.
  induction s as [|a s IH]; simpl; [discriminate|].
  destruct (isspace a) eqn:Ha; [exact IH|].
  simpl. intros [= <-]. exact Ha.
Qed.

Lemma lstrip_suffix (s : pystr) : exists p, s = p ++ lstrip s.
Proof.
  induction s as [|a s [p Hp]]; simpl.
  - exists []. reflexivity.
  - destruct (isspace a).
    + exists (a :: p). simpl. congruence.
    + exists []. reflexivity.
Qed.

Lemma rstrip_prefix (s : pystr) : exists q, s = rstrip s ++ q.
Proof.
  unfold rstrip. destruct (lstrip_suffix (reverse s)) as [p Hp].
  exists (reverse p). rewrite <- reverse_app, <- Hp, reverse_involutive.
  reflexivity.
Qed.

Lemma strip_trimmed (s : pystr) : trimmed (strip s).
Proof.
  unfold strip. split; intros c Hc.
  - destruct (rstrip_prefix (lstrip s)) as [q Hq].
    apply (lstrip_head s). rewrite Hq.
    destruct (rstrip (lstrip s)); [discriminate|exact Hc].
  - unfold rstrip in Hc. rewrite last_reverse in Hc.
    exact (lstrip_head _ _ Hc).
Qed.

(** ** The tag parser *)

Lemma parse_tags_dict (json_loads : pystr -> option pyval) (d : gmap pystr pyval) :
  parse_tags json_loads (PyDict d) = PyDict d.
Proof. reflexivity. Qed.

Lemma parse_tags_decode_error (json_loads : pystr -> option pyval) (s : pystr) :
  json_loads s = None -> parse_tags json_loads (PyStr s) = PyDict ∅.
Proof. intros H. simpl. rewrite H. reflexivity. Qed.

Lemma parse_tags_other_shape (json_loads : pystr -> option pyval) (raw : pyval) :
  (forall d, raw <> PyDict d) -> (forall s, raw <> PyStr s) ->
  parse_tags json_loads raw = PyDict ∅.
Proof. intros Hd Hs. destruct raw; try reflexivity; congruence. Qed.

Lemma parse_tags_unparsable (json_loads : pystr -> option pyval) (raw : pyval) :
  unparsable json_loads raw -> parse_tags json_loads raw = PyDict ∅.
Proof.
  destruct raw; simpl; try reflexivity.
  - intros ->. reflexivity.
  - intros [].
Qed.

(** C5: [parse_tags] hands back whatever the JSON text decodes to.  On
    the text "[]", which decodes to the empty list, the result is that
    list and not a mapping, and the resolver that receives it raises an
    [AttributeError]. *)
Theorem parse_tags_json_array (json_loads : pystr -> option pyval) (name : pystr) :
  json_loads (u "[]") = Some (PyList []) ->
  parse_tags json_loads (PyStr (u "[]")) = PyList [] /\
  is_dict (parse_tags json_loads (PyStr (u "[]"))) = false /\
  get_title_zh (parse_tags json_loads (PyStr (u "[]"))) name
    = Raise AttributeError.
Proof.
  intros H. cbn [parse_tags]. rewrite H. repeat split.
Qed.

Lemma parse_tags_json_array_witness :
  parse_tags Sample.json_loads (PyStr (u "[]")) = PyList [] /\
  is_dict (parse_tags Sample.json_loads (PyStr (u "[]"))) = false /\
  get_title_zh (parse_tags Sample.json_loads (PyStr (u "[]"))) Sample.germany
    = Raise AttributeError.
Proof. apply (parse_tags_json_array Sample.json_loads). reflexivity. Defined.

(** ** The name resolver *)




(** ** Stepping through the monad *)

Lemma M_bind_eq {A B} (m : M A) (f : A -> M B) (s : state) :
  (m ≫= f) s = match m s with
               | (Ok a, s') => f a s'
               | (Raise e, s') => (Raise e, s')
               end.
Proof. reflexivity. Qed.

Lemma M_bind_ok {A B} (m : M A) (f : A -> M B) (s s' : state) (a : A) :
  m s = (Ok a, s') -> (m ≫= f) s = f a s'.
Proof. intros H. rewrite M_bind_eq, H. reflexivity. Qed.

Lemma M_bind_raise {A B} (m : M A) (f : A -> M B) (s s' : state) (e : exn) :
  m s = (Raise e, s') -> (m ≫= f) s = (Raise e, s').
Proof. intros H. rewrite M_bind_eq, H. reflexivity. Qed.

Lemma runs_to_ret {A} (a : A) (s : state) : runs_to (mret a) s a (_cache s) [].
Proof. unfold runs_to. rewrite app_nil_r. destruct s; reflexivity. Qed.

Lemma runs_to_emit (e : event) (s : state) :
  runs_to (emit e) s tt (_cache s) [e].
Proof. reflexivity. Qed.

Lemma runs_to_cache_set (src tgt : pystr) (s : state) :
  runs_to (cache_set src tgt) s tt (<[src := tgt]> (_cache s)) [].
Proof. unfold runs_to, cache_set. rewrite app_nil_r. reflexivity. Qed.

Lemma runs_to_bind {A B} (m : M A) (f : A -> M B) (s : state)
    (a : A) (b : B) (c1 c2 : gmap pystr pystr) (tr1 tr2 : list event) :
  runs_to m s a c1 tr1 ->
  runs_to (f a) {| _cache := c1; trace := trace s ++ tr1 |} b c2 tr2 ->
  runs_to (m ≫= f) s b c2 (tr1 ++ tr2).
Proof.
  unfold runs_to. intros H1 H2. rewrite (M_bind_ok _ _ _ _ _ H1), H2.
  simpl. rewrite app_assoc. reflexivity.
Qed.

(** ** Observations distribute over concatenation *)

Lemma batched_app (tr1 tr2 : list event) :
  batched (tr1 ++ tr2) = batched tr1 ++ batched tr2.
Proof.
  induction tr1 as [|e tr1 IH]; [reflexivity|].
  destruct e; simpl; rewrite IH; try reflexivity. apply app_assoc.
Qed.

Lemma singles_app (tr1 tr2 : list event) :
  singles (tr1 ++ tr2) = singles tr1 ++ singles tr2.
Proof.
  induction tr1 as [|e tr1 IH]; [reflexivity|].
  destruct e; simpl; rewrite IH; reflexivity.
Qed.

Lemma written_app (tr1 tr2 : list event) :
  written (tr1 ++ tr2) = written tr1 ++ written tr2.
Proof.
  induction tr1 as [|e tr1 IH]; [reflexivity|].
  destruct e; simpl; rewrite IH; reflexivity.
Qed.

Lemma occurrences_app (label : pystr) (l1 l2 : list pystr) :
  occurrences label (l1 ++ l2) = occurrences label l1 + occurrences label l2.
Proof. unfold occurrences. rewrite filter_app, length_app. reflexivity. Qed.

Lemma occurrences_sublist (label : pystr) (l1 l2 : list pystr) :
  sublist l1 l2 -> occurrences label l1 <= occurrences label l2.
Proof.
  unfold occurrences.
  induction 1 as [|x l1 l2 _ IH|x l1 l2 _ IH]; [lia| |];
    rewrite ?filter_cons; destruct (decide (x = label)); simpl; lia.
Qed.

Lemma occurrences_not_in (label : pystr) (l : list pystr) :
  label ∉ l -> occurrences label l = 0.
Proof.
  unfold occurrences. induction l as [|x l IH]; [reflexivity|].
  intros H. apply not_elem_of_cons in H as [Hne Hl].
  rewrite filter_cons, decide_False by congruence. apply IH, Hl.
Qed.

Lemma occurrences_NoDup (label : pystr) (l : list pystr) :
  NoDup l -> occurrences label l <= 1.
Proof.
  induction 1 as [|x l Hx Hl IH]; [unfold occurrences; simpl; lia|].
  change (x :: l) with ([x] ++ l). rewrite occurrences_app.
  unfold occurrences at 1. rewrite filter_cons.
  destruct (decide (x = label)) as [->|]; simpl; [|exact IH].
  rewrite occurrences_not_in by exact Hx. lia.
Qed.

(** ** Deduplication and batching *)

Lemma fromkeys_fold_elem_of (l acc : list pystr) (x : pystr) :
  x ∈ fold_left (fun acc n => if bool_decide (n ∈ acc) then acc else acc ++ [n])
                l acc
  <-> x ∈ acc \/ x ∈ l.
Proof.
  revert acc. induction l as [|n l IH]; intros acc; simpl.
  - rewrite elem_of_nil. tauto.
  - rewrite IH, elem_of_cons. case_bool_decide as Hn.
    + split; [tauto|]. intros [H|[->|H]]; tauto.
    + rewrite elem_of_app, list_elem_of_singleton. tauto.
Qed.

Lemma fromkeys_fold_NoDup (l acc : list pystr) :
  NoDup acc ->
  NoDup (fold_left (fun acc n => if bool_decide (n ∈ acc) then acc else acc ++ [n])
                   l acc).
Proof.
  revert acc. induction l as [|n l IH]; intros acc Hacc; simpl; [exact Hacc|].
  apply IH. case_bool_decide as Hn; [exact Hacc|].
  apply NoDup_app. repeat split; [exact Hacc| |apply NoDup_singleton].
  intros x Hx ->%list_elem_of_singleton. contradiction.
Qed.

Lemma fromkeys_elem_of (l : list pystr) (x : pystr) : x ∈ fromkeys l <-> x ∈ l.
Proof.
  unfold fromkeys. rewrite fromkeys_fold_elem_of, elem_of_nil. tauto.
Qed.

Lemma fromkeys_NoDup (l : list pystr) : NoDup (fromkeys l).
Proof. apply fromkeys_fold_NoDup, NoDup_nil_2. Qed.

Lemma unique_names_elem_of (cache : gmap pystr pystr) (names : list pystr)
    (n : pystr) :
  n ∈ unique_names cache names <-> n ∈ names /\ n <> [] /\ cache !! n = None.
Proof.
  unfold unique_names. rewrite fromkeys_elem_of, list_elem_of_filter.
  rewrite nonempty_true. tauto.
Qed.

Example py_range_step_101 : py_range_step 101 BATCH = [0; 50; 100].
Proof. reflexivity. Qed.

Example py_range_step_100 : py_range_step 100 BATCH = [0; 50].
Proof. reflexivity. Qed.

Example fromkeys_keeps_first :
  fromkeys [u "b"; u "a"; u "b"; u "c"; u "a"] = [u "b"; u "a"; u "c"].
Proof. reflexivity. Qed.

Lemma concat_slices {A} (l : list A) (step m : nat) :
  concat (map (fun i => slice l i (i + step))
              (map (fun k => k * step) (seq 0 m)))
  = take (m * step) l.
Proof.
  induction m as [|m IH]; [reflexivity|].
  rewrite seq_S, !map_app, concat_app, IH. simpl.
  rewrite app_nil_r. unfold slice.
  replace (m * step + step - m * step) with step by lia.
  rewrite take_take_drop. f_equal. lia.
Qed.

Lemma concat_chunks (unique : list pystr) : concat (chunks unique) = unique.
Proof.
  unfold chunks, py_range_step. rewrite concat_slices.
  apply take_ge. unfold BATCH.
  pose proof (Nat.div_mod_eq (length unique + 50 - 1) 50) as Hd.
  pose proof (Nat.mod_upper_bound (length unique + 50 - 1) 50) as Hm.
  lia.
Qed.

(** ** Priming the cache *)

Section Translation.

Variable translate_batch : list event -> list pystr -> option (list pystr).
Variable translate : list event -> pystr -> option pystr.

Lemma zip_loop_spec (ps : list (pystr * pystr)) (s : state) :
  exists c,
    runs_to (for_each ps (fun '(src, tgt) => cache_set src (str_or tgt src)))
            s tt c [] /\
    (forall k, k ∉ ps.*1 -> c !! k = _cache s !! k) /\
    (forall k, is_Some (_cache s !! k) -> is_Some (c !! k)) /\
    (forall k, k ∈ ps.*1 -> is_Some (c !! k)).
Proof.
  revert s. induction ps as [|[src tgt] ps IH]; intros s.
  - exists (_cache s). split; [apply runs_to_ret|].
    repeat split; auto. intros k Hk. inversion Hk.
  - destruct (IH {| _cache := <[src := str_or tgt src]> (_cache s);
                    trace := trace s ++ [] |}) as (c & Hrun & Hfr & Hmo & Hin).
    exists c. split.
    { cbn [for_each].
      apply (runs_to_bind _ _ s tt tt (<[src := str_or tgt src]> (_cache s)) c [] []);
        [|exact Hrun].
      apply runs_to_cache_set. }
    cbn [_cache] in *. repeat split.
    + intros k Hk. cbn [fmap list_fmap fst] in Hk.
      apply not_elem_of_cons in Hk as [Hne Hk].
      rewrite (Hfr k Hk). apply lookup_insert_ne. congruence.
    + intros k Hk. apply Hmo.
      destruct (decide (src = k)) as [->|Hne].
      * rewrite lookup_insert_eq. eauto.
      * rewrite lookup_insert_ne by exact Hne. exact Hk.
    + intros k Hk. cbn [fmap list_fmap fst] in Hk.
      apply elem_of_cons in Hk as [->|Hk]; [|apply Hin, Hk].
      apply Hmo. rewrite lookup_insert_eq. eauto.
Qed.

Lemma translate_one_by_one_spec (chunk : list pystr) (s : state) :
  exists c tr,
    runs_to (translate_one_by_one translate chunk) s tt c tr /\
    (forall k, k ∉ chunk -> c !! k = _cache s !! k) /\
    (forall k, is_Some (_cache s !! k) -> is_Some (c !! k)) /\
    (forall k, k ∈ chunk -> is_Some (c !! k)) /\
    (forall k, k ∈ chunk -> (forall h, translate h k = None) ->
               c !! k = Some k) /\
    batched tr = [] /\ singles tr = chunk /\ written tr = [] /\
    Forall (fun e => match e with
                     | EvPrint _ | EvTranslate _ => True
                     | _ => False
                     end) tr.
Proof.
  revert s. induction chunk as [|src chunk IH]; intros s.
  - exists (_cache s), []. split; [apply runs_to_ret|].
    repeat split; auto; intros k Hk; inversion Hk.
  - unfold translate_one_by_one. cbn [for_each].
    fold (translate_one_by_one translate chunk).
    set (v := match translate (trace s) src with
              | Some tgt => str_or tgt src
              | None => src
              end).
    set (tr1 := EvTranslate src ::
                match translate (trace s) src with
                | Some _ => []
                | None => [EvPrint (MsgCouldNotTranslate src)]
                end).
    destruct (IH {| _cache := <[src := v]> (_cache s);
                    trace := trace s ++ tr1 |})
      as (c & tr & Hrun & Hfr & Hmo & Hin & Hfb & Hb & Hs & Hw & Hq).
    exists c, (tr1 ++ tr). split.
    { apply (runs_to_bind _ _ s tt tt (<[src := v]> (_cache s)) c tr1 tr);
        [|exact Hrun].
      unfold runs_to, call_translate, tr1, v.
      rewrite M_bind_eq. cbn [trace _cache].
      destruct (translate (trace s) src) as [tgt|].
      - unfold cache_set. cbn [trace _cache]. reflexivity.
      - unfold print, emit, cache_set. rewrite !M_bind_eq.
        cbn [trace _cache]. rewrite <- app_assoc. reflexivity. }
    cbn [_cache] in *.
    assert (Hb1 : batched tr1 = []).
    { unfold tr1. destruct (translate (trace s) src); reflexivity. }
    assert (Hs1 : singles tr1 = [src]).
    { unfold tr1. destruct (translate (trace s) src); reflexivity. }
    assert (Hw1 : written tr1 = []).
    { unfold tr1. destruct (translate (trace s) src); reflexivity. }
    repeat split.
    + intros k Hk. apply not_elem_of_cons in Hk as [Hne Hk].
      rewrite (Hfr k Hk). apply lookup_insert_ne. congruence.
    + intros k Hk. apply Hmo.
      destruct (decide (src = k)) as [->|Hne].
      * rewrite lookup_insert_eq. eauto.
      * rewrite lookup_insert_ne by exact Hne. exact Hk.
    + intros k Hk. apply elem_of_cons in Hk as [->|Hk]; [|apply Hin, Hk].
      apply Hmo. rewrite lookup_insert_eq. eauto.
    + intros k Hk Hnone.
      destruct (decide (k ∈ chunk)) as [Hkc|Hkc]; [apply Hfb; assumption|].
      apply elem_of_cons in Hk as [->|Hk]; [|contradiction].
      rewrite (Hfr src Hkc), lookup_insert_eq. unfold v.
      rewrite Hnone. reflexivity.
    + rewrite batched_app, Hb1, Hb. reflexivity.
    + rewrite singles_app, Hs1, Hs. reflexivity.
    + rewrite written_app, Hw1, Hw. reflexivity.
    + apply Forall_app. split; [|exact Hq].
      unfold tr1. destruct (translate (trace s) src); repeat constructor.
Qed.

Lemma translate_chunk_spec (chunk : list pystr) (s : state) :
  exists c tr,
    runs_to (translate_chunk translate_batch translate chunk) s tt c tr /\
    primed chunk s c tr /\
    (batch_contract translate_batch -> forall k, k ∈ chunk -> is_Some (c !! k)) /\
    (translate_batch (trace s) chunk = None ->
     forall k, k ∈ chunk -> (forall h, translate h k = None) ->
               c !! k = Some k) /\
    (translate_batch (trace s) chunk <> None -> singles tr = []) /\
    (translate_batch (trace s) chunk = None -> singles tr = chunk).
Proof.
  unfold translate_chunk.
  destruct (translate_batch (trace s) chunk) as [results|] eqn:Hb.
  - destruct (zip_loop_spec (zip chunk results)
                {| _cache := _cache s;
                   trace := trace s ++ [EvTranslateBatch chunk] |})
      as (c & Hrun & Hfr & Hmo & Hin).
    exists c, ([EvTranslateBatch chunk] ++ []). split.
    { apply (runs_to_bind _ _ s (Some results) tt (_cache s) c
               [EvTranslateBatch chunk] []); [|exact Hrun].
      unfold runs_to, call_translate_batch. rewrite Hb. reflexivity. }
    cbn [_cache] in *. split; [split|repeat split].
    + intros k Hk. apply Hfr. intros Hz. apply Hk.
      apply list_elem_of_fmap in Hz as ([a b] & -> & Hz).
      apply elem_of_zip_l in Hz. exact Hz.
    + exact Hmo.
    + simpl. apply app_nil_r.
    + simpl. apply sublist_nil_l.
    + reflexivity.
    + repeat constructor.
    + intros Hc k Hk. apply Hin. rewrite fst_zip; [exact Hk|].
      apply (Hc _ _ _ Hb).
    + discriminate.
    + discriminate.
  - destruct (translate_one_by_one_spec chunk
                {| _cache := _cache s;
                   trace := trace s ++ [EvTranslateBatch chunk;
                                        EvPrint MsgBatchFailed] |})
      as (c & tr & Hrun & Hfr & Hmo & Hin & Hfb & Hbt & Hs & Hw & Hq).
    exists c, ([EvTranslateBatch chunk; EvPrint MsgBatchFailed] ++ tr).
    split.
    { apply (runs_to_bind _ _ s None tt (_cache s) c
               [EvTranslateBatch chunk]
               ([EvPrint MsgBatchFailed] ++ tr)).
      - unfold runs_to, call_translate_batch. rewrite Hb. reflexivity.
      - apply (runs_to_bind _ _ _ tt tt (_cache s) c
                 [EvPrint MsgBatchFailed] tr); [reflexivity|].
        cbn [trace _cache]. rewrite <- app_assoc. exact Hrun. }
    cbn [_cache] in *. split; [split|repeat split].
    + exact Hfr.
    + exact Hmo.
    + rewrite batched_app, Hbt. simpl. rewrite !app_nil_r. reflexivity.
    + rewrite singles_app, Hs. reflexivity.
    + rewrite written_app, Hw. reflexivity.
    + apply Forall_app. split; [repeat constructor|].
      eapply Forall_impl; [exact Hq|]. intros [] H; tauto.
    + intros _ k Hk. apply Hin, Hk.
    + intros _. exact Hfb.
    + congruence.
    + intros _. rewrite singles_app, Hs. reflexivity.
Qed.

Lemma translate_chunks_spec (cs : list (list pystr)) (s : state) :
  exists c tr,
    runs_to (for_each cs (translate_chunk translate_batch translate))
            s tt c tr /\
    primed (concat cs) s c tr /\
    (batch_contract translate_batch -> forall k, k ∈ concat cs -> is_Some (c !! k)) /\
    (forall k, k ∈ concat cs ->
               (forall h chunk, k ∈ chunk -> translate_batch h chunk = None) ->
               (forall h, translate h k = None) -> c !! k = Some k) /\
    ((forall h chunk, translate_batch h chunk <> None) -> singles tr = []) /\
    ((forall h chunk, translate_batch h chunk = None) ->
     singles tr = concat cs).
Proof.
  revert s. induction cs as [|chunk cs IH]; intros s.
  - exists (_cache s), []. split; [apply runs_to_ret|].
    split; [split|repeat split]; simpl; auto using sublist_nil_l.
    + intros _ k Hk. inversion Hk.
    + intros k Hk. inversion Hk.
  - destruct (translate_chunk_spec chunk s)
      as (c1 & tr1 & Hrun1 & [Hfr1 Hmo1 Hb1 Hs1 Hw1 Hq1] & Hin1 & Hfb1
          & Hok1 & Hdn1).
    destruct (IH {| _cache := c1; trace := trace s ++ tr1 |})
      as (c & tr & Hrun & [Hfr Hmo Hb Hs Hw Hq] & Hin & Hfb & Hok & Hdn).
    exists c, (tr1 ++ tr). split.
    { cbn [for_each]. apply (runs_to_bind _ _ s tt tt c1 c tr1 tr);
        [exact Hrun1|exact Hrun]. }
    cbn [_cache trace concat] in *. split; [split|repeat split].
    + intros k Hk. apply not_elem_of_app in Hk as [Hk1 Hk2].
      rewrite (Hfr k Hk2). apply Hfr1, Hk1.
    + intros k Hk. apply Hmo, Hmo1, Hk.
    + rewrite batched_app, Hb1, Hb. reflexivity.
    + rewrite singles_app. apply sublist_app; assumption.
    + rewrite written_app, Hw1, Hw. reflexivity.
    + apply Forall_app. split; assumption.
    + intros Hc k Hk. apply elem_of_app in Hk as [Hk|Hk].
      * apply Hmo, Hin1; assumption.
      * apply Hin; assumption.
    + intros k Hk Hbn Hn.
      destruct (decide (k ∈ concat cs)) as [Hkc|Hkc].
      * apply Hfb; assumption.
      * apply elem_of_app in Hk as [Hk|Hk]; [|contradiction].
        rewrite (Hfr k Hkc). apply Hfb1; auto.
    + intros Hnf. rewrite singles_app, (Hok1 (Hnf _ _)), (Hok Hnf).
      reflexivity.
    + intros Hf. rewrite singles_app, (Hdn1 (Hf _ _)), (Hdn Hf).
      reflexivity.
Qed.

Lemma for_each_map {A B} (g : A -> B) (f : B -> M unit) (l : list A) :
  for_each (map g l) f = for_each l (fun x => f (g x)).
Proof.
  induction l as [|x l IH]; [reflexivity|]. simpl. rewrite IH. reflexivity.
Qed.

(** [prime_translation_cache] never raises; it hands the deduplicated
    labels to the batched call, in order and in one pass. *)
Lemma prime_translation_cache_spec (names : list pystr) (s : state) :
  exists c tr,
    runs_to (prime_translation_cache translate_batch translate names)
            s tt c tr /\
    primed (unique_names (_cache s) names) s c tr /\
    (batch_contract translate_batch ->
     forall k, k ∈ unique_names (_cache s) names -> is_Some (c !! k)) /\
    (forall k, k ∈ unique_names (_cache s) names ->
               (forall h chunk, k ∈ chunk -> translate_batch h chunk = None) ->
               (forall h, translate h k = None) -> c !! k = Some k) /\
    ((forall h chunk, translate_batch h chunk <> None) -> singles tr = []) /\
    ((forall h chunk, translate_batch h chunk = None) ->
     singles tr = unique_names (_cache s) names).
Proof.
  assert (Hprime :
    prime_translation_cache translate_batch translate names s =
    match unique_names (_cache s) names with
    | [] => print MsgNoTranslationNeeded
    | _ =>
        print (MsgTranslating (length (unique_names (_cache s) names)));;
        for_each (py_range_step (length (unique_names (_cache s) names)) BATCH)
          (fun i => translate_chunk translate_batch translate
                      (slice (unique_names (_cache s) names) i (i + BATCH)));;
        print MsgTranslationComplete
    end s) by reflexivity.
  unfold runs_to. rewrite Hprime. clear Hprime.
  remember (unique_names (_cache s) names) as unique0 eqn:Hu.
  destruct unique0 as [|n0 unique'].
  - exists (_cache s), [EvPrint MsgNoTranslationNeeded].
    split; [reflexivity|].
    split; [split|repeat split]; simpl; auto using sublist_nil_l.
    + intros _ k Hk. inversion Hk.
    + intros k Hk. inversion Hk.
  - clear Hu. set (unique := n0 :: unique').
    destruct (translate_chunks_spec (chunks unique)
                {| _cache := _cache s;
                   trace := trace s ++
                            [EvPrint (MsgTranslating (length unique))] |})
      as (c & tr & Hrun & [Hfr Hmo Hb Hs Hw Hq] & Hin & Hfb & Hok & Hdn).
    rewrite concat_chunks in *. cbn [_cache trace] in *.
    exists c, ([EvPrint (MsgTranslating (length unique))] ++
               tr ++ [EvPrint MsgTranslationComplete]).
    split.
    { change (runs_to
        (print (MsgTranslating (length unique));;
         for_each (py_range_step (length unique) BATCH)
           (fun i => translate_chunk translate_batch translate
                       (slice unique i (i + BATCH)));;
         print MsgTranslationComplete) s tt c
        ([EvPrint (MsgTranslating (length unique))] ++
         tr ++ [EvPrint MsgTranslationComplete])).
      apply (runs_to_bind _ _ s tt tt (_cache s) c
               [EvPrint (MsgTranslating (length unique))]
               (tr ++ [EvPrint MsgTranslationComplete]));
        [reflexivity|].
      apply (runs_to_bind _ _ _ tt tt c c tr
               [EvPrint MsgTranslationComplete]).
      - unfold chunks in Hrun. rewrite for_each_map in Hrun. exact Hrun.
      - reflexivity. }
    split; [split|repeat split].
    + exact Hfr.
    + exact Hmo.
    + rewrite !batched_app, Hb. cbn [batched app]. apply app_nil_r.
    + rewrite !singles_app. cbn [singles app]. rewrite app_nil_r. exact Hs.
    + rewrite !written_app, Hw. reflexivity.
    + apply Forall_app. split; [repeat constructor|].
      apply Forall_app. split; [exact Hq|repeat constructor].
    + exact Hin.
    + exact Hfb.
    + intros Hnf. rewrite !singles_app, (Hok Hnf). reflexivity.
    + intros Hf. rewrite !singles_app, (Hdn Hf). cbn [singles app].
      apply app_nil_r.
Qed.

End Translation.

(** ** The calls of the priming, one by one *)

Lemma prefix_snoc_inv {A} (l1 l2 h : list A) (e : A) :
  l1 `prefix_of` h -> (h ++ [e]) `prefix_of` (l1 ++ l2) ->
  exists h2, h = l1 ++ h2 /\ (h2 ++ [e]) `prefix_of` l2.
Proof.
  intros [h2 ->] [k Hk]. exists h2. split; [reflexivity|].
  exists k. rewrite <- !app_assoc in Hk. apply app_inv_head in Hk.
  rewrite Hk, <- app_assoc. reflexivity.
Qed.

Lemma prefix_snoc_app {A} (l1 l2 h : list A) (e : A) :
  (h ++ [e]) `prefix_of` (l1 ++ l2) ->
  (h ++ [e]) `prefix_of` l1 \/
  exists h2, h = l1 ++ h2 /\ (h2 ++ [e]) `prefix_of` l2.
Proof.
  revert h. induction l1 as [|x l1 IH]; intros h Hp.
  - right. exists h. auto.
  - destruct h as [|y h]; destruct Hp as [k Hk]; simpl in Hk;
      injection Hk as -> Hk.
    + left. exists l1. reflexivity.
    + destruct (IH h) as [[k' ->]|(h2 & -> & H2)]; [exists k; exact Hk| |].
      * left. exists k'. reflexivity.
      * right. exists h2. auto.
Qed.

Lemma prefix_snoc_elem {A} (l h : list A) (e : A) :
  (h ++ [e]) `prefix_of` l -> e ∈ l.
Proof.
  intros [k ->]. apply elem_of_app. left. apply elem_of_app. right. left.
Qed.

Lemma prefix_snoc_cons {A} (l h : list A) (x e : A) :
  (h ++ [e]) `prefix_of` (x :: l) ->
  (h = [] /\ e = x) \/ exists h', h = x :: h' /\ (h' ++ [e]) `prefix_of` l.
Proof.
  intros [k Hk]. destruct h as [|y h]; simpl in Hk; injection Hk as -> Hk.
  - left. auto.
  - right. exists h. split; [reflexivity|]. exists k. exact Hk.
Qed.

Lemma elem_of_concat_1 {A} (x : A) (ls : list (list A)) :
  x ∈ concat ls -> exists l, l ∈ ls /\ x ∈ l.
Proof.
  induction ls as [|l ls IH]; simpl; [intros H; inversion H|].
  intros [H|H]%elem_of_app.
  - exists l. split; [left|exact H].
  - destruct (IH H) as (l' & Hl & Hx). exists l'. split; [right|]; assumption.
Qed.

Lemma elem_of_concat_3 {A} (x : A) (l : list A) (ls : list (list A)) :
  l ∈ ls -> x ∈ l -> x ∈ concat ls.
Proof.
  induction ls as [|l' ls IH]; [intros H; inversion H|].
  intros [->|Hin]%elem_of_cons Hx; simpl; apply elem_of_app; auto.
Qed.

Lemma singles_elem_of (tr : list event) (src : pystr) :
  src ∈ singles tr -> exists h, (h ++ [EvTranslate src]) `prefix_of` tr.
Proof.
  induction tr as [|e tr IH]; [intros H; inversion H|].
  assert (Hnext : src ∈ singles tr ->
                  exists h, (h ++ [EvTranslate src]) `prefix_of` (e :: tr)).
  { intros H. destruct (IH H) as (h & k & ->). exists (e :: h), k.
    reflexivity. }
  destruct e; simpl; try exact Hnext.
  intros [->|H]%elem_of_cons; [|exact (Hnext H)].
  exists [], tr. reflexivity.
Qed.

Section Calls.

Variable translate_batch : list event -> list pystr -> option (list pystr).
Variable translate : list event -> pystr -> option pystr.

(** One turn of the [except] branch. *)
Lemma translate_one_step (src : pystr) (s : state) :
  (r ← call_translate translate src;
   match r with
   | Some tgt => cache_set src (str_or tgt src)
   | None => print (MsgCouldNotTranslate src);; cache_set src src
   end) s
  = (Ok tt,
     {| _cache := <[src := match translate (trace s) src with
                           | Some a => str_or a src
                           | None => src
                           end]> (_cache s);
        trace := trace s ++ EvTranslate src
                 :: match translate (trace s) src with
                    | Some _ => []
                    | None => [EvPrint (MsgCouldNotTranslate src)]
                    end |}).
Proof.
  rewrite M_bind_eq. unfold call_translate.
  destruct (translate (trace s) src); [reflexivity|].
  cbv [mbind M_bind print emit cache_set]. cbn [trace _cache].
  rewrite <- app_assoc. reflexivity.
Qed.

(** The [except] branch: every label of the batch is called once, the
    call sees the trace up to there, and its outcome is what the cache
    holds for the label in the end. *)
Lemma translate_one_by_one_calls (chunk : list pystr) (s : state) :
  NoDup chunk ->
  (translate_one_by_one translate chunk s).1 = Ok tt /\
  exists tr,
    trace (translate_one_by_one translate chunk s).2 = trace s ++ tr /\
    Forall retry_event tr /\
    (forall k, k ∉ chunk ->
       _cache (translate_one_by_one translate chunk s).2 !! k
       = _cache s !! k) /\
    (forall k, k ∈ chunk ->
       exists h, trace s `prefix_of` h /\
                 (h ++ [EvTranslate k])
                   `prefix_of` trace (translate_one_by_one translate chunk s).2) /\
    (forall h src,
       trace s `prefix_of` h ->
       (h ++ [EvTranslate src])
         `prefix_of` trace (translate_one_by_one translate chunk s).2 ->
       src ∈ chunk /\
       _cache (translate_one_by_one translate chunk s).2 !! src
       = Some (match translate h src with
               | Some a => str_or a src
               | None => src
               end)).
Proof.
  revert s. induction chunk as [|src0 rest IH]; intros s Hnd.
  - split; [reflexivity|]. exists [].
    split; [symmetry; apply app_nil_r|]. split; [constructor|].
    split; [reflexivity|]. split; [intros k Hk; inversion Hk|].
    intros h src Hh Hp. exfalso. cbn in Hp.
    rewrite <- (app_nil_r (trace s)) in Hp.
    destruct (prefix_snoc_inv _ _ _ _ Hh Hp) as (h2 & _ & [k Hk]).
    destruct h2; discriminate Hk.
  - apply NoDup_cons in Hnd as [Hnotin Hnd].
    unfold translate_one_by_one. cbn [for_each]. rewrite M_bind_eq.
    rewrite translate_one_step.
    set (val := match translate (trace s) src0 with
                | Some a => str_or a src0
                | None => src0
                end).
    set (extra := match translate (trace s) src0 with
                  | Some _ => []
                  | None => [EvPrint (MsgCouldNotTranslate src0)]
                  end).
    set (s1 := {| _cache := <[src0 := val]> (_cache s);
                  trace := trace s ++ EvTranslate src0 :: extra |}).
    fold (translate_one_by_one translate rest).
    destruct (IH s1 Hnd) as (Hok & tr & Htr & Hq & Hfr & Hcalled & Hev).
    set (s' := (translate_one_by_one translate rest s1).2) in *.
    assert (Hextra : Forall retry_event extra /\
                     forall src, EvTranslate src ∉ extra).
    { unfold extra. destruct (translate (trace s) src0).
      - split; [constructor|]. intros src H. inversion H.
      - split; [repeat constructor|]. intros src H.
        apply list_elem_of_singleton in H. discriminate H. }
    destruct Hextra as [Hq0 Hno].
    split; [exact Hok|].
    exists ((EvTranslate src0 :: extra) ++ tr).
    split; [rewrite Htr; unfold s1; cbn [trace]; rewrite <- app_assoc;
            reflexivity|].
    split; [apply Forall_app; split; [constructor; [exact I|exact Hq0]|exact Hq]|].
    split; [|split].
    + intros k Hk. apply not_elem_of_cons in Hk as [Hne Hk].
      rewrite (Hfr k Hk). unfold s1. cbn [_cache].
      apply lookup_insert_ne. congruence.
    + intros k [->|Hk]%elem_of_cons.
      * exists (trace s). split; [reflexivity|].
        rewrite Htr. unfold s1. cbn [trace]. exists (extra ++ tr).
        rewrite <- !app_assoc. reflexivity.
      * destruct (Hcalled k Hk) as (h & Hh & Hp). exists h.
        split; [|exact Hp].
        etransitivity; [|exact Hh]. unfold s1. cbn [trace].
        apply prefix_app_r. reflexivity.
    + intros h src Hh Hp.
      assert (Hp' := Hp). rewrite Htr in Hp'. unfold s1 in Hp'.
      cbn [trace] in Hp'. rewrite <- app_assoc in Hp'.
      destruct (prefix_snoc_inv _ _ _ _ Hh Hp') as (h2 & -> & Hp2).
      destruct (prefix_snoc_app _ _ _ _ Hp2) as [Hin|(h3 & -> & Hp3)].
      * apply prefix_snoc_cons in Hin as [[-> [= ->]]|(h3 & -> & Hp3)].
        -- split; [left|]. rewrite app_nil_r.
           rewrite (Hfr src0 Hnotin). unfold s1. cbn [_cache].
           apply lookup_insert_eq.
        -- exfalso. apply (Hno src). exact (prefix_snoc_elem _ _ _ Hp3).
      * assert (Hh1 : trace s1 `prefix_of` trace s ++ (EvTranslate src0 :: extra) ++ h3).
        { unfold s1. cbn [trace]. rewrite app_assoc.
          apply prefix_app_r. reflexivity. }
        destruct (Hev _ src Hh1 Hp) as [Hin Hc].
        split; [right; exact Hin|exact Hc].
Qed.

(** The [zip] loop: the answers are stored position by position, and a
    label without answer keeps what the cache held. *)
Lemma zip_loop_values (chunk results : list pystr) (s : state) :
  NoDup chunk ->
  let r := for_each (zip chunk results)
             (fun '(src, tgt) => cache_set src (str_or tgt src)) s in
  r.1 = Ok tt /\ trace r.2 = trace s /\
  (forall k, k ∉ chunk -> _cache r.2 !! k = _cache s !! k) /\
  (forall p k, chunk !! p = Some k ->
     _cache r.2 !! k = match results !! p with
                       | Some a => Some (str_or a k)
                       | None => _cache s !! k
                       end).
Proof.
  revert results s. induction chunk as [|k0 chunk IH]; intros results s Hnd.
  - cbn. repeat split; auto. intros p k Hp. discriminate Hp.
  - apply NoDup_cons in Hnd as [Hnotin Hnd].
    destruct results as [|a results].
    + cbn. repeat split; auto.
    + cbn [zip zip_with for_each]. rewrite M_bind_eq. cbn [cache_set].
      set (s1 := {| _cache := <[k0 := str_or a k0]> (_cache s);
                    trace := trace s |}).
      destruct (IH results s1 Hnd) as (Hok & Htr & Hfr & Hval).
      cbv zeta. split; [exact Hok|]. split; [exact Htr|]. split.
      * intros k Hk. apply not_elem_of_cons in Hk as [Hne Hk].
        rewrite (Hfr k Hk). unfold s1. cbn [_cache].
        apply lookup_insert_ne. congruence.
      * intros [|p] k Hp; cbn in Hp.
        -- injection Hp as <-. rewrite (Hfr k0 Hnotin). unfold s1.
           cbn [_cache]. apply lookup_insert_eq.
        -- rewrite (Hval p k Hp). cbn [lookup list_lookup].
           destruct (results !! p); [reflexivity|].
           unfold s1. cbn [_cache]. apply lookup_insert_ne.
           intros ->. apply Hnotin. apply list_elem_of_lookup. eauto.
Qed.

(** One batch: the batched call, then the answers stored or the
    batch retried label by label. *)
Lemma translate_chunk_calls (chunk : list pystr) (s : state) :
  NoDup chunk ->
  (translate_chunk translate_batch translate chunk s).1 = Ok tt /\
  exists tr,
    trace (translate_chunk translate_batch translate chunk s).2
    = trace s ++ EvTranslateBatch chunk :: tr /\
    Forall retry_event tr /\
    (forall k, k ∉ chunk ->
       _cache (translate_chunk translate_batch translate chunk s).2 !! k
       = _cache s !! k) /\
    match translate_batch (trace s) chunk with
    | Some results =>
        tr = [] /\
        forall p k, chunk !! p = Some k ->
          _cache (translate_chunk translate_batch translate chunk s).2 !! k
          = match results !! p with
            | Some a => Some (str_or a k)
            | None => _cache s !! k
            end
    | None =>
        (forall k, k ∈ chunk ->
           exists h,
             (trace s ++ [EvTranslateBatch chunk]) `prefix_of` h /\
             (h ++ [EvTranslate k])
               `prefix_of`
               trace (translate_chunk translate_batch translate chunk s).2) /\
        (forall h src,
           trace s `prefix_of` h ->
           (h ++ [EvTranslate src])
             `prefix_of`
             trace (translate_chunk translate_batch translate chunk s).2 ->
           (trace s ++ [EvTranslateBatch chunk]) `prefix_of` h /\
           src ∈ chunk /\
           _cache (translate_chunk translate_batch translate chunk s).2 !! src
           = Some (match translate h src with
                   | Some a => str_or a src
                   | None => src
                   end))
    end.
Proof.
  intros Hnd. unfold translate_chunk. rewrite M_bind_eq.
  unfold call_translate_batch.
  set (s1 := {| _cache := _cache s;
                trace := trace s ++ [EvTranslateBatch chunk] |}).
  destruct (translate_batch (trace s) chunk) as [results|].
  - destruct (zip_loop_values chunk results s1 Hnd)
      as (Hok & Htr & Hfr & Hval).
    cbv zeta in *. split; [exact Hok|]. exists [].
    split; [rewrite Htr; reflexivity|]. split; [constructor|].
    split; [exact Hfr|]. split; [reflexivity|exact Hval].
  - rewrite M_bind_eq. cbn [print emit].
    set (s2 := {| _cache := _cache s1;
                  trace := trace s1 ++ [EvPrint MsgBatchFailed] |}).
    destruct (translate_one_by_one_calls chunk s2 Hnd)
      as (Hok & tr & Htr & Hq & Hfr & Hcalled & Hev).
    split; [exact Hok|]. exists (EvPrint MsgBatchFailed :: tr).
    split; [rewrite Htr; unfold s2, s1; cbn [trace]; rewrite <- !app_assoc;
            reflexivity|].
    split; [constructor; [exact I|exact Hq]|].
    split; [exact Hfr|]. split.
    + intros k Hk. destruct (Hcalled k Hk) as (h & Hh & Hp). exists h.
      split; [|exact Hp].
      etransitivity; [|exact Hh]. unfold s2. cbn [trace].
      apply prefix_app_r. reflexivity.
    + intros h src Hh Hp.
      assert (Hp' := Hp). rewrite Htr in Hp'. unfold s2, s1 in Hp'.
      cbn [trace] in Hp'. rewrite <- !app_assoc in Hp'.
      destruct (prefix_snoc_inv _ _ _ _ Hh Hp') as (h2 & -> & Hp2).
      cbn [app] in Hp2.
      apply prefix_snoc_cons in Hp2 as [[_ [=]]|(h3 & -> & Hp3)].
      apply prefix_snoc_cons in Hp3 as [[_ [=]]|(h4 & -> & Hp4)].
      assert (Hh2 : trace s2 `prefix_of`
                    trace s ++ EvTranslateBatch chunk
                    :: EvPrint MsgBatchFailed :: h4).
      { unfold s2, s1. cbn [trace]. exists h4.
        rewrite <- !app_assoc. reflexivity. }
      destruct (Hev _ src Hh2 Hp) as [Hin Hc].
      split; [|split; [exact Hin|exact Hc]].
      exists (EvPrint MsgBatchFailed :: h4). rewrite <- app_assoc.
      reflexivity.
Qed.

(** The loop over the batches. *)
Lemma translate_chunks_calls (cs : list (list pystr)) (s : state) :
  NoDup (concat cs) ->
  let r := for_each cs (translate_chunk translate_batch translate) s in
  r.1 = Ok tt /\
  (exists tr, trace r.2 = trace s ++ tr /\ Forall priming_event tr) /\
  (forall k, k ∉ concat cs -> _cache r.2 !! k = _cache s !! k) /\
  calls translate_batch translate (trace s) (_cache s) (_cache r.2)
        (trace r.2) cs.
Proof.
  revert s. induction cs as [|chunk cs IH]; intros s Hnd.
  - cbn. split; [reflexivity|].
    split; [exists []; split; [symmetry; apply app_nil_r|constructor]|].
    split; [reflexivity|]. split.
    + intros chunk H. inversion H.
    + intros h chunk Hh Hp. exfalso.
      rewrite <- (app_nil_r (trace s)) in Hp.
      destruct (prefix_snoc_inv _ _ _ _ Hh Hp) as (h2 & _ & [k Hk]).
      destruct h2; discriminate Hk.
    + intros h src Hh Hp. exfalso.
      rewrite <- (app_nil_r (trace s)) in Hp.
      destruct (prefix_snoc_inv _ _ _ _ Hh Hp) as (h2 & _ & [k Hk]).
      destruct h2; discriminate Hk.
  - cbn [concat] in Hnd. apply NoDup_app in Hnd as (Hnd1 & Hdisj & Hnd2).
    cbn [for_each]. rewrite M_bind_eq.
    destruct (translate_chunk_calls chunk s Hnd1)
      as (Hok1 & tr1 & Htr1 & Hq1 & Hfr1 & Hcase).
    destruct (translate_chunk translate_batch translate chunk s)
      as [[[]|e] s1]; [|discriminate Hok1].
    cbn [fst snd] in *.
    destruct (IH s1 Hnd2) as (Hok & (tr2 & Htr2 & Hq2) & Hfr2 & Hcalls).
    cbv zeta in *.
    set (s' := (for_each cs (translate_chunk translate_batch translate) s1).2)
      in *.
    destruct Hcalls as [Hall Hbatch Hsingle].
    assert (Hs1 : trace s `prefix_of` trace s1).
    { rewrite Htr1. apply prefix_app_r. reflexivity. }
    assert (Hext : forall l, l `prefix_of` trace s1 -> l `prefix_of` trace s').
    { intros l Hl. rewrite Htr2. apply prefix_app_r. exact Hl. }
    assert (Hkeep : forall k, k ∈ chunk -> _cache s' !! k = _cache s1 !! k).
    { intros k Hk. apply Hfr2. intros Hk2. exact (Hdisj k Hk Hk2). }
    assert (Hnob : forall h c', (h ++ [EvTranslateBatch c']) `prefix_of` tr1
                                -> False).
    { intros h c' Hp. apply prefix_snoc_elem in Hp.
      rewrite Forall_forall in Hq1. exact (Hq1 _ Hp). }
    split; [exact Hok|].
    split.
    { exists (EvTranslateBatch chunk :: tr1 ++ tr2).
      split; [rewrite Htr2, Htr1, <- app_assoc; reflexivity|].
      constructor; [exact I|]. apply Forall_app. split; [|exact Hq2].
      eapply Forall_impl; [exact Hq1|]. intros [[]| | | | |]; simpl; tauto. }
    split.
    { intros k Hk. cbn [concat] in Hk. apply not_elem_of_app in Hk as [Hk1 Hk2].
      rewrite (Hfr2 k Hk2). apply Hfr1, Hk1. }
    split.
    + intros c' [->|Hc']%elem_of_cons.
      * exists (trace s). split; [reflexivity|]. apply Hext.
        rewrite Htr1. exists tr1. rewrite <- app_assoc. reflexivity.
      * destruct (Hall c' Hc') as (h & Hh & Hp). exists h.
        split; [etransitivity; [exact Hs1|exact Hh]|exact Hp].
    + intros h c' Hh Hp.
      assert (Hp' := Hp). rewrite Htr2, Htr1, <- app_assoc in Hp'.
      destruct (prefix_snoc_inv _ _ _ _ Hh Hp') as (h2 & -> & Hp2).
      destruct (prefix_snoc_app (EvTranslateBatch chunk :: tr1) tr2 h2 _ Hp2)
        as [Hin|(h3 & -> & Hp3)].
      * apply prefix_snoc_cons in Hin as [[-> [= ->]]|(h3 & -> & Hp3)];
          [|destruct (Hnob _ _ Hp3)].
        rewrite app_nil_r. split; [left|].
        destruct (translate_batch (trace s) chunk) as [results|].
        -- destruct Hcase as [_ Hval]. intros p k Hk.
           rewrite (Hkeep k) by (apply list_elem_of_lookup; eauto).
           apply Hval, Hk.
        -- destruct Hcase as [Hcalled _]. intros k Hk.
           destruct (Hcalled k Hk) as (h & Hh1 & Hp1). exists h.
           split; [exact Hh1|apply Hext, Hp1].
      * assert (Hh1 : trace s1 `prefix_of`
                      trace s ++ (EvTranslateBatch chunk :: tr1) ++ h3).
        { rewrite Htr1, app_assoc. apply prefix_app_r. reflexivity. }
        destruct (Hbatch _ c' Hh1 Hp) as [Hc' Hm].
        split; [right; exact Hc'|].
        destruct (translate_batch _ c') as [results|]; [|exact Hm].
        intros p k Hk. rewrite (Hm p k Hk).
        destruct (results !! p); [reflexivity|].
        apply Hfr1. intros Hk1.
        apply (Hdisj k Hk1). apply (elem_of_concat_3 k c' cs Hc').
        apply list_elem_of_lookup. eauto.
    + intros h src Hh Hp.
      assert (Hp' := Hp). rewrite Htr2, Htr1, <- app_assoc in Hp'.
      destruct (prefix_snoc_inv _ _ _ _ Hh Hp') as (h2 & -> & Hp2).
      destruct (prefix_snoc_app (EvTranslateBatch chunk :: tr1) tr2 h2 _ Hp2)
        as [Hin|(h3 & -> & Hp3)].
      * assert (Hp1 : (trace s ++ h2) ++ [EvTranslate src]
                        `prefix_of` trace s1).
        { rewrite Htr1. destruct Hin as [k ->]. exists k.
          rewrite <- !app_assoc. reflexivity. }
        destruct (translate_batch (trace s) chunk) as [results|] eqn:Hb.
        -- exfalso. destruct Hcase as [-> _].
           apply prefix_snoc_cons in Hin as [[_ [=]]|(h3 & _ & [k Hk])].
           destruct h3; discriminate Hk.
        -- destruct Hcase as [_ Hev].
           destruct (Hev _ src Hh Hp1) as (Hafter & Hsrc & Hc).
           split.
           ++ exists (trace s), chunk. split; [reflexivity|].
              split; [exact Hafter|]. split; [exact Hb|exact Hsrc].
           ++ rewrite (Hkeep src Hsrc). exact Hc.
      * assert (Hh1 : trace s1 `prefix_of`
                      trace s ++ (EvTranslateBatch chunk :: tr1) ++ h3).
        { rewrite Htr1, app_assoc. apply prefix_app_r. reflexivity. }
        destruct (Hsingle _ src Hh1 Hp) as [(hb & c' & Hhb & Hpb & Hnone & Hin) Hc].
        split; [|exact Hc].
        exists hb, c'. split; [etransitivity; [exact Hs1|exact Hhb]|].
        split; [exact Hpb|]. split; [exact Hnone|exact Hin].
Qed.

(** [prime_translation_cache], call by call. *)
Lemma prime_calls (names : list pystr) (s : state) :
  let r := prime_translation_cache translate_batch translate names s in
  r.1 = Ok tt /\
  (exists tr, trace r.2 = trace s ++ tr /\ Forall priming_event tr) /\
  (forall k, k ∉ unique_names (_cache s) names ->
             _cache r.2 !! k = _cache s !! k) /\
  calls translate_batch translate (trace s) (_cache s) (_cache r.2)
        (trace r.2) (chunks (unique_names (_cache s) names)).
Proof.
  set (unique := unique_names (_cache s) names).
  change (prime_translation_cache translate_batch translate names s)
    with (match unique with
          | [] => print MsgNoTranslationNeeded
          | _ =>
              print (MsgTranslating (length unique));;
              for_each (py_range_step (length unique) BATCH)
                (fun i => translate_chunk translate_batch translate
                            (slice unique i (i + BATCH)));;
              print MsgTranslationComplete
          end s).
  pose proof (for_each_map (fun i => slice unique i (i + BATCH))
                (translate_chunk translate_batch translate)
                (py_range_step (length unique) BATCH)) as Hmap.
  fold (chunks unique) in Hmap. cbv beta in Hmap.
  assert (Hnoev : forall (m : message) h (e : event),
            trace s `prefix_of` h ->
            (h ++ [e]) `prefix_of` (trace s ++ [EvPrint m]) ->
            e = EvPrint m).
  { intros m h e Hh Hp.
    destruct (prefix_snoc_inv _ _ _ _ Hh Hp) as (h2 & _ & Hp2).
    apply prefix_snoc_cons in Hp2 as [[_ ->]|(h3 & _ & [k Hk])];
      [reflexivity|].
    destruct h3; discriminate Hk. }
  destruct (decide (unique = [])) as [Hnil|Hne].
  - rewrite Hnil. cbv zeta. cbn [print emit fst snd trace _cache].
    split; [reflexivity|].
    split; [exists [EvPrint MsgNoTranslationNeeded];
            split; [reflexivity|repeat constructor]|].
    split; [reflexivity|]. split.
    + intros chunk H. inversion H.
    + intros h chunk Hh Hp. discriminate (Hnoev _ _ _ Hh Hp).
    + intros h src Hh Hp. discriminate (Hnoev _ _ _ Hh Hp).
  - destruct unique as [|n0 unique'] eqn:Hu; [congruence|].
    rewrite <- Hu in *. clear Hne.
    rewrite M_bind_eq. cbn [print emit]. rewrite M_bind_eq, <- Hmap.
    set (s1 := {| _cache := _cache s;
                  trace := trace s ++ [EvPrint (MsgTranslating (length unique))] |}).
    destruct (translate_chunks_calls (chunks unique) s1)
      as (Hok & (tr & Htr & Hq) & Hfr & [Hall Hbatch Hsingle]).
    { rewrite concat_chunks. apply fromkeys_NoDup. }
    cbv zeta in *.
    destruct (for_each (chunks unique)
                (translate_chunk translate_batch translate) s1)
      as [[[]|e] s2]; [|discriminate Hok].
    cbn [fst snd trace _cache] in *.
    assert (Hin1 : forall h (e : event),
              trace s `prefix_of` h ->
              (h ++ [e]) `prefix_of` (trace s2 ++ [EvPrint MsgTranslationComplete]) ->
              provider_event e ->
              trace s1 `prefix_of` h /\ (h ++ [e]) `prefix_of` trace s2).
    { intros h e Hh Hp He.
      destruct (prefix_snoc_app _ _ _ _ Hp) as [Hp2|(h3 & -> & Hp3)].
      - split; [|exact Hp2].
        assert (Hp2' := Hp2). rewrite Htr in Hp2'. unfold s1 in Hp2'.
        cbn [trace] in Hp2'. rewrite <- app_assoc in Hp2'.
        destruct (prefix_snoc_inv _ _ _ _ Hh Hp2') as (h2 & -> & Hp4).
        cbn [app] in Hp4.
        apply prefix_snoc_cons in Hp4 as [[_ ->]|(h4 & -> & _)];
          [destruct He|].
        unfold s1. cbn [trace]. exists h4. rewrite <- app_assoc. reflexivity.
      - apply prefix_snoc_cons in Hp3 as [[_ ->]|(h4 & _ & [k Hk])];
          [destruct He|]. destruct h4; discriminate Hk. }
    assert (Hext : forall l, l `prefix_of` trace s2 ->
                             l `prefix_of` trace s2 ++ [EvPrint MsgTranslationComplete]).
    { intros l Hl. apply prefix_app_r, Hl. }
    assert (Hs1 : trace s `prefix_of` trace s1).
    { unfold s1. cbn [trace]. apply prefix_app_r. reflexivity. }
    cbn [print emit fst snd trace _cache].
    split; [reflexivity|].
    split.
    { exists ([EvPrint (MsgTranslating (length unique))] ++ tr
              ++ [EvPrint MsgTranslationComplete]).
      split; [rewrite Htr; unfold s1; cbn [trace]; rewrite <- !app_assoc;
              reflexivity|].
      apply Forall_app. split; [repeat constructor|].
      apply Forall_app. split; [exact Hq|repeat constructor]. }
    split.
    { intros k Hk. apply Hfr. rewrite concat_chunks. exact Hk. }
    split.
    + intros chunk Hc. destruct (Hall chunk Hc) as (h & Hh & Hp).
      exists h. split; [etransitivity; [exact Hs1|exact Hh]|apply Hext, Hp].
    + intros h chunk Hh Hp.
      destruct (Hin1 h _ Hh Hp I) as [Hh1 Hp1].
      destruct (Hbatch h chunk Hh1 Hp1) as [Hc Hm]. split; [exact Hc|].
      destruct (translate_batch h chunk) as [results|]; [exact Hm|].
      intros k Hk. destruct (Hm k Hk) as (h' & Hh' & Hp').
      exists h'. split; [exact Hh'|apply Hext, Hp'].
    + intros h src Hh Hp.
      destruct (Hin1 h _ Hh Hp I) as [Hh1 Hp1].
      destruct (Hsingle h src Hh1 Hp1)
        as [(hb & c' & Hhb & Hpb & Hnone & Hin) Hc].
      split; [|exact Hc].
      exists hb, c'. split; [etransitivity; [exact Hs1|exact Hhb]|auto].
Qed.

(** Every entry of the cache after the calls was there before or is
    what the calls stored. *)
Lemma calls_resolved (h0 tr : list event) (c0 c : gmap pystr pystr)
    (cs : list (list pystr)) :
  calls translate_batch translate h0 c0 c tr cs ->
  (forall k, k ∉ concat cs -> c !! k = c0 !! k) ->
  forall k v, c !! k = Some v ->
    c0 !! k = Some v \/
    (k ∈ concat cs /\ resolved translate_batch translate h0 tr k v).
Proof.
  intros [Hall Hbatch Hsingle] Hfr k v Hv.
  destruct (decide (k ∈ concat cs)) as [Hk|Hk];
    [|left; rewrite <- (Hfr k Hk); exact Hv].
  destruct (elem_of_concat_1 k cs Hk) as (chunk & Hc & Hkc).
  destruct (Hall chunk Hc) as (h & Hh & Hp).
  destruct (Hbatch h chunk Hh Hp) as [_ Hm].
  destruct (translate_batch h chunk) as [results|] eqn:Hb.
  - apply list_elem_of_lookup in Hkc as [p Hkp].
    pose proof (Hm p k Hkp) as Hval.
    destruct (results !! p) as [a|] eqn:Ha.
    + right. split; [exact Hk|]. left. exists h, chunk, results, p, a.
      split; [exact Hh|]. split; [split; [exact Hp|exact Hb]|].
      split; [exact Hkp|]. split; [exact Ha|]. congruence.
    + left. rewrite <- Hval. exact Hv.
  - destruct (Hm k Hkc) as (h' & Hh' & Hp').
    assert (Hh0 : h0 `prefix_of` h').
    { etransitivity; [exact Hh|]. etransitivity; [|exact Hh'].
      apply prefix_app_r. reflexivity. }
    destruct (Hsingle h' k Hh0 Hp') as [_ Hval].
    right. split; [exact Hk|]. right.
    exists h, chunk, h', (translate h' k).
    split; [exact Hh|]. split; [split; [exact Hp|exact Hb]|].
    split; [exact Hkc|]. split; [exact Hh'|].
    split; [split; [exact Hp'|reflexivity]|]. congruence.
Qed.

(** Every label of the batches has a value afterwards, unless a batched
    call that succeeded gave no answer at its position. *)
Lemma calls_filled (h0 tr : list event) (c0 c : gmap pystr pystr)
    (cs : list (list pystr)) (k : pystr) :
  calls translate_batch translate h0 c0 c tr cs ->
  k ∈ concat cs ->
  is_Some (c !! k) \/
  exists h chunk results p,
    h0 `prefix_of` h /\ batch_call translate_batch tr h chunk (Some results) /\
    chunk !! p = Some k /\ length results <= p.
Proof.
  intros [Hall Hbatch Hsingle] Hk.
  destruct (elem_of_concat_1 k cs Hk) as (chunk & Hc & Hkc).
  destruct (Hall chunk Hc) as (h & Hh & Hp).
  destruct (Hbatch h chunk Hh Hp) as [_ Hm].
  destruct (translate_batch h chunk) as [results|] eqn:Hb.
  - apply list_elem_of_lookup in Hkc as [p Hkp].
    pose proof (Hm p k Hkp) as Hval.
    destruct (results !! p) as [a|] eqn:Ha.
    + left. rewrite Hval. eauto.
    + right. exists h, chunk, results, p.
      split; [exact Hh|]. split; [split; [exact Hp|exact Hb]|].
      split; [exact Hkp|]. apply lookup_ge_None, Ha.
  - destruct (Hm k Hkc) as (h' & Hh' & Hp').
    assert (Hh0 : h0 `prefix_of` h').
    { etransitivity; [exact Hh|]. etransitivity; [|exact Hh'].
      apply prefix_app_r. reflexivity. }
    destruct (Hsingle h' k Hh0 Hp') as [_ Hval].
    left. rewrite Hval. eauto.
Qed.

Lemma resolved_nonempty (h0 tr : list event) (k v : pystr) :
  k <> [] -> resolved translate_batch translate h0 tr k v -> v <> [].
Proof.
  intros Hne [(h & chunk & results & p & a & _ & _ & _ & _ & ->)
             |(hb & chunk & h & r & _ & _ & _ & _ & _ & ->)].
  - unfold str_or. destruct (nonempty a) eqn:Ha;
      [apply nonempty_true, Ha|exact Hne].
  - destruct r as [a|]; [|exact Hne].
    unfold str_or. destruct (nonempty a) eqn:Ha;
      [apply nonempty_true, Ha|exact Hne].
Qed.

(** The cache after [prime_translation_cache], entry by entry. *)
Lemma prime_provenance (names : list pystr) (s : state) :
  (prime_translation_cache translate_batch translate names s).1 = Ok tt /\
  forall k v,
    _cache (prime_translation_cache translate_batch translate names s).2 !! k
    = Some v ->
    _cache s !! k = Some v \/
    (k ∈ unique_names (_cache s) names /\
     resolved translate_batch translate (trace s)
       (trace (prime_translation_cache translate_batch translate names s).2)
       k v).
Proof.
  destruct (prime_calls names s) as (Hok & _ & Hfr & Hcalls).
  cbv zeta in *. split; [exact Hok|]. intros k v Hv.
  destruct (calls_resolved _ _ _ _ _ Hcalls) with (k := k) (v := v)
    as [Hold|[Hin Hres]]; auto.
  - intros k' Hk'. apply Hfr. rewrite concat_chunks in Hk'. exact Hk'.
  - right. rewrite concat_chunks in Hin. auto.
Qed.

Lemma prefix_of_snoc {A} (l h : list A) (e : A) :
  l `prefix_of` (h ++ [e]) -> l `prefix_of` h \/ l = h ++ [e].
Proof.
  intros [k Hk]. destruct k as [|x k _] using rev_ind.
  - right. rewrite app_nil_r in Hk. auto.
  - left. rewrite app_assoc in Hk. apply app_inj_tail in Hk as [-> _].
    exists k. reflexivity.
Qed.

(** A trace without provider call holds no call. *)
Lemma calls_none (h0 tr : list event) (c : gmap pystr pystr) :
  Forall (fun e => ~ provider_event e) tr ->
  calls translate_batch translate h0 c c tr [].
Proof.
  intros Hq. rewrite Forall_forall in Hq. split.
  - intros chunk H. inversion H.
  - intros h chunk _ Hp. destruct (Hq _ (prefix_snoc_elem _ _ _ Hp) I).
  - intros h src _ Hp. destruct (Hq _ (prefix_snoc_elem _ _ _ Hp) I).
Qed.

(** The calls made after [h0] are all the calls of the trace when
    neither [h0] nor what follows holds a provider call. *)
Lemma calls_extend (h0 tr rest : list event) (c0 c : gmap pystr pystr)
    (cs : list (list pystr)) :
  calls translate_batch translate h0 c0 c tr cs ->
  h0 `prefix_of` tr ->
  Forall (fun e => ~ provider_event e) h0 ->
  Forall (fun e => ~ provider_event e) rest ->
  calls translate_batch translate [] c0 c (tr ++ rest) cs.
Proof.
  intros [Hall Hbatch Hsingle] Hh0 Hq0 Hq.
  rewrite Forall_forall in Hq0, Hq.
  assert (Hin : forall h (e : event),
            (h ++ [e]) `prefix_of` (tr ++ rest) -> provider_event e ->
            h0 `prefix_of` h /\ (h ++ [e]) `prefix_of` tr).
  { intros h e Hp He.
    destruct (prefix_snoc_app _ _ _ _ Hp) as [Hp1|(h2 & _ & Hp2)];
      [|destruct (Hq _ (prefix_snoc_elem _ _ _ Hp2) He)].
    split; [|exact Hp1].
    destruct (prefix_weak_total _ _ _ Hh0 Hp1) as [H|H].
    - apply prefix_of_snoc in H as [H| ->]; [exact H|].
      destruct (Hq0 e); [|exact He].
      apply elem_of_app. right. left.
    - destruct (Hq0 e); [|exact He]. exact (prefix_snoc_elem _ _ _ H). }
  split.
  - intros chunk Hc. destruct (Hall chunk Hc) as (h & _ & Hp).
    exists h. split; [apply prefix_nil|apply prefix_app_r, Hp].
  - intros h chunk _ Hp. destruct (Hin h _ Hp I) as [Hh Hp1].
    destruct (Hbatch h chunk Hh Hp1) as [Hc Hm]. split; [exact Hc|].
    destruct (translate_batch h chunk); [exact Hm|].
    intros k Hk. destruct (Hm k Hk) as (h' & Hh' & Hp').
    exists h'. split; [exact Hh'|apply prefix_app_r, Hp'].
  - intros h src _ Hp. destruct (Hin h _ Hp I) as [Hh Hp1].
    destruct (Hsingle h src Hh Hp1)
      as [(hb & chunk & _ & Hpb & Hnone & Hsrc) Hc].
    split; [|exact Hc]. exists hb, chunk.
    split; [apply prefix_nil|auto].
Qed.

End Calls.

(** C4, amended: [prime_translation_cache] returns without raising.
    Every non-empty label of its argument is then a key of the cache,
    unless a batched call that succeeded gave no answer at the label's
    position; so every such label is a key when every batched call of
    the run that succeeds answers every label of its batch (the
    provider interface).  When a batched call of the run fails, each
    label of that batch is passed to the individual call afterwards;
    an individual call is only ever made for a label of a batch whose
    batched call failed before; and after an individual call the cache
    holds, for its label, the answer (the label when the answer is
    empty), or the label itself when the call failed. *)
Theorem prime_translation_cache_fills
    (translate_batch : list event -> list pystr -> option (list pystr))
    (translate : list event -> pystr -> option pystr)
    (names : list pystr) (s : state) :
  let r := prime_translation_cache translate_batch translate names s in
  r.1 = Ok tt /\
  (forall n, n ∈ names -> n <> [] ->
     is_Some (_cache r.2 !! n) \/
     exists h chunk results p,
       trace s `prefix_of` h /\
       batch_call translate_batch (trace r.2) h chunk (Some results) /\
       chunk !! p = Some n /\ length results <= p) /\
  ((forall h chunk results,
      trace s `prefix_of` h ->
      batch_call translate_batch (trace r.2) h chunk (Some results) ->
      length chunk <= length results) ->
   forall n, n ∈ names -> n <> [] -> is_Some (_cache r.2 !! n)) /\
  (forall hb chunk,
     trace s `prefix_of` hb ->
     batch_call translate_batch (trace r.2) hb chunk None ->
     forall src, src ∈ chunk ->
       exists h, (hb ++ [EvTranslateBatch chunk]) `prefix_of` h /\
                 (h ++ [EvTranslate src]) `prefix_of` trace r.2) /\
  (forall h src,
     trace s `prefix_of` h ->
     (h ++ [EvTranslate src]) `prefix_of` trace r.2 ->
     (exists hb chunk,
        trace s `prefix_of` hb /\
        (hb ++ [EvTranslateBatch chunk]) `prefix_of` h /\
        translate_batch hb chunk = None /\ src ∈ chunk) /\
     _cache r.2 !! src = Some (match translate h src with
                               | Some a => str_or a src
                               | None => src
                               end)).
Proof.
  destruct (prime_calls translate_batch translate names s)
    as (Hok & _ & Hfr & Hcalls).
  cbv zeta in *.
  assert (Hkeys : forall n, n ∈ names -> n <> [] ->
            is_Some (_cache (prime_translation_cache translate_batch
                               translate names s).2 !! n) \/
            exists h chunk results p,
              trace s `prefix_of` h /\
              batch_call translate_batch
                (trace (prime_translation_cache translate_batch translate
                          names s).2) h chunk (Some results) /\
              chunk !! p = Some n /\ length results <= p).
  { intros n Hn Hne. destruct (_cache s !! n) as [v|] eqn:Hv.
    - left. rewrite Hfr, Hv; [eauto|].
      intros Hu. apply unique_names_elem_of in Hu as (_ & _ & Hnone).
      congruence.
    - apply (calls_filled _ _ _ _ _ _ _ n Hcalls).
      rewrite concat_chunks. apply unique_names_elem_of. auto. }
  split; [exact Hok|]. split; [exact Hkeys|]. split; [|split].
  - intros Hcontract n Hn Hne.
    destruct (Hkeys n Hn Hne) as [H|(h & chunk & results & p & Hh & Hb & Hp & Hlen)];
      [exact H|].
    pose proof (Hcontract h chunk results Hh Hb) as Hc.
    apply lookup_lt_Some in Hp. lia.
  - intros hb chunk Hh [Hp Hnone] src Hsrc.
    destruct Hcalls as [_ Hbatch _].
    destruct (Hbatch hb chunk Hh Hp) as [_ Hm]. rewrite Hnone in Hm.
    exact (Hm src Hsrc).
  - intros h src Hh Hp. destruct Hcalls as [_ _ Hsingle].
    exact (Hsingle h src Hh Hp).
Qed.

(** ** Exceptions of the pure parts *)

Lemma no_exit_bind {A B} (m : exc A) (f : A -> exc B) :
  no_exit m -> (forall a, no_exit (f a)) -> no_exit (m ≫= f).
Proof. destruct m as [a|e]; simpl; auto. Qed.

Lemma no_exit_py_get (v : pyval) (key : pystr) : no_exit (py_get v key).
Proof. destruct v; exact I. Qed.

Lemma no_exit_py_strip (v : pyval) : no_exit (py_strip v).
Proof. destruct v; exact I. Qed.

Lemma no_exit_get_title_en (tags : pyval) (name : pystr) :
  no_exit (get_title_en tags name).
Proof.
  apply no_exit_bind; [apply no_exit_py_get|].
  intros v. apply no_exit_py_strip.
Qed.

Lemma no_exit_get_title_zh_loop (tags : pyval) (keys : list pystr) :
  no_exit (get_title_zh_loop tags keys).
Proof.
  induction keys as [|key keys IH]; [exact I|].
  cbn [get_title_zh_loop].
  apply no_exit_bind; [apply no_exit_py_get|]. intros v.
  apply no_exit_bind; [apply no_exit_py_strip|]. intros val.
  destruct (nonempty val); [exact I|exact IH].
Qed.

Lemma no_exit_get_title_zh (tags : pyval) (name : pystr) :
  no_exit (get_title_zh tags name).
Proof.
  apply no_exit_bind; [apply no_exit_get_title_zh_loop|].
  intros [val|]; [exact I|]. destruct (has_chinese _); exact I.
Qed.

Lemma no_exit_exc_map {A B} (f : A -> exc B) (l : list A) :
  (forall x, no_exit (f x)) -> no_exit (exc_map f l).
Proof.
  intros Hf. induction l as [|x l IH]; [exact I|].
  cbn [exc_map]. apply no_exit_bind; [apply Hf|]. intros y.
  apply no_exit_bind; [exact IH|]. intros ys. exact I.
Qed.

Lemma exc_map_Ok {A B} (f : A -> exc B) (l : list A) (ys : list B) :
  exc_map f l = Ok ys -> Forall2 (fun x y => f x = Ok y) l ys.
Proof.
  revert ys. induction l as [|x l IH]; intros ys; cbn [exc_map].
  - intros [= <-]. constructor.
  - destruct (f x) as [y|e] eqn:Hx; [|discriminate]. simpl.
    destruct (exc_map f l) as [ys'|e]; [|discriminate]. simpl.
    intros [= <-]. constructor; [exact Hx|]. apply IH. reflexivity.
Qed.

Lemma exc_map_total {A B} (f : A -> exc B) (l : list A) :
  Forall (fun x => exists y, f x = Ok y) l -> exists ys, exc_map f l = Ok ys.
Proof.
  induction 1 as [|x l [y Hy] _ [ys Hys]]; cbn [exc_map].
  - exists []. reflexivity.
  - exists (y :: ys). rewrite Hy. simpl. rewrite Hys. reflexivity.
Qed.

(** ** One year's frame *)

Lemma set_column_rows_lookup (col : pystr) (values : list pyval)
    (gdf : GeoDataFrame) (i : nat) (row : gmap pystr pyval) (v : pyval) :
  rows gdf !! i = Some row -> values !! i = Some v ->
  rows (set_column col values gdf) !! i = Some (<[col := v]> row).
Proof.
  intros Hr Hv. unfold set_column. cbn [rows].
  rewrite lookup_zip_with, Hr, Hv. reflexivity.
Qed.

Lemma set_column_rows_length (col : pystr) (values : list pyval)
    (gdf : GeoDataFrame) :
  length values = length (rows gdf) ->
  length (rows (set_column col values gdf)) = length (rows gdf).
Proof.
  intros H. unfold set_column. cbn [rows].
  rewrite length_zip_with. lia.
Qed.

Lemma set_column_columns_new (col : pystr) (values : list pyval)
    (gdf : GeoDataFrame) :
  col ∈ columns (set_column col values gdf).
Proof.
  unfold set_column. cbn [columns]. case_bool_decide as H; [exact H|].
  apply elem_of_app. right. apply list_elem_of_singleton. reflexivity.
Qed.

Lemma set_column_columns_old (col c : pystr) (values : list pyval)
    (gdf : GeoDataFrame) :
  c ∈ columns gdf -> c ∈ columns (set_column col values gdf).
Proof.
  intros Hc. unfold set_column. cbn [columns]. case_bool_decide; [exact Hc|].
  apply elem_of_app. left. exact Hc.
Qed.

Lemma out_row_oid i row en title :
  out_row i row en title !! u "oid" = Some (PyInt (Z.of_nat i + 1)).
Proof.
  unfold out_row. apply map_lookup_filter_Some. split.
  - apply lookup_insert_eq.
  - vm_compute. repeat constructor.
Qed.

Lemma out_row_title i row en title :
  out_row i row en title !! u "title" = Some title.
Proof.
  unfold out_row. apply map_lookup_filter_Some. split.
  - rewrite lookup_insert_ne by (vm_compute; congruence).
    apply lookup_insert_eq.
  - vm_compute. repeat constructor.
Qed.

Lemma out_row_title_en i row en title :
  out_row i row en title !! u "title_en" = Some (PyStr en).
Proof.
  unfold out_row. apply map_lookup_filter_Some. split.
  - rewrite !lookup_insert_ne by (vm_compute; congruence).
    apply lookup_insert_eq.
  - vm_compute. repeat constructor.
Qed.

Lemma out_row_geometry i row en title :
  out_row i row en title !! u "geometry" = row !! u "geometry".
Proof.
  unfold out_row. destruct (row !! u "geometry") as [g|] eqn:Hg.
  - apply map_lookup_filter_Some. split.
    + rewrite !lookup_insert_ne by (vm_compute; congruence). exact Hg.
    + vm_compute. repeat constructor.
  - destruct (filter _ _ !! u "geometry") as [v|] eqn:Hv; [|reflexivity].
    apply map_lookup_filter_Some in Hv as [Hv _].
    rewrite !lookup_insert_ne in Hv by (vm_compute; congruence). congruence.
Qed.

Lemma out_row_dropped i row en title (k : pystr) :
  k ∉ OUT_COLUMNS -> out_row i row en title !! k = None.
Proof.
  intros Hk. unfold out_row.
  destruct (filter _ _ !! k) as [v|] eqn:Hv; [|reflexivity].
  apply map_lookup_filter_Some in Hv as [_ Hin]. contradiction.
Qed.

Section Frame.

Variable json_loads : pystr -> option pyval.
Variable py_str : pyval -> pystr.

Lemma tags_series_length (gdf : GeoDataFrame) :
  length (tags_series json_loads gdf) = length (rows gdf).
Proof.
  unfold tags_series. case_bool_decide; apply length_map.
Qed.

Lemma raw_name_title_en (row : gmap pystr pyval) (v : pyval) :
  raw_name py_str (<[u "title_en" := v]> row) = raw_name py_str row.
Proof.
  unfold raw_name, row_get.
  rewrite lookup_insert_ne by (vm_compute; congruence). reflexivity.
Qed.

(** What a frame that [enrich_frame] returns looks like, row by row. *)
Lemma enrich_frame_Ok (cache : gmap pystr pystr) (gdf out : GeoDataFrame) :
  enrich_frame json_loads py_str cache gdf = Ok out ->
  columns out = OUT_COLUMNS /\
  length (rows out) = length (rows gdf) /\
  forall i row, rows gdf !! i = Some row ->
    exists tags en title,
      tags_series json_loads gdf !! i = Some tags /\
      get_title_en tags (raw_name py_str row) = Ok en /\
      resolve_title py_str cache (tags, <[u "title_en" := PyStr en]> row)
        = Ok title /\
      rows out !! i = Some (out_row i row en title).
Proof.
  unfold enrich_frame.
  destruct (exc_map _ (zip _ (rows gdf))) as [title_en|e] eqn:Hen;
    [|discriminate].
  cbn [mbind exc_bind].
  set (gdf1 := set_column (u "title_en") (PyStr <$> title_en) gdf).
  destruct (exc_map _ (zip _ (rows gdf1))) as [titles|e] eqn:Hti;
    [|discriminate].
  cbn [mbind exc_bind].
  set (gdf2 := set_column (u "title") titles gdf1).
  set (oids := map (fun i => PyInt (Z.of_nat i + 1))
                   (seq 0 (length (rows gdf2)))).
  set (gdf3 := set_column (u "oid") oids gdf2).
  unfold select_columns. destruct (forallb _ _); [|discriminate].
  intros [= <-]. cbn [columns rows].
  apply exc_map_Ok in Hen, Hti.
  pose proof (Forall2_length _ _ _ Hen) as Len.
  pose proof (Forall2_length _ _ _ Hti) as Lti.
  pose proof (tags_series_length gdf) as Ltags.
  rewrite length_zip in Len, Lti.
  assert (L1 : length (rows gdf1) = length (rows gdf)).
  { apply set_column_rows_length. rewrite length_fmap. lia. }
  assert (L2 : length (rows gdf2) = length (rows gdf)).
  { unfold gdf2. rewrite set_column_rows_length; lia. }
  assert (L3 : length (rows gdf3) = length (rows gdf)).
  { unfold gdf3. rewrite set_column_rows_length; [lia|].
    unfold oids. rewrite length_map, length_seq. reflexivity. }
  split; [reflexivity|]. split; [rewrite length_map; exact L3|].
  intros i row Hrow.
  pose proof (lookup_lt_Some _ _ _ Hrow) as Hi.
  destruct (lookup_lt_is_Some_2 (tags_series json_loads gdf) i) as [tags Htags];
    [lia|].
  assert (Hz : zip (tags_series json_loads gdf) (rows gdf) !! i
               = Some (tags, row)).
  { apply lookup_zip_with_Some. eauto. }
  destruct (Forall2_lookup_l _ _ _ _ _ Hen Hz) as (en & Hen_i & Hf).
  assert (Hr1 : rows gdf1 !! i = Some (<[u "title_en" := PyStr en]> row)).
  { apply set_column_rows_lookup; [exact Hrow|].
    rewrite list_lookup_fmap, Hen_i. reflexivity. }
  assert (Hz1 : zip (tags_series json_loads gdf) (rows gdf1) !! i
                = Some (tags, <[u "title_en" := PyStr en]> row)).
  { apply lookup_zip_with_Some. eauto. }
  destruct (Forall2_lookup_l _ _ _ _ _ Hti Hz1) as (title & Hti_i & Hg).
  exists tags, en, title. repeat split; [exact Htags|exact Hf|exact Hg|].
  rewrite list_lookup_fmap.
  assert (Hr3 : rows gdf3 !! i =
                Some (<[u "oid" := PyInt (Z.of_nat i + 1)]>
                        (<[u "title" := title]>
                           (<[u "title_en" := PyStr en]> row)))).
  { apply set_column_rows_lookup.
    - apply set_column_rows_lookup; assumption.
    - unfold oids. rewrite list_lookup_fmap, lookup_seq_lt by lia.
      reflexivity. }
  exact (f_equal (fmap (filter (fun kv : pystr * pyval => kv.1 ∈ OUT_COLUMNS)))
                 Hr3).
Qed.

(** On a well-formed frame [enrich_frame] does not raise. *)
Lemma enrich_frame_total (cache : gmap pystr pystr) (gdf : GeoDataFrame) :
  wf_frame json_loads gdf ->
  exists out, enrich_frame json_loads py_str cache gdf = Ok out.
Proof.
  intros [Hgeo Hrows]. unfold enrich_frame.
  assert (Htags : Forall (fun t => exists d, t = str_dict d)
                         (tags_series json_loads gdf)).
  { unfold tags_series. case_bool_decide.
    - apply Forall_fmap. eapply Forall_impl; [exact Hrows|].
      intros row [d Hd]. exists d. exact Hd.
    - apply Forall_fmap, Forall_forall. intros row _. exists ∅.
      unfold str_dict. rewrite fmap_empty. reflexivity. }
  rewrite Forall_forall in Htags.
  destruct (exc_map_total
              (fun '(tags, row) => get_title_en tags (raw_name py_str row))
              (zip (tags_series json_loads gdf) (rows gdf)))
    as [title_en Hen].
  { apply Forall_forall. intros [t row] Hin.
    destruct (Htags t (elem_of_zip_l _ _ _ _ Hin)) as [d ->].
    rewrite get_title_en_str_dict. eauto. }
  rewrite Hen. cbn [mbind exc_bind].
  set (gdf1 := set_column (u "title_en") (PyStr <$> title_en) gdf).
  destruct (exc_map_total (resolve_title py_str cache)
              (zip (tags_series json_loads gdf) (rows gdf1)))
    as [titles Hti].
  { apply Forall_forall. intros [t row1] Hin.
    destruct (Htags t (elem_of_zip_l _ _ _ _ Hin)) as [d ->].
    apply elem_of_zip_r in Hin. unfold gdf1, set_column in Hin.
    cbn [rows] in Hin.
    apply elem_of_zip_with in Hin as (row & v & -> & _ & _).
    unfold resolve_title. rewrite get_title_zh_str_dict.
    cbn [mbind exc_bind]. rewrite lookup_insert_eq.
    destruct (spec_title_zh d _) as [z|]; [destruct (nonempty z)|]; eauto. }
  rewrite Hti. cbn [mbind exc_bind].
  unfold select_columns.
  match goal with |- context [forallb ?f ?l] =>
    assert (Hall : forallb f l = true) end.
  { unfold OUT_COLUMNS. cbn [forallb].
    rewrite !bool_decide_eq_true_2; [reflexivity| | | |].
    - do 3 apply set_column_columns_old. exact Hgeo.
    - do 2 apply set_column_columns_old. apply set_column_columns_new.
    - apply set_column_columns_old. apply set_column_columns_new.
    - apply set_column_columns_new. }
  rewrite Hall. eauto.
Qed.

Lemma no_exit_enrich_frame (cache : gmap pystr pystr) (gdf : GeoDataFrame) :
  no_exit (enrich_frame json_loads py_str cache gdf).
Proof.
  unfold enrich_frame.
  apply no_exit_bind.
  { apply no_exit_exc_map. intros [t row]. apply no_exit_get_title_en. }
  intros title_en. apply no_exit_bind.
  { apply no_exit_exc_map. intros [t row]. unfold resolve_title.
    apply no_exit_bind; [apply no_exit_get_title_zh|].
    intros [z|]; [destruct (nonempty z)|];
      try destruct (_ !! _); exact I. }
  intros titles. unfold select_columns. destruct (forallb _ _); exact I.
Qed.

End Frame.

(** ** The orchestrator *)

Lemma steps_to_bind_ok {A B} (m : M A) (f : A -> M B) (s : state)
    (a : A) (r : exc B) (c1 c2 : gmap pystr pystr) (tr1 tr2 : list event) :
  runs_to m s a c1 tr1 ->
  steps_to (f a) {| _cache := c1; trace := trace s ++ tr1 |} r c2 tr2 ->
  steps_to (m ≫= f) s r c2 (tr1 ++ tr2).
Proof.
  unfold runs_to, steps_to. intros H1 H2.
  rewrite (M_bind_ok _ _ _ _ _ H1), H2. simpl. rewrite app_assoc. reflexivity.
Qed.

Lemma steps_to_bind_raise {A B} (m : M A) (f : A -> M B) (s : state)
    (e : exn) (c : gmap pystr pystr) (tr : list event) :
  steps_to m s (Raise e) c tr -> steps_to (m ≫= f) s (Raise e) c tr.
Proof. unfold steps_to. intros H. apply M_bind_raise. exact H. Qed.

Lemma steps_to_lift {A} (r : exc A) (s : state) :
  steps_to (lift r) s r (_cache s) [].
Proof. unfold steps_to, lift. rewrite app_nil_r. destruct s; reflexivity. Qed.

Section Orchestrator.

Variable json_loads : pystr -> option pyval.
Variable py_str : pyval -> pystr.
Variable input_files : Z -> option GeoDataFrame.
Variable translate_batch : list event -> list pystr -> option (list pystr).
Variable translate : list event -> pystr -> option pystr.

Lemma scan_rows_spec (rws : list (gmap pystr pyval)) (needs : list pystr) :
  no_exit (scan_rows json_loads py_str rws needs) /\
  (forall needs', scan_rows json_loads py_str rws needs = Ok needs' ->
                  [] ∉ needs -> [] ∉ needs') /\
  (Forall (wf_row json_loads) rws ->
   exists needs', scan_rows json_loads py_str rws needs = Ok needs').
Proof.
  revert needs. induction rws as [|row rws IH]; intros needs.
  - repeat split; simpl; eauto. intros needs' [= <-]. auto.
  - cbn [scan_rows].
    set (tags := parse_tags json_loads (row_get row (u "tags"))).
    set (name := raw_name py_str row).
    pose proof (no_exit_get_title_zh tags name) as Hzh.
    pose proof (no_exit_get_title_en tags name) as Hen.
    repeat split.
    + destruct (get_title_zh tags name) as [zh|e]; [|exact Hzh]. simpl.
      destruct (zh_truthy zh); [apply IH|].
      destruct (get_title_en tags name) as [en|e]; [|exact Hen]. simpl.
      destruct (nonempty en); apply IH.
    + intros needs'.
      destruct (get_title_zh tags name) as [zh|e]; [|discriminate]. simpl.
      destruct (zh_truthy zh); [apply IH|].
      destruct (get_title_en tags name) as [en|e]; [|discriminate]. simpl.
      destruct (nonempty en) eqn:Hne; [|apply IH].
      intros Hs Hn. apply (proj1 (proj2 (IH _)) _ Hs).
      intros Hin. apply elem_of_app in Hin as [Hin|Hin]; [contradiction|].
      apply list_elem_of_singleton in Hin. subst en. discriminate.
    + intros Hwf. apply Forall_cons in Hwf as [[d Hd] Hwf].
      fold tags in Hd. rewrite Hd, get_title_zh_str_dict. simpl.
      destruct (zh_truthy _); [apply IH, Hwf|].
      rewrite get_title_en_str_dict. simpl.
      destruct (nonempty _); apply IH, Hwf.
Qed.

Lemma needs_of_years_spec (years : list Z) (needs : list pystr) :
  no_exit (needs_of_years json_loads py_str input_files years needs) /\
  (forall needs', needs_of_years json_loads py_str input_files years needs = Ok needs' ->
                  [] ∉ needs -> [] ∉ needs') /\
  (wf_files json_loads input_files ->
   exists needs', needs_of_years json_loads py_str input_files years needs = Ok needs').
Proof.
  revert needs. induction years as [|y years IH]; intros needs.
  - repeat split; simpl; eauto. intros needs' [= <-]. auto.
  - cbn [needs_of_years]. destruct (input_files y) as [gdf|] eqn:Hy;
      [|apply IH].
    destruct (scan_rows_spec (rows gdf) needs) as (Hne & Hnil & Htot).
    repeat split.
    + destruct (scan_rows _ _ _ _) as [needs1|e]; [apply IH|exact Hne].
    + intros needs'.
      destruct (scan_rows _ _ _ _) as [needs1|e]; [|discriminate]. simpl.
      intros Hs Hn. apply (proj1 (proj2 (IH _)) _ Hs).
      apply (Hnil _ eq_refl Hn).
    + intros Hwf. destruct (Htot (proj2 (Hwf _ _ Hy))) as [needs1 H1].
      rewrite H1. simpl. apply IH, Hwf.
Qed.

(** Phase 1 reads every existing dataset of the range, in order, and
    does nothing else. *)
Lemma scan_years_spec (years : list Z) (needs : list pystr) (s : state) :
  exists tr,
    steps_to (scan_years json_loads py_str input_files years needs) s
             (needs_of_years json_loads py_str input_files years needs) (_cache s) tr /\
    Forall (fun e => exists y, e = EvRead y /\ is_Some (input_files y)) tr /\
    (forall needs', needs_of_years json_loads py_str input_files years needs = Ok needs' ->
                    tr = map EvRead (existing input_files years)).
Proof.
  revert needs s. induction years as [|y years IH]; intros needs s.
  - exists []. split; [|split; [constructor|reflexivity]].
    unfold steps_to. simpl. rewrite app_nil_r. destruct s; reflexivity.
  - cbn [scan_years needs_of_years]. unfold existing. rewrite filter_cons.
    destruct (input_files y) as [gdf|] eqn:Hy.
    + rewrite decide_True by eauto.
      destruct (scan_rows json_loads py_str (rows gdf) needs)
        as [needs1|e] eqn:Hscan.
      * destruct (IH needs1 {| _cache := _cache s;
                               trace := trace s ++ [EvRead y] |})
          as (tr & Hrun & Hq & Hok).
        exists ([EvRead y] ++ tr). split; [|split].
        -- apply (steps_to_bind_ok _ _ s tt _ (_cache s) (_cache s)
                    [EvRead y] tr); [reflexivity|].
           change tr with ([] ++ tr).
           apply (steps_to_bind_ok _ _ _ needs1 _ (_cache s) (_cache s) [] tr).
           ++ exact (steps_to_lift (Ok needs1)
                       {| _cache := _cache s; trace := trace s ++ [EvRead y] |}).
           ++ cbn [trace _cache] in *. rewrite app_nil_r. exact Hrun.
        -- constructor; [|exact Hq]. exists y. rewrite Hy. eauto.
        -- intros needs' Hn. simpl in Hn. rewrite (Hok _ Hn). reflexivity.
      * exists [EvRead y]. split; [|split].
        -- apply (steps_to_bind_ok _ _ s tt _ (_cache s) (_cache s)
                    [EvRead y] []); [reflexivity|].
           apply steps_to_bind_raise.
           exact (steps_to_lift (Raise e)
                    {| _cache := _cache s; trace := trace s ++ [EvRead y] |}).
        -- repeat constructor. exists y. rewrite Hy. eauto.
        -- discriminate.
    + rewrite decide_False by (intros [? ?]; discriminate).
      apply IH.
Qed.

Lemma dataset_events_no_translation c (tr : list event) :
  Forall (dataset_event json_loads py_str input_files c) tr -> batched tr = [] /\ singles tr = [].
Proof.
  induction 1 as [|e tr He _ [IHb IHs]]; [split; reflexivity|].
  destruct e; simpl in *; try contradiction; auto.
Qed.

Lemma dataset_events_written c (tr : list event) (y : Z) (out : GeoDataFrame) :
  Forall (dataset_event json_loads py_str input_files c) tr -> (y, out) ∈ written tr ->
  exists gdf, input_files y = Some gdf /\
              enrich_frame json_loads py_str c gdf = Ok out.
Proof.
  induction 1 as [|e tr He _ IH]; simpl; [intros H; inversion H|].
  destruct e; simpl in *; auto.
  intros [[= -> ->]|Hin]%elem_of_cons; auto.
Qed.

Lemma dataset_events_missing c (tr : list event) (y : Z) :
  Forall (dataset_event json_loads py_str input_files c) tr -> input_files y = None ->
  Forall (fun e => ~ touches y e) tr.
Proof.
  intros H Hy. eapply Forall_impl; [exact H|].
  intros e He Ht. destruct e as [| |[]| | |]; simpl in *; try contradiction;
    subst; rewrite Hy in He; destruct He as [? ?]; try discriminate.
  destruct H0. discriminate.
Qed.

Lemma process_year_missing (year : Z) (s : state) :
  input_files year = None ->
  runs_to (process_year json_loads py_str input_files year) s false
          (_cache s) [EvPrint (MsgSkipping year)].
Proof. intros H. unfold runs_to, process_year. rewrite H. reflexivity. Qed.

Lemma process_year_written (year : Z) (gdf out : GeoDataFrame) (s : state) :
  input_files year = Some gdf ->
  enrich_frame json_loads py_str (_cache s) gdf = Ok out ->
  runs_to (process_year json_loads py_str input_files year) s true (_cache s)
          [EvMkdir (Some year); EvRead year; EvWrite year out;
           EvPrint (MsgFeatures year (length (rows out)))].
Proof.
  intros H He. unfold runs_to, process_year. rewrite H.
  cbv [mbind M_bind emit get_cache lift print mret M_ret].
  cbn [trace _cache]. rewrite He. cbn [trace _cache].
  rewrite <- !app_assoc. reflexivity.
Qed.

Lemma process_year_raises (year : Z) (gdf : GeoDataFrame) (e : exn)
    (s : state) :
  input_files year = Some gdf ->
  enrich_frame json_loads py_str (_cache s) gdf = Raise e ->
  steps_to (process_year json_loads py_str input_files year) s (Raise e)
           (_cache s) [EvMkdir (Some year); EvRead year].
Proof.
  intros H He. unfold steps_to, process_year. rewrite H.
  cbv [mbind M_bind emit get_cache lift print mret M_ret].
  cbn [trace _cache]. rewrite He. cbn [trace _cache].
  rewrite <- !app_assoc. reflexivity.
Qed.

(** Phase 3: one frame per existing dataset, enriched with the cache as
    [prime_translation_cache] left it. *)
Lemma sum_process_year_spec (years : list Z) (acc : Z) (s : state) :
  exists r tr,
    steps_to (sum_process_year json_loads py_str input_files years acc) s
             r (_cache s) tr /\
    no_exit r /\
    Forall (dataset_event json_loads py_str input_files (_cache s)) tr /\
    (forall w, r = Ok w ->
       w = (acc + Z.of_nat (length (existing input_files years)))%Z /\
       (written tr).*1 = existing input_files years) /\
    (wf_files json_loads input_files -> exists w, r = Ok w).
Proof.
  revert acc s. induction years as [|y years IH]; intros acc s.
  - exists (Ok acc), [].
    split; [|split; [exact I|split; [constructor|split]]].
    + unfold steps_to. simpl. rewrite app_nil_r. destruct s; reflexivity.
    + intros w [= <-]. split; [simpl; lia|reflexivity].
    + eauto.
  - cbn [sum_process_year]. unfold existing. rewrite filter_cons.
    destruct (input_files y) as [gdf|] eqn:Hy.
    + rewrite decide_True by eauto.
      destruct (enrich_frame json_loads py_str (_cache s) gdf)
        as [out|e] eqn:Hen.
      * pose proof (process_year_written y gdf out s Hy Hen) as Hp.
        set (tr1 := [EvMkdir (Some y); EvRead y; EvWrite y out;
                     EvPrint (MsgFeatures y (length (rows out)))]) in *.
        destruct (IH (acc + 1)%Z
                     {| _cache := _cache s; trace := trace s ++ tr1 |})
          as (r & tr & Hrun & Hne & Hq & Hok & Hwf).
        cbn [_cache] in *.
        exists r, (tr1 ++ tr). split; [|split; [exact Hne|split; [|split]]].
        -- exact (steps_to_bind_ok _ _ s true r (_cache s) (_cache s)
                    tr1 tr Hp Hrun).
        -- apply Forall_app. split; [|exact Hq].
           unfold tr1. repeat constructor; simpl; eauto.
        -- intros w Hw. destruct (Hok w Hw) as [-> Hwr]. split.
           ++ fold (existing input_files years). simpl. lia.
           ++ rewrite written_app, fmap_app, Hwr. reflexivity.
        -- exact Hwf.
      * exists (Raise e), [EvMkdir (Some y); EvRead y].
        split; [|split; [|split; [|split]]].
        -- apply steps_to_bind_raise.
           exact (process_year_raises y gdf e s Hy Hen).
        -- pose proof (no_exit_enrich_frame json_loads py_str (_cache s) gdf)
             as Hn. rewrite Hen in Hn. exact Hn.
        -- repeat constructor; simpl; eauto.
        -- discriminate.
        -- intros Hfiles.
           destruct (enrich_frame_total json_loads py_str (_cache s) gdf
                       (Hfiles _ _ Hy)) as [out Hout].
           congruence.
    + rewrite decide_False by (intros [? ?]; discriminate).
      pose proof (process_year_missing y s Hy) as Hp.
      destruct (IH (acc + 0)%Z
                   {| _cache := _cache s;
                      trace := trace s ++ [EvPrint (MsgSkipping y)] |})
        as (r & tr & Hrun & Hne & Hq & Hok & Hwf).
      cbn [_cache] in *.
      exists r, ([EvPrint (MsgSkipping y)] ++ tr).
      split; [|split; [exact Hne|split; [|split]]].
      * exact (steps_to_bind_ok _ _ s false r (_cache s) (_cache s)
                 [EvPrint (MsgSkipping y)] tr Hp Hrun).
      * apply Forall_app. split; [repeat constructor|exact Hq].
      * intros w Hw. destruct (Hok w Hw) as [-> Hwr]. split.
        -- fold (existing input_files years). lia.
        -- rewrite written_app. simpl. exact Hwr.
      * exact Hwf.
Qed.

Lemma run_events_written c (tr : list event) (y : Z) (out : GeoDataFrame) :
  Forall (run_event json_loads py_str input_files c) tr -> (y, out) ∈ written tr ->
  exists gdf, input_files y = Some gdf /\
              enrich_frame json_loads py_str c gdf = Ok out.
Proof.
  induction 1 as [|e tr He _ IH]; simpl; [intros H; inversion H|].
  destruct e; simpl in *; auto.
  intros [[= -> ->]|Hin]%elem_of_cons; auto.
Qed.

Lemma run_events_missing c (tr : list event) (y : Z) :
  Forall (run_event json_loads py_str input_files c) tr -> input_files y = None ->
  Forall (fun e => ~ touches y e) tr.
Proof.
  intros H Hy. eapply Forall_impl; [exact H|].
  intros e He Ht. destruct e as [| |[]| | |]; simpl in *; try contradiction;
    subst; rewrite Hy in He; destruct He as [? ?]; try discriminate.
  destruct H0. discriminate.
Qed.

Lemma reads_are_dataset_events c (tr : list event) :
  Forall (fun e => exists y, e = EvRead y /\ is_Some (input_files y)) tr ->
  Forall (dataset_event json_loads py_str input_files c) tr.
Proof.
  intros H. eapply Forall_impl; [exact H|].
  intros e (y & -> & Hy). exact Hy.
Qed.

Lemma dataset_events_run_events c (tr : list event) :
  Forall (dataset_event json_loads py_str input_files c) tr -> Forall (run_event json_loads py_str input_files c) tr.
Proof.
  intros H. eapply Forall_impl; [exact H|]. intros []; simpl; auto.
Qed.

(** The shape of a run over a valid range. *)
Lemma run_spec (start end_ : Z) :
  (start <= end_)%Z ->
  exists r c tr,
    run json_loads py_str input_files translate_batch translate start end_
      = (r, {| _cache := c; trace := tr |}) /\
    no_exit r /\
    c !! [] = None /\
    NoDup (batched tr) /\
    sublist (singles tr) (batched tr) /\
    ([] ∉ batched tr) /\
    ((forall h chunk, translate_batch h chunk <> None) -> singles tr = []) /\
    (forall needs,
       needs_of_years json_loads py_str input_files (py_range start (end_ + 1)) [] = Ok needs ->
       batched tr = unique_names ∅ needs /\
       exists rest,
         tr = EvPrint (MsgPhase1 (length (py_range start (end_ + 1))))
              :: map EvRead (existing input_files (py_range start (end_ + 1)))
              ++ EvPrint MsgPhase2 :: rest /\
         written rest = written tr) /\
    Forall (run_event json_loads py_str input_files c) tr /\
    (r = Ok tt ->
     ((written tr).*1 = existing input_files (py_range start (end_ + 1))) /\
     last tr = Some (EvPrint
       (MsgDone (Z.of_nat (length (existing input_files
                                     (py_range start (end_ + 1)))))
                (length (py_range start (end_ + 1)))))) /\
    (wf_files json_loads input_files -> r = Ok tt).
Proof.
  intros Hle. unfold run, main.
  destruct (Z.gtb_spec start end_) as [Hgt|_]; [lia|].
  set (years := py_range start (end_ + 1)).
  set (P1 := EvPrint (MsgPhase1 (length years))).
  set (s1 := {| _cache := ∅; trace := trace initial_state ++ [P1] |}).
  destruct (scan_years_spec years [] s1) as (tr_scan & Hscan & Hreads & Hscan_ok).
  destruct (needs_of_years_spec years []) as (Hne_scan & Hnil_scan & Htot_scan).
  change (_cache s1) with (∅ : gmap pystr pystr) in Hscan.
  destruct (needs_of_years json_loads py_str input_files years []) as [needs|e] eqn:Hneeds.
  - (* discovery succeeded *)
    specialize (Hscan_ok needs eq_refl). subst tr_scan.
    set (tr_scan := map EvRead (existing input_files years)) in *.
    set (s3 := {| _cache := ∅;
                  trace := (trace s1 ++ tr_scan) ++ [EvPrint MsgPhase2] |}).
    destruct (prime_translation_cache_spec translate_batch translate needs s3)
      as (c & tr_prime & Hprime & [Hfr Hmo Hb Hs Hw Hq] & Hin & Hfb & Hok & Hdn).
    change (_cache s3) with (∅ : gmap pystr pystr) in *.
    set (s5 := {| _cache := c;
                  trace := ((trace s3 ++ tr_prime) ++ [EvPrint MsgPhase3])
                           ++ [EvMkdir None] |}).
    destruct (sum_process_year_spec years 0 s5)
      as (rw & tr_proc & Hproc & Hne_proc & Hq_proc & Hok_proc & Hwf_proc).
    change (_cache s5) with c in *.
    destruct (dataset_events_no_translation c tr_proc Hq_proc) as [Hbp Hsp].
    destruct (dataset_events_no_translation c tr_scan
                (reads_are_dataset_events c tr_scan Hreads)) as [Hbs Hss].
    assert (Hws : written tr_scan = []).
    { clear. unfold tr_scan. induction (existing input_files years); simpl; auto. }
    set (tail := match rw with
                 | Ok w => [EvPrint (MsgDone w (length years))]
                 | Raise _ => []
                 end).
    set (r := match rw with Ok _ => Ok tt | Raise e => Raise e end).
    set (rest := tr_prime ++ [EvPrint MsgPhase3] ++ [EvMkdir None]
                 ++ tr_proc ++ tail).
    exists r, c, ([P1] ++ tr_scan ++ [EvPrint MsgPhase2] ++ rest).
    assert (Hbt : batched tail = [] /\ singles tail = [] /\ written tail = []).
    { unfold tail. destruct rw; repeat split. }
    destruct Hbt as (Hbt & Hst & Hwt).
    assert (Hbr : batched rest = unique_names ∅ needs).
    { unfold rest. rewrite !batched_app, Hb, Hbp, Hbt. simpl.
      apply app_nil_r. }
    assert (Hsr : singles rest = singles tr_prime).
    { unfold rest. rewrite !singles_app, Hsp, Hst. simpl.
      apply app_nil_r. }
    assert (Hball : batched ([P1] ++ tr_scan ++ [EvPrint MsgPhase2] ++ rest)
                    = unique_names ∅ needs).
    { rewrite !batched_app, Hbs, Hbr. reflexivity. }
    assert (Hsall : singles ([P1] ++ tr_scan ++ [EvPrint MsgPhase2] ++ rest)
                    = singles tr_prime).
    { rewrite !singles_app, Hss, Hsr. reflexivity. }
    assert (Hwrest : written rest = written tr_proc).
    { unfold rest. rewrite !written_app, Hw, Hwt. simpl. apply app_nil_r. }
    assert (Hwall : written ([P1] ++ tr_scan ++ [EvPrint MsgPhase2] ++ rest)
                    = written tr_proc).
    { rewrite !written_app, Hws, Hwrest. reflexivity. }
    split; [|split; [|split; [|split; [|split; [|split; [|split;
      [|split; [|split; [|split]]]]]]]]].
    + (* the run *)
      change (steps_to (print (MsgPhase1 (length years));;
                needs_translation ← scan_years json_loads py_str input_files
                                      years [];
                print MsgPhase2;;
                prime_translation_cache translate_batch translate
                  needs_translation;;
                print MsgPhase3;;
                emit (EvMkdir None);;
                written ← sum_process_year json_loads py_str input_files
                            years 0;
                print (MsgDone written (length years)))
              initial_state r c
              ([P1] ++ tr_scan ++ [EvPrint MsgPhase2] ++ rest)).
      apply (steps_to_bind_ok _ _ initial_state tt r ∅ c [P1]);
        [reflexivity|].
      apply (steps_to_bind_ok _ _ s1 needs r ∅ c tr_scan); [exact Hscan|].
      apply (steps_to_bind_ok _ _ _ tt r ∅ c [EvPrint MsgPhase2]);
        [reflexivity|].
      apply (steps_to_bind_ok _ _ s3 tt r c c tr_prime); [exact Hprime|].
      apply (steps_to_bind_ok _ _ _ tt r c c [EvPrint MsgPhase3]);
        [reflexivity|].
      apply (steps_to_bind_ok _ _ _ tt r c c [EvMkdir None]);
        [reflexivity|].
      unfold r, tail. destruct rw as [w|e].
      * apply (steps_to_bind_ok _ _ s5 w (Ok tt) c c tr_proc); [exact Hproc|].
        reflexivity.
      * rewrite app_nil_r. apply steps_to_bind_raise. exact Hproc.
    + unfold r. destruct rw; [exact I|exact Hne_proc].
    + rewrite Hfr, lookup_empty; [reflexivity|].
      intros Hin0. apply unique_names_elem_of in Hin0 as (_ & Hne & _).
      congruence.
    + rewrite Hball. unfold unique_names. apply fromkeys_NoDup.
    + rewrite Hball, Hsall. exact Hs.
    + rewrite Hball. intros Hin0.
      apply unique_names_elem_of in Hin0 as (_ & Hne & _). congruence.
    + intros Hnf. rewrite Hsall. apply Hok, Hnf.
    + intros needs' [= <-]. split; [exact Hball|].
      exists rest. split; [reflexivity|].
      rewrite Hwall, Hwrest. reflexivity.
    + apply Forall_app. split; [repeat constructor|].
      apply Forall_app. split.
      { apply dataset_events_run_events, reads_are_dataset_events, Hreads. }
      apply Forall_app. split; [repeat constructor|].
      unfold rest. apply Forall_app. split.
      { eapply Forall_impl; [exact Hq|]. intros [] H; simpl; tauto. }
      apply Forall_app. split; [repeat constructor|].
      apply Forall_app. split; [repeat constructor|].
      apply Forall_app. split;
        [apply dataset_events_run_events, Hq_proc|].
      unfold tail. destruct rw; repeat constructor.
    + intros Hr.
      assert (exists w, rw = Ok w) as [w Hrw].
      { unfold r in Hr. destruct rw as [w|e]; [eauto|discriminate]. }
      destruct (Hok_proc w Hrw) as [Hw0 Hwr]. split.
      * rewrite Hwall. exact Hwr.
      * unfold rest, tail. rewrite Hrw, Hw0. rewrite !app_assoc.
        rewrite last_snoc. reflexivity.
    + intros Hfiles. destruct (Hwf_proc Hfiles) as [w ->]. reflexivity.
  - (* discovery raised *)
    exists (Raise e), ∅, ([P1] ++ tr_scan).
    destruct (dataset_events_no_translation ∅ tr_scan
                (reads_are_dataset_events ∅ tr_scan Hreads)) as [Hbs Hss].
    split; [|split; [|split; [|split; [|split; [|split; [|split;
      [|split; [|split; [|split]]]]]]]]].
    + apply (steps_to_bind_ok _ _ initial_state tt (Raise e) ∅ ∅ [P1]);
        [reflexivity|].
      apply steps_to_bind_raise. exact Hscan.
    + exact Hne_scan.
    + apply lookup_empty.
    + rewrite batched_app, Hbs. simpl. constructor.
    + rewrite batched_app, singles_app, Hbs, Hss. simpl. constructor.
    + rewrite batched_app, Hbs. simpl. intros H. inversion H.
    + intros _. rewrite singles_app, Hss. reflexivity.
    + discriminate.
    + apply Forall_app. split; [repeat constructor|].
      apply dataset_events_run_events, reads_are_dataset_events, Hreads.
    + discriminate.
    + intros Hfiles. destruct (Htot_scan Hfiles) as [needs' H']. discriminate.
Qed.

Lemma run_invalid_range (start end_ : Z) :
  (start > end_)%Z ->
  run json_loads py_str input_files translate_batch translate start end_
    = (Raise (SystemExit 1),
       {| _cache := ∅; trace := [EvPrint (MsgRangeError start end_)] |}).
Proof.
  intros Hgt. unfold run, main.
  destruct (Z.gtb_spec start end_) as [_|Hle]; [reflexivity|lia].
Qed.

(** What holds of every run, whatever the range. *)
Lemma run_facts (start end_ : Z) :
  exists r c tr,
    run json_loads py_str input_files translate_batch translate start end_
      = (r, {| _cache := c; trace := tr |}) /\
    c !! [] = None /\
    NoDup (batched tr) /\
    sublist (singles tr) (batched tr) /\
    ([] ∉ batched tr) /\
    ((forall h chunk, translate_batch h chunk <> None) -> singles tr = []) /\
    Forall (run_event json_loads py_str input_files c) tr.
Proof.
  destruct (Z.le_gt_cases start end_) as [Hle|Hgt].
  - destruct (run_spec start end_ Hle)
      as (r & c & tr & Hrun & _ & Hc & Hnd & Hsub & Hnil & Hok & _ & Hq & _).
    exists r, c, tr. repeat split; assumption.
  - exists (Raise (SystemExit 1)), ∅, [EvPrint (MsgRangeError start end_)].
    split; [apply run_invalid_range; lia|].
    split; [apply lookup_empty|]. split; [constructor|].
    split; [constructor|]. split; [intros H; inversion H|].
    split; [reflexivity|]. repeat constructor.
Qed.

Lemma enrich_frame_oids (cache : gmap pystr pystr) (gdf out : GeoDataFrame) :
  enrich_frame json_loads py_str cache gdf = Ok out ->
  column (u "oid") out
  = map (fun i => PyInt (Z.of_nat i + 1)) (seq 0 (length (rows gdf))).
Proof.
  intros H. destruct (enrich_frame_Ok _ _ _ _ _ H) as (_ & Hlen & Hrows).
  apply list_eq. intros i. unfold column.
  rewrite !list_lookup_fmap.
  destruct (decide (i < length (rows gdf))) as [Hi|Hi].
  - destruct (lookup_lt_is_Some_2 (rows gdf) i Hi) as [row Hrow].
    destruct (Hrows i row Hrow) as (tags & en & title & _ & _ & _ & Ho).
    rewrite Ho, lookup_seq_lt by exact Hi. simpl.
    unfold row_get. rewrite out_row_oid. reflexivity.
  - rewrite lookup_ge_None_2 by lia.
    rewrite lookup_seq_ge by lia. reflexivity.
Qed.

Lemma oids_NoDup (n : nat) :
  NoDup (map (fun i => PyInt (Z.of_nat i + 1)) (seq 0 n)).
Proof.
  assert (Hinj : Inj eq eq (fun i : nat => PyInt (Z.of_nat i + 1))).
  { intros i j [= Hij]. lia. }
  apply (NoDup_fmap_2 (fun i => PyInt (Z.of_nat i + 1))), NoDup_seq.
Qed.

(** C7: a run with [start > end_] prints the range error and raises
    [SystemExit] with status 1; its trace holds nothing else, so no
    dataset is read or written and no translation call is made, and the
    cache is untouched.  A run with [start <= end_] never ends in a
    [SystemExit]. *)
Theorem main_rejects_invalid_range (start end_ : Z) :
  ((start > end_)%Z ->
   run json_loads py_str input_files translate_batch translate start end_
     = (Raise (SystemExit 1),
        {| _cache := ∅; trace := [EvPrint (MsgRangeError start end_)] |})) /\
  ((start <= end_)%Z ->
   no_exit (run json_loads py_str input_files translate_batch translate
              start end_).1).
Proof.
  split; [apply run_invalid_range|].
  intros Hle. destruct (run_spec start end_ Hle) as (r & c & tr & Hrun & Hne & _).
  rewrite Hrun. exact Hne.
Qed.

(** C8: in a run over a valid range a year without source is skipped:
    [process_year] returns [False] for it without raising, and no
    directory, read or write of the run belongs to it.  When the run
    completes, the datasets written are exactly those of the requested
    years whose source exists, in order, and the count reported at the
    end is their number; on well-formed datasets the run does
    complete. *)
Theorem missing_years_are_skipped (start end_ : Z) :
  (start <= end_)%Z ->
  let years := py_range start (end_ + 1) in
  let result :=
    run json_loads py_str input_files translate_batch translate start end_ in
  (wf_files json_loads input_files -> result.1 = Ok tt) /\
  (result.1 = Ok tt ->
   ((written (trace result.2)).*1 = existing input_files years) /\
   last (trace result.2)
     = Some (EvPrint (MsgDone (Z.of_nat (length (existing input_files years)))
                              (length years)))) /\
  forall year, input_files year = None ->
    Forall (fun e => ~ touches year e) (trace result.2) /\
    forall s, process_year json_loads py_str input_files year s
              = (Ok false, {| _cache := _cache s;
                              trace := trace s ++ [EvPrint (MsgSkipping year)] |}).
Proof.
  intros Hle years result. unfold result, years.
  destruct (run_spec start end_ Hle)
    as (r & c & tr & Hrun & _ & _ & _ & _ & _ & _ & _ & Hq & Hdone & Hwf).
  rewrite Hrun. cbn [fst snd trace].
  split; [exact Hwf|]. split; [exact Hdone|].
  intros year Hy. split.
  - apply (run_events_missing c); assumption.
  - intros s. apply process_year_missing. assumption.
Qed.

(** C3: every dataset written by a run carries the identifiers 1..N in
    the order of the features of its source, N being their number: the
    row at index [i] is the source feature at index [i] and has the
    identifier [i + 1].  No identifier occurs twice. *)
Theorem oids_are_sequential (start end_ year : Z) (out : GeoDataFrame) :
  (year, out) ∈ written (trace (run json_loads py_str input_files
                                    translate_batch translate start end_).2) ->
  exists gdf,
    input_files year = Some gdf /\
    length (rows out) = length (rows gdf) /\
    column (u "oid") out
    = map (fun i => PyInt (Z.of_nat i + 1)) (seq 0 (length (rows gdf))) /\
    NoDup (column (u "oid") out) /\
    forall i row, rows gdf !! i = Some row ->
      exists orow,
        rows out !! i = Some orow /\
        orow !! u "oid" = Some (PyInt (Z.of_nat i + 1)) /\
        orow !! u "geometry" = row !! u "geometry".
Proof.
  destruct (run_facts start end_) as (r & c & tr & Hrun & _ & _ & _ & _ & _ & Hq).
  rewrite Hrun. cbn [snd trace]. intros Hin.
  destruct (run_events_written c tr year out Hq Hin) as (gdf & Hy & Hen).
  exists gdf. split; [exact Hy|].
  destruct (enrich_frame_Ok _ _ _ _ _ Hen) as (_ & Hlen & Hrows).
  split; [exact Hlen|].
  rewrite (enrich_frame_oids _ _ _ Hen). split; [reflexivity|].
  split; [apply oids_NoDup|].
  intros i row Hrow.
  destruct (Hrows i row Hrow) as (tags & en & title & _ & _ & _ & Ho).
  exists (out_row i row en title). split; [exact Ho|].
  split; [apply out_row_oid|apply out_row_geometry].
Qed.

(** C10: every dataset written by a run has exactly the columns "oid",
    "title", "title_en" and "geometry"; each of its rows holds a value
    under the first three, the geometry of the source row under the
    fourth, and nothing under any other label, in particular not under
    "name" and "tags". *)
Theorem output_has_four_fields (start end_ year : Z) (out : GeoDataFrame) :
  (year, out) ∈ written (trace (run json_loads py_str input_files
                                    translate_batch translate start end_).2) ->
  columns out = [u "oid"; u "title"; u "title_en"; u "geometry"] /\
  exists gdf,
    input_files year = Some gdf /\
    length (rows out) = length (rows gdf) /\
    forall i row, rows gdf !! i = Some row ->
      exists orow,
        rows out !! i = Some orow /\
        orow !! u "geometry" = row !! u "geometry" /\
        is_Some (orow !! u "oid") /\
        is_Some (orow !! u "title") /\
        is_Some (orow !! u "title_en") /\
        orow !! u "name" = None /\
        orow !! u "tags" = None /\
        forall k, k ∉ [u "oid"; u "title"; u "title_en"; u "geometry"] ->
                  orow !! k = None.
Proof.
  destruct (run_facts start end_) as (r & c & tr & Hrun & _ & _ & _ & _ & _ & Hq).
  rewrite Hrun. cbn [snd trace]. intros Hin.
  destruct (run_events_written c tr year out Hq Hin) as (gdf & Hy & Hen).
  destruct (enrich_frame_Ok _ _ _ _ _ Hen) as (Hcols & Hlen & Hrows).
  split; [exact Hcols|]. exists gdf. split; [exact Hy|]. split; [exact Hlen|].
  intros i row Hrow.
  destruct (Hrows i row Hrow) as (tags & en & title & _ & _ & _ & Ho).
  exists (out_row i row en title). split; [exact Ho|].
  split; [apply out_row_geometry|].
  rewrite out_row_oid, out_row_title, out_row_title_en.
  repeat split; eauto; apply out_row_dropped;
    try (vm_compute; intros H; repeat (apply elem_of_cons in H as [H|H];
           [discriminate|]); inversion H).
Qed.

Lemma enrich_frame_empty_labels (cache : gmap pystr pystr)
    (gdf out : GeoDataFrame) (i : nat) (row : gmap pystr pyval) :
  enrich_frame json_loads py_str cache gdf = Ok out ->
  cache !! [] = None ->
  rows gdf !! i = Some row ->
  parse_tags json_loads (row_get row (u "tags")) = PyDict ∅ ->
  raw_name py_str row = [] ->
  exists orow,
    rows out !! i = Some orow /\
    orow !! u "title_en" = Some (PyStr []) /\
    orow !! u "title" = Some (PyStr []).
Proof.
  intros Hen Hc Hrow Htags Hname.
  destruct (enrich_frame_Ok _ _ _ _ _ Hen) as (_ & _ & Hrows).
  destruct (Hrows i row Hrow) as (tags & en & title & Ht & He & Hr & Ho).
  assert (tags = PyDict ∅) as ->.
  { unfold tags_series in Ht. case_bool_decide;
      rewrite list_lookup_fmap, Hrow in Ht; simpl in Ht; congruence. }
  rewrite Hname in He. vm_compute in He. injection He as <-.
  unfold resolve_title in Hr. rewrite raw_name_title_en, Hname in Hr.
  change (get_title_zh (PyDict ∅) []) with (@Ok (option pystr) None) in Hr.
  cbn [mbind exc_bind] in Hr. rewrite lookup_insert_eq in Hr.
  cbn [cache_get] in Hr. rewrite Hc in Hr. injection Hr as <-.
  exists (out_row i row [] (PyStr [])). split; [exact Ho|].
  split; [apply out_row_title_en|apply out_row_title].
Qed.

(** C9: a feature whose tags normalise to the empty mapping and whose
    raw name is empty gets the empty string as English label and as
    Chinese label in the dataset written for its year.  The empty label
    is in no batched and in no individual call of the run and is no key
    of the cache: discovery records no empty label, the priming drops
    empty labels, and the lookup of the empty label in a cache without
    that key gives the empty label. *)
Theorem empty_label_is_never_translated (start end_ : Z) :
  let result :=
    run json_loads py_str input_files translate_batch translate start end_ in
  ([] ∉ batched (trace result.2)) /\
  ([] ∉ singles (trace result.2)) /\
  _cache result.2 !! [] = None /\
  (forall years needs, needs_of_years json_loads py_str input_files years [] = Ok needs -> [] ∉ needs) /\
  (forall cache names, [] ∉ unique_names cache names) /\
  (forall cache, cache !! [] = None -> cache_get cache (PyStr []) = PyStr []) /\
  get_title_en (PyDict ∅) [] = Ok [] /\
  get_title_zh (PyDict ∅) [] = Ok None /\
  forall year out gdf i row,
    (year, out) ∈ written (trace result.2) ->
    input_files year = Some gdf ->
    rows gdf !! i = Some row ->
    parse_tags json_loads (row_get row (u "tags")) = PyDict ∅ ->
    raw_name py_str row = [] ->
    exists orow,
      rows out !! i = Some orow /\
      orow !! u "title_en" = Some (PyStr []) /\
      orow !! u "title" = Some (PyStr []).
Proof.
  intros result. unfold result.
  destruct (run_facts start end_)
    as (r & c & tr & Hrun & Hc & _ & Hsub & Hnil & _ & Hq).
  rewrite Hrun. cbn [snd trace _cache].
  split; [exact Hnil|]. split.
  { intros Hin. apply Hnil. exact (sublist_subseteq _ _ Hsub _ Hin). }
  split; [exact Hc|]. split.
  { intros years needs Hn.
    apply (proj1 (proj2 (needs_of_years_spec years [])) _ Hn).
    intros H. inversion H. }
  split.
  { intros cache names Hin.
    apply unique_names_elem_of in Hin as (_ & Hne & _). congruence. }
  split.
  { intros cache Hcache. cbn [cache_get]. rewrite Hcache. reflexivity. }
  split; [reflexivity|]. split; [reflexivity|].
  intros year out gdf i row Hin Hy Hrow Htags Hname.
  destruct (run_events_written c tr year out Hq Hin) as (gdf' & Hy' & Hen).
  assert (gdf' = gdf) as -> by congruence.
  exact (enrich_frame_empty_labels c gdf out i row Hen Hc Hrow Htags Hname).
Qed.

End Orchestrator.

(** ** The sample world *)

Example default_range_is_valid : (DEFAULT_START <= DEFAULT_END)%Z.
Proof. unfold DEFAULT_START, DEFAULT_END. lia. Qed.

Lemma sample_wf_files : wf_files Sample.json_loads Sample.input_files.
Proof.
  intros year gdf. unfold Sample.input_files.
  destruct (year =? 1900)%Z; [|destruct (year =? 1901)%Z; [|discriminate]];
    intros [= <-]; (split; [vm_compute; repeat constructor|]).
  - repeat constructor; exists ∅; vm_compute; reflexivity.
  - repeat constructor; [exists Sample.zh_tags|exists ∅]; vm_compute;
      reflexivity.
Qed.

(** "Germany" occurs in 1900 and in 1901 and is translated once. *)
Example sample_run_batch_up :
  let tr := trace (run Sample.json_loads Sample.py_str Sample.input_files
                       Sample.batch_up Sample.translate 1899 1901).2 in
  batched tr = [Sample.germany] /\ singles tr = [].
Proof. split; reflexivity. Qed.

(** With the batched call down, the label is retried on its own. *)
Example sample_run_batch_down :
  let tr := trace (run Sample.json_loads Sample.py_str Sample.input_files
                       Sample.batch_down Sample.translate 1899 1901).2 in
  batched tr = [Sample.germany] /\ singles tr = [Sample.germany].
Proof. split; reflexivity. Qed.

Lemma sample_written_1900 :
  (1900%Z, Sample.out_1900)
  ∈ written (trace (run Sample.json_loads Sample.py_str Sample.input_files
                        Sample.batch_up Sample.translate 1899 1901).2).
Proof. apply list_elem_of_lookup. exists 0. vm_compute. reflexivity. Qed.

Lemma main_rejects_invalid_range_witness :
  run Sample.json_loads Sample.py_str Sample.input_files
      Sample.batch_up Sample.translate 2000 1990
  = (Raise (SystemExit 1),
     {| _cache := ∅; trace := [EvPrint (MsgRangeError 2000 1990)] |}) /\
  no_exit (run Sample.json_loads Sample.py_str Sample.input_files
               Sample.batch_up Sample.translate 1899 1901).1.
Proof.
  split.
  - apply (main_rejects_invalid_range Sample.json_loads Sample.py_str
             Sample.input_files Sample.batch_up Sample.translate 2000 1990).
    lia.
  - apply (main_rejects_invalid_range Sample.json_loads Sample.py_str
             Sample.input_files Sample.batch_up Sample.translate 1899 1901).
    lia.
Defined.

Lemma missing_years_are_skipped_witness :
  last (trace (run Sample.json_loads Sample.py_str Sample.input_files
                   Sample.batch_up Sample.translate 1899 1901).2)
  = Some (EvPrint (MsgDone 2 3)).
Proof.
  destruct (missing_years_are_skipped Sample.json_loads Sample.py_str
              Sample.input_files Sample.batch_up Sample.translate 1899 1901)
    as (Hwf & Hdone & _).
  - lia.
  - exact (proj2 (Hdone (Hwf sample_wf_files))).
Defined.

Lemma oids_are_sequential_witness :
  column (u "oid") Sample.out_1900 = [PyInt 1; PyInt 2; PyInt 3].
Proof.
  destruct (oids_are_sequential Sample.json_loads Sample.py_str
              Sample.input_files Sample.batch_up Sample.translate
              1899 1901 1900 Sample.out_1900 sample_written_1900)
    as (gdf & Hy & _ & Hcol & _).
  injection Hy as <-. exact Hcol.
Defined.

Lemma output_has_four_fields_witness :
  columns Sample.out_1900 = [u "oid"; u "title"; u "title_en"; u "geometry"].
Proof.
  exact (proj1 (output_has_four_fields Sample.json_loads Sample.py_str
                  Sample.input_files Sample.batch_up Sample.translate
                  1899 1901 1900 Sample.out_1900 sample_written_1900)).
Defined.

Lemma empty_label_is_never_translated_witness :
  exists orow,
    rows Sample.out_1900 !! 2 = Some orow /\
    orow !! u "title_en" = Some (PyStr []) /\
    orow !! u "title" = Some (PyStr []).
Proof.
  destruct (empty_label_is_never_translated Sample.json_loads Sample.py_str
              Sample.input_files Sample.batch_up Sample.translate 1899 1901)
    as (_ & _ & _ & _ & _ & _ & _ & _ & H).
  apply (H 1900%Z Sample.out_1900 Sample.frame_1900 2
           (Sample.feature [] (PyStr (u "oops")) 3)).
  - exact sample_written_1900.
  - reflexivity.
  - reflexivity.
  - vm_compute. reflexivity.
  - vm_compute. reflexivity.
Defined.

(** * Further properties of the code *)

(** ** The Chinese candidate is never blank *)

Lemma cjk_not_space (c : Z) : _CJK_RE c = true -> isspace c = false.
Proof.
  unfold _CJK_RE, isspace. intros H.
  apply orb_true_iff in H.
  rewrite !andb_true_iff, !Z.leb_le in H.
  apply not_true_iff_false. intros Hs.
  rewrite !orb_true_iff, !andb_true_iff, !Z.leb_le, !Z.eqb_eq in Hs. lia.
Qed.

Lemma lstrip_keeps (s : pystr) (c : Z) :
  c ∈ s -> isspace c = false -> c ∈ lstrip s.
Proof.
  intros Hc Hsp. induction s as [|a s IH]; [inversion Hc|]. simpl.
  destruct (isspace a) eqn:Ha; [|exact Hc].
  apply elem_of_cons in Hc as [->|Hc]; [congruence|]. apply IH, Hc.
Qed.

Lemma strip_keeps (s : pystr) (c : Z) :
  c ∈ s -> isspace c = false -> c ∈ strip s.
Proof.
  intros Hc Hsp. unfold strip, rstrip.
  apply elem_of_reverse, lstrip_keeps; [|exact Hsp].
  apply elem_of_reverse, lstrip_keeps; assumption.
Qed.

Lemma get_title_zh_loop_Some (tags : pyval) (keys : list pystr) (val : pystr) :
  get_title_zh_loop tags keys = Ok (Some val) ->
  nonempty val = true /\ exists s, val = strip s.
Proof.
  induction keys as [|key keys IH]; cbn [get_title_zh_loop]; [discriminate|].
  destruct (py_get tags key) as [v|e]; [|discriminate]. cbn [mbind exc_bind].
  destruct (py_or v (PyStr [])) as [| | |s| | |]; try discriminate.
  cbn [py_strip mbind exc_bind].
  destruct (nonempty (strip s)) eqn:Hs; [|exact IH].
  intros [= <-]. eauto.
Qed.

Lemma get_title_zh_Some (tags : pyval) (name z : pystr) :
  get_title_zh tags name = Ok (Some z) ->
  nonempty z = true /\ exists s, z = strip s.
Proof.
  unfold get_title_zh.
  destruct (get_title_zh_loop tags ZH_KEYS) as [[val|]|e] eqn:Hloop;
    cbn [mbind exc_bind]; [| |discriminate].
  - intros [= <-]. exact (get_title_zh_loop_Some _ _ _ Hloop).
  - unfold has_chinese. intros Hz. simpl in Hz.
    destruct (existsb _CJK_RE name) eqn:Hcjk; [|discriminate Hz].
    injection Hz as <-. split; [|eauto].
    apply existsb_exists in Hcjk as (c & Hc & Hcjk).
    apply list_elem_of_In in Hc.
    pose proof (strip_keeps name c Hc (cjk_not_space c Hcjk)) as Hin.
    destruct (strip name); [inversion Hin|reflexivity].
Qed.

(** X2: whatever the tags are, a candidate returned by [get_title_zh] is
    not empty and has no whitespace at either end; so the tests [if zh]
    and [if not get_title_zh(...)] of the callers tell exactly whether a
    candidate exists. *)
Theorem get_title_zh_candidate_not_blank (tags : pyval) (name z : pystr) :
  get_title_zh tags name = Ok (Some z) ->
  z <> [] /\ trimmed z /\ zh_truthy (Some z) = true.
Proof.
  intros Hz. destruct (get_title_zh_Some tags name z Hz) as (Hne & s & ->).
  split; [apply nonempty_true, Hne|].
  split; [apply strip_trimmed|exact Hne].
Qed.

Lemma get_title_zh_candidate_not_blank_witness :
  Sample.riben <> [] /\ trimmed Sample.riben /\
  zh_truthy (Some Sample.riben) = true.
Proof.
  apply (get_title_zh_candidate_not_blank (PyDict ∅)
           (0x3000 :: Sample.riben)%Z Sample.riben).
  reflexivity.
Defined.

(** ** The list handed to the provider *)

Lemma fromkeys_fold_sublist (l acc : list pystr) :
  exists rest,
    fold_left (fun acc n => if bool_decide (n ∈ acc) then acc else acc ++ [n])
              l acc = acc ++ rest /\
    sublist rest l.
Proof.
  revert acc. induction l as [|n l IH]; intros acc; simpl.
  - exists []. split; [symmetry; apply app_nil_r|constructor].
  - case_bool_decide.
    + destruct (IH acc) as (rest & -> & Hsub).
      exists rest. split; [reflexivity|]. apply sublist_cons, Hsub.
    + destruct (IH (acc ++ [n])) as (rest & -> & Hsub).
      exists (n :: rest). split; [rewrite <- app_assoc; reflexivity|].
      apply sublist_skip, Hsub.
Qed.

(** X5: the list [unique] of [prime_translation_cache] is an
    order-preserving deduplication of its argument: a subsequence of
    [names], without repetition, that holds exactly the names that are
    non-empty and not yet keys of the cache. *)
Theorem unique_names_order_preserving
    (cache : gmap pystr pystr) (names : list pystr) :
  sublist (unique_names cache names) names /\
  NoDup (unique_names cache names) /\
  forall n, n ∈ unique_names cache names
            <-> n ∈ names /\ n <> [] /\ cache !! n = None.
Proof.
  split; [|split; [apply fromkeys_NoDup|apply unique_names_elem_of]].
  unfold unique_names, fromkeys.
  destruct (fromkeys_fold_sublist
              (filter (fun n => nonempty n = true /\ cache !! n = None) names)
              []) as (rest & -> & Hsub).
  simpl. etransitivity; [exact Hsub|]. apply sublist_filter.
Qed.

(** ** Loops that keep an invariant *)

Lemma for_each_preserves {A} (I : state -> Prop) (P : A -> Prop)
    (body : A -> M unit) (l : list A) :
  (forall x s, P x -> I s -> (body x s).1 = Ok tt /\ I (body x s).2) ->
  Forall P l ->
  forall s, I s -> (for_each l body s).1 = Ok tt /\ I (for_each l body s).2.
Proof.
  intros Hbody. induction 1 as [|x l Hx _ IH]; intros s Hs.
  - split; [reflexivity|exact Hs].
  - cbn [for_each]. rewrite M_bind_eq.
    destruct (Hbody x s Hx Hs) as [Hok Hinv].
    destruct (body x s) as [[[]|e] s1]; [|discriminate]. apply IH, Hinv.
Qed.

Lemma emits_ret {A} (Q : event -> Prop) (a : A) : emits Q (mret a : M A).
Proof. intros s. exists []. split; [symmetry; apply app_nil_r|constructor]. Qed.

Lemma emits_lift {A} (Q : event -> Prop) (r : exc A) : emits Q (lift r).
Proof. intros s. exists []. split; [symmetry; apply app_nil_r|constructor]. Qed.

Lemma emits_emit (Q : event -> Prop) (e : event) : Q e -> emits Q (emit e).
Proof. intros He s. exists [e]. split; [reflexivity|repeat constructor; exact He]. Qed.

Lemma emits_cache_set (Q : event -> Prop) (src tgt : pystr) :
  emits Q (cache_set src tgt).
Proof. intros s. exists []. split; [symmetry; apply app_nil_r|constructor]. Qed.

Lemma emits_bind {A B} (Q : event -> Prop) (m : M A) (f : A -> M B) :
  emits Q m -> (forall a, emits Q (f a)) -> emits Q (m ≫= f).
Proof.
  intros Hm Hf s. rewrite M_bind_eq. destruct (Hm s) as (tr1 & Ht1 & Hq1).
  destruct (m s) as [[a|e] s1]; cbn [snd] in *.
  - destruct (Hf a s1) as (tr2 & Ht2 & Hq2).
    exists (tr1 ++ tr2). rewrite Ht2, Ht1, app_assoc.
    split; [reflexivity|apply Forall_app; auto].
  - exists tr1. auto.
Qed.

Lemma emits_for_each {A} (Q : event -> Prop) (body : A -> M unit)
    (l : list A) :
  (forall x, emits Q (body x)) -> emits Q (for_each l body).
Proof.
  intros Hbody. induction l as [|x l IH]; cbn [for_each].
  - apply emits_ret.
  - apply emits_bind; [apply Hbody|]. intros _. exact IH.
Qed.

Lemma batches_app (tr1 tr2 : list event) :
  batches (tr1 ++ tr2) = batches tr1 ++ batches tr2.
Proof.
  induction tr1 as [|e tr1 IH]; [reflexivity|].
  destruct e; simpl; rewrite IH; reflexivity.
Qed.

Lemma handled_app (tr1 tr2 : list event) :
  handled (tr1 ++ tr2) = handled tr1 ++ handled tr2.
Proof.
  induction tr1 as [|e tr1 IH]; [reflexivity|].
  destruct e as [[]| | | | |]; simpl; rewrite IH; reflexivity.
Qed.

Lemma year_dirs_app (tr1 tr2 : list event) :
  year_dirs (tr1 ++ tr2) = year_dirs tr1 ++ year_dirs tr2.
Proof.
  induction tr1 as [|e tr1 IH]; [reflexivity|].
  destruct e as [| |[]| | |]; simpl; rewrite IH; reflexivity.
Qed.

Lemma priming_events_quiet (tr : list event) :
  Forall priming_event tr ->
  written tr = [] /\ handled tr = [] /\ year_dirs tr = [].
Proof.
  induction 1 as [|e tr He _ (Hw & Hh & Hd)]; [repeat split|].
  destruct e as [[]| |[]| | |]; simpl in *; try contradiction; auto.
Qed.

(** ** The batches *)

Lemma chunks_bounds (unique : list pystr) :
  Forall (fun chunk => 0 < length chunk <= BATCH) (chunks unique) /\
  length (chunks unique) = (length unique + BATCH - 1) / BATCH.
Proof.
  unfold chunks, py_range_step. split.
  - apply Forall_forall. intros chunk Hin.
    apply list_elem_of_fmap in Hin as (i & -> & Hin).
    apply list_elem_of_fmap in Hin as (k & -> & Hin).
    apply elem_of_seq in Hin. unfold slice.
    rewrite length_take, length_drop. unfold BATCH in *.
    pose proof (Nat.div_mod_eq (length unique + 50 - 1) 50) as Hd.
    pose proof (Nat.mod_upper_bound (length unique + 50 - 1) 50) as Hm.
    lia.
  - rewrite !length_map, length_seq. reflexivity.
Qed.

(** ** Where the entries of the cache come from *)

Lemma retry_events_no_batch (tr : list event) :
  Forall retry_event tr -> batches tr = [] /\ Forall priming_event tr.
Proof.
  induction 1 as [|e tr He _ [Hb Hp]]; [split; constructor|].
  destruct e as [[]| | | | |]; simpl in *; try contradiction;
    (split; [exact Hb|constructor; [exact I|exact Hp]]).
Qed.

Section Priming.

Variable translate_batch : list event -> list pystr -> option (list pystr).
Variable translate : list event -> pystr -> option pystr.

(** X6: [prime_translation_cache] never raises, and every entry of the
    cache afterwards either was in the cache before, unchanged, or
    belongs to a non-empty name that was not a key and holds a non-empty
    value that a call of this very priming produced for that name: the
    answer, at the name's position, of a batched call that succeeded, or,
    after a batched call that held the name and failed, the answer of
    the individual call for the name (the name itself when an answer is
    empty), or the name itself when that individual call failed too.
    So the priming never stores an empty translation. *)
Theorem cache_entries_have_provenance (names : list pystr) (s : state) :
  let r := prime_translation_cache translate_batch translate names s in
  r.1 = Ok tt /\
  forall k v,
    _cache r.2 !! k = Some v ->
    _cache s !! k = Some v \/
    (k ∈ names /\ k <> [] /\ _cache s !! k = None /\ v <> [] /\
     resolved translate_batch translate (trace s) (trace r.2) k v).
Proof.
  destruct (prime_provenance translate_batch translate names s)
    as [Hok Hprov].
  cbv zeta. split; [exact Hok|]. intros k v Hk.
  destruct (Hprov k v Hk) as [Hold|[Hin Hst]]; [left; exact Hold|right].
  apply unique_names_elem_of in Hin as (Hn & Hne & Hnone).
  split; [exact Hn|]. split; [exact Hne|]. split; [exact Hnone|].
  split; [|exact Hst].
  exact (resolved_nonempty translate_batch translate _ _ k v Hne Hst).
Qed.

(** Under a provider that answers label by label, every label handed
    over ends up in the cache with its answer. *)
Lemma prime_answers (f : pystr -> pystr)
    (names : list pystr) (s : state) :
  (forall h chunk results,
     translate_batch h chunk = Some results -> results = map f chunk) ->
  (forall h k, translate h k = Some (f k)) ->
  forall k,
    k ∈ unique_names (_cache s) names ->
    _cache (prime_translation_cache translate_batch translate names s).2 !! k
    = Some (str_or (f k) k).
Proof.
  intros Hbatch Hone k Hu.
  destruct (prime_translation_cache_spec translate_batch translate names s)
    as (c & tr & Hrun & _ & Hin & _).
  destruct (prime_provenance translate_batch translate names s)
    as [_ Hprov].
  unfold runs_to in Hrun. rewrite Hrun in *. cbn [snd _cache trace] in *.
  destruct (Hin (fun h chunk results Hb =>
                   eq_ind_r (fun r => length chunk <= length r)
                     (eq_ind_r (fun n => length chunk <= n) (le_n _)
                        (length_map f chunk))
                     (Hbatch h chunk results Hb)) k Hu) as [v Hv].
  rewrite Hv. f_equal.
  pose proof (proj1 (unique_names_elem_of _ _ _) Hu) as (_ & _ & Hnone).
  destruct (Hprov k v Hv) as [Hold|[_ Hst]]; [congruence|].
  destruct Hst as [(h & ch & r & i & a & _ & [_ Hb] & Hc & Hr & ->)
                  |(hb & ch & h & r & _ & _ & _ & _ & [_ Hr] & ->)].
  - rewrite (Hbatch _ _ _ Hb) in Hr.
    rewrite list_lookup_fmap, Hc in Hr. injection Hr as <-. reflexivity.
  - rewrite Hone in Hr. subst r. reflexivity.
Qed.

(** X7: when every answer of the provider for a label [k] is [f k]
    (the batched call, whenever it succeeds, answers label by label,
    and the individual call succeeds), the cache after
    [prime_translation_cache] is the cache before, extended by
    [f k or k] under every non-empty name [k] that was not a key,
    whichever batched calls fail. *)
Theorem cache_holds_the_answers (f : pystr -> pystr)
    (names : list pystr) (s : state) :
  (forall h chunk results,
     translate_batch h chunk = Some results -> results = map f chunk) ->
  (forall h k, translate h k = Some (f k)) ->
  forall k,
    (k ∈ names -> k <> [] -> _cache s !! k = None ->
     _cache (prime_translation_cache translate_batch translate names s).2 !! k
       = Some (str_or (f k) k)) /\
    (k ∉ unique_names (_cache s) names ->
     _cache (prime_translation_cache translate_batch translate names s).2 !! k
       = _cache s !! k).
Proof.
  intros Hbatch Hone k. split.
  - intros Hk Hne Hnone. apply (prime_answers f names s Hbatch Hone).
    apply unique_names_elem_of. auto.
  - destruct (prime_translation_cache_spec translate_batch translate names s)
      as (c & tr & Hrun & [Hfr _ _ _ _ _] & _).
    unfold runs_to in Hrun. rewrite Hrun. cbn [snd _cache]. apply Hfr.
Qed.

(** X1: [prime_translation_cache] keeps every entry the cache already
    has, and under the provider contract a second call with the same
    names does nothing but print that no translation is needed: no
    provider call, no change of the cache. *)
Theorem priming_is_idempotent (names : list pystr) (s : state) :
  batch_contract translate_batch ->
  let s1 := (prime_translation_cache translate_batch translate names s).2 in
  (forall k, is_Some (_cache s !! k) -> _cache s1 !! k = _cache s !! k) /\
  prime_translation_cache translate_batch translate names s1
  = (Ok tt, {| _cache := _cache s1;
               trace := trace s1 ++ [EvPrint MsgNoTranslationNeeded] |}).
Proof.
  intros Hc s1. unfold s1. clear s1.
  destruct (prime_translation_cache_spec translate_batch translate names s)
    as (c & tr & Hrun & [Hfr Hmo _ _ _ _] & Hin & _).
  unfold runs_to in Hrun. rewrite Hrun. cbn [snd _cache trace].
  split.
  - intros k Hk. apply Hfr. intros Hu.
    apply unique_names_elem_of in Hu as (_ & _ & Hnone).
    rewrite Hnone in Hk. destruct Hk as [? ?]. discriminate.
  - assert (Hnil : unique_names c names = []).
    { destruct (unique_names c names) as [|n l] eqn:Hu; [reflexivity|].
      assert (Hn : n ∈ unique_names c names) by (rewrite Hu; left).
      apply unique_names_elem_of in Hn as (Hn & Hne & Hnone).
      assert (Hsome : is_Some (c !! n)).
      { destruct (_cache s !! n) as [v|] eqn:Hold.
        - apply Hmo. rewrite Hold. eauto.
        - apply (Hin Hc). apply unique_names_elem_of. auto. }
      rewrite Hnone in Hsome. destruct Hsome as [? ?]. discriminate. }
    change (match unique_names c names with
            | [] => print MsgNoTranslationNeeded
            | _ =>
                print (MsgTranslating (length (unique_names c names)));;
                for_each (py_range_step (length (unique_names c names)) BATCH)
                  (fun i => translate_chunk translate_batch translate
                              (slice (unique_names c names) i (i + BATCH)));;
                print MsgTranslationComplete
            end {| _cache := c; trace := trace s ++ tr |}
            = (Ok tt, {| _cache := c;
                         trace := (trace s ++ tr)
                                  ++ [EvPrint MsgNoTranslationNeeded] |})).
    rewrite Hnil. reflexivity.
Qed.

Lemma translate_chunk_trace (chunk : list pystr) (s : state) :
  exists tr,
    trace (translate_chunk translate_batch translate chunk s).2
    = trace s ++ EvTranslateBatch chunk :: tr /\
    Forall retry_event tr.
Proof.
  unfold translate_chunk. rewrite M_bind_eq. unfold call_translate_batch.
  set (s1 := {| _cache := _cache s;
                trace := trace s ++ [EvTranslateBatch chunk] |}).
  assert (Hq : emits retry_event
                 (match translate_batch (trace s) chunk with
                  | Some results =>
                      for_each (zip chunk results) (fun '(src, tgt) =>
                        cache_set src (str_or tgt src))
                  | None =>
                      print MsgBatchFailed;;
                      translate_one_by_one translate chunk
                  end)).
  { destruct (translate_batch (trace s) chunk).
    - apply emits_for_each. intros [src tgt]. apply emits_cache_set.
    - apply emits_bind; [apply emits_emit; exact I|]. intros _.
      apply emits_for_each. intros src.
      apply emits_bind.
      + intros s2. exists [EvTranslate src]. split; [reflexivity|].
        repeat constructor.
      + intros [tgt|]; [apply emits_cache_set|].
        apply emits_bind; [apply emits_emit; exact I|]. intros _.
        apply emits_cache_set. }
  destruct (Hq s1) as (tr & Htr & Hall). exists tr.
  split; [|exact Hall]. rewrite Htr. unfold s1. cbn [trace].
  rewrite <- app_assoc. reflexivity.
Qed.

Lemma translate_chunks_trace (cs : list (list pystr)) (s : state) :
  exists tr,
    trace (for_each cs (translate_chunk translate_batch translate) s).2
    = trace s ++ tr /\
    batches tr = cs /\ Forall priming_event tr.
Proof.
  revert s. induction cs as [|chunk cs IH]; intros s.
  - exists []. split; [symmetry; apply app_nil_r|split; constructor].
  - cbn [for_each]. rewrite M_bind_eq.
    destruct (translate_chunk_trace chunk s) as (tr1 & Ht1 & Hq1).
    destruct (translate_chunk_spec translate_batch translate chunk s)
      as (c1 & tr1' & Hrun & _).
    unfold runs_to in Hrun. rewrite Hrun in *. cbn [snd trace] in Ht1.
    destruct (IH {| _cache := c1; trace := trace s ++ tr1' |})
      as (tr2 & Ht2 & Hb2 & Hq2).
    cbn [trace] in Ht2.
    destruct (retry_events_no_batch tr1 Hq1) as [Hb1 Hp1].
    exists (EvTranslateBatch chunk :: tr1 ++ tr2).
    rewrite Ht2, Ht1. split; [rewrite <- app_assoc; reflexivity|]. split.
    + cbn [batches]. rewrite batches_app, Hb1, Hb2. reflexivity.
    + constructor; [exact I|]. apply Forall_app. auto.
Qed.

Lemma prime_trace (names : list pystr) (s : state) :
  exists tr,
    trace (prime_translation_cache translate_batch translate names s).2
    = trace s ++ tr /\
    batches tr = chunks (unique_names (_cache s) names) /\
    Forall priming_event tr.
Proof.
  set (unique := unique_names (_cache s) names).
  change (prime_translation_cache translate_batch translate names s)
    with (match unique with
          | [] => print MsgNoTranslationNeeded
          | _ =>
              print (MsgTranslating (length unique));;
              for_each (py_range_step (length unique) BATCH)
                (fun i => translate_chunk translate_batch translate
                            (slice unique i (i + BATCH)));;
              print MsgTranslationComplete
          end s).
  pose proof (for_each_map (fun i => slice unique i (i + BATCH))
                (translate_chunk translate_batch translate)
                (py_range_step (length unique) BATCH)) as Hmap.
  fold (chunks unique) in Hmap. cbv beta in Hmap.
  destruct (decide (unique = [])) as [Hnil|Hne].
  - rewrite Hnil. exists [EvPrint MsgNoTranslationNeeded].
    split; [reflexivity|]. split; [reflexivity|repeat constructor].
  - destruct unique as [|n0 unique'] eqn:Hu; [congruence|].
    rewrite <- Hu in *. clear Hne.
    rewrite M_bind_eq. cbn [print emit]. rewrite M_bind_eq, <- Hmap.
    set (s1 := {| _cache := _cache s;
                  trace := trace s ++ [EvPrint (MsgTranslating (length unique))] |}).
    destruct (translate_chunks_trace (chunks unique) s1)
      as (tr & Htr & Hb & Hq).
    destruct (translate_chunks_spec translate_batch translate
                (chunks unique) s1) as (c & tr' & Hrun & _).
    unfold runs_to in Hrun. rewrite Hrun in *. cbn [snd trace] in Htr.
    apply app_inv_head in Htr. subst tr'.
    exists ([EvPrint (MsgTranslating (length unique))] ++ tr
            ++ [EvPrint MsgTranslationComplete]).
    split; [|split].
    + unfold s1. cbn [print emit snd trace]. rewrite <- !app_assoc.
      reflexivity.
    + rewrite !batches_app, Hb. simpl. apply app_nil_r.
    + apply Forall_app. split; [repeat constructor|].
      apply Forall_app. split; [exact Hq|repeat constructor].
Qed.

(** X4: [prime_translation_cache] cuts the labels to translate into
    consecutive batches: every batched call carries at least one and at
    most 50 labels, the number of batched calls is the number of labels
    divided by 50, rounded up, and the batches put end to end are the
    deduplicated labels. *)
Theorem batches_hold_at_most_50 (names : list pystr) (s : state) :
  exists tr,
    trace (prime_translation_cache translate_batch translate names s).2
    = trace s ++ tr /\
    Forall (fun chunk => 0 < length chunk <= 50) (batches tr) /\
    length (batches tr)
    = (length (unique_names (_cache s) names) + 49) / 50 /\
    concat (batches tr) = unique_names (_cache s) names.
Proof.
  destruct (prime_trace names s) as (tr & Htr & Hb & _).
  destruct (chunks_bounds (unique_names (_cache s) names)) as [Hall Hlen].
  exists tr. rewrite Hb. split; [exact Htr|]. split; [exact Hall|].
  split; [|apply concat_chunks].
  rewrite Hlen. unfold BATCH. f_equal. lia.
Qed.

End Priming.

(** ** A run, phase by phase *)

Lemma elem_of_py_range (start stop y : Z) :
  y ∈ py_range start stop <-> (start <= y < stop)%Z.
Proof.
  unfold py_range. rewrite list_elem_of_fmap. split.
  - intros (i & -> & Hi). apply elem_of_seq in Hi. lia.
  - intros Hy. exists (Z.to_nat (y - start)). split; [lia|].
    apply elem_of_seq. lia.
Qed.

Lemma handled_reads (years : list Z) : handled (map EvRead years) = [].
Proof. induction years; simpl; auto. Qed.

Lemma year_dirs_reads (years : list Z) : year_dirs (map EvRead years) = [].
Proof. induction years; simpl; auto. Qed.

Section RunPhases.

Variable json_loads : pystr -> option pyval.
Variable py_str : pyval -> pystr.
Variable input_files : Z -> option GeoDataFrame.
Variable translate_batch : list event -> list pystr -> option (list pystr).
Variable translate : list event -> pystr -> option pystr.

(** A run over a valid range, as the composition of its phases. *)
Lemma run_unfold (start end_ : Z) :
  (start <= end_)%Z ->
  let years := py_range start (end_ + 1) in
  let s3 := {| _cache := ∅;
               trace := EvPrint (MsgPhase1 (length years))
                        :: map EvRead (existing input_files years)
                        ++ [EvPrint MsgPhase2] |} in
  match needs_of_years json_loads py_str input_files years [] with
  | Raise e =>
      exists tr_scan,
        run json_loads py_str input_files translate_batch translate start end_
        = (Raise e, {| _cache := ∅;
                       trace := EvPrint (MsgPhase1 (length years)) :: tr_scan |})
        /\ Forall (fun ev => exists y, ev = EvRead y) tr_scan
  | Ok needs =>
      let s4 :=
        (prime_translation_cache translate_batch translate needs s3).2 in
      let s5 := {| _cache := _cache s4;
                   trace := (trace s4 ++ [EvPrint MsgPhase3])
                            ++ [EvMkdir None] |} in
      let res := sum_process_year json_loads py_str input_files years 0 s5 in
      run json_loads py_str input_files translate_batch translate start end_
      = match res.1 with
        | Ok w => (Ok tt,
                   {| _cache := _cache res.2;
                      trace := trace res.2
                               ++ [EvPrint (MsgDone w (length years))] |})
        | Raise e => (Raise e, res.2)
        end
  end.
Proof.
  intros Hle years s3. unfold run, main.
  destruct (Z.gtb_spec start end_) as [Hgt|_]; [lia|].
  fold years. rewrite M_bind_eq. cbn [print emit]. rewrite M_bind_eq.
  match goal with |- context [scan_years _ _ _ _ _ ?s] =>
    destruct (scan_years_spec json_loads py_str input_files years [] s)
      as (tr_scan & Hscan & Hreads & Hok)
  end.
  unfold steps_to in Hscan. rewrite Hscan.
  cbn [trace _cache initial_state app].
  destruct (needs_of_years json_loads py_str input_files years [])
    as [needs|e].
  - rewrite (Hok needs eq_refl). cbv beta iota.
    set (s4 := (prime_translation_cache translate_batch translate
                  needs s3).2).
    set (s5 := {| _cache := _cache s4;
                  trace := (trace s4 ++ [EvPrint MsgPhase3])
                           ++ [EvMkdir None] |}).
    set (res := sum_process_year json_loads py_str input_files years 0 s5).
    cbv zeta.
    rewrite M_bind_eq. cbn [print emit trace _cache].
    rewrite M_bind_eq.
    change ({| _cache := ∅;
               trace := (EvPrint (MsgPhase1 (length years))
                         :: map EvRead (existing input_files years))
                        ++ [EvPrint MsgPhase2] |}) with s3.
    destruct (prime_translation_cache_spec translate_batch translate needs s3)
      as (c & tr & Hrun & _).
    unfold runs_to in Hrun.
    assert (Hs4 : s4 = {| _cache := c; trace := trace s3 ++ tr |})
      by (unfold s4; rewrite Hrun; reflexivity).
    rewrite Hrun. rewrite M_bind_eq. cbn [print emit trace _cache].
    rewrite M_bind_eq. cbn [emit trace _cache]. rewrite M_bind_eq.
    assert (Hs5 : s5 = {| _cache := c;
                          trace := ((trace s3 ++ tr) ++ [EvPrint MsgPhase3])
                                   ++ [EvMkdir None] |})
      by (unfold s5; rewrite Hs4; reflexivity).
    unfold res. rewrite Hs5.
    match goal with |- context [sum_process_year _ _ _ years 0%Z ?s] =>
      generalize (sum_process_year json_loads py_str input_files years 0 s)
    end.
    intros [[w|e] s6]; reflexivity.
  - exists tr_scan. split; [reflexivity|].
    eapply Forall_impl; [exact Hreads|]. intros ev (y & -> & _). eauto.
Qed.

(** Phase 3 leaves the cache alone. *)
Lemma sum_process_year_cache (years : list Z) (acc : Z) (s : state) :
  _cache (sum_process_year json_loads py_str input_files years acc s).2
  = _cache s.
Proof.
  destruct (sum_process_year_spec json_loads py_str input_files years acc s)
    as (r & tr & Hrun & _).
  unfold steps_to in Hrun. rewrite Hrun. reflexivity.
Qed.

(** The cache at the end of a run is the cache as the priming left it. *)
Lemma run_cache (start end_ : Z) (needs : list pystr) :
  (start <= end_)%Z ->
  needs_of_years json_loads py_str input_files (py_range start (end_ + 1)) []
    = Ok needs ->
  _cache (run json_loads py_str input_files translate_batch translate
              start end_).2
  = _cache (prime_translation_cache translate_batch translate needs
              {| _cache := ∅;
                 trace := EvPrint (MsgPhase1
                                     (length (py_range start (end_ + 1))))
                          :: map EvRead
                               (existing input_files
                                  (py_range start (end_ + 1)))
                          ++ [EvPrint MsgPhase2] |}).2.
Proof.
  intros Hle Hneeds. pose proof (run_unfold start end_ Hle) as Hrun.
  cbv zeta in Hrun. rewrite Hneeds in Hrun. rewrite Hrun.
  match goal with |- context [sum_process_year _ _ _ ?ys ?a ?s] =>
    pose proof (sum_process_year_cache ys a s) as Hc;
    destruct (sum_process_year json_loads py_str input_files ys a s)
      as [[w|e] s6]
  end; cbn [fst snd _cache] in *; exact Hc.
Qed.

(** A run that completes had a valid range and a discovery that did not
    raise. *)
Lemma run_completed (start end_ : Z) :
  (run json_loads py_str input_files translate_batch translate
       start end_).1 = Ok tt ->
  (start <= end_)%Z /\
  exists needs,
    needs_of_years json_loads py_str input_files
      (py_range start (end_ + 1)) [] = Ok needs.
Proof.
  intros Hok. destruct (Z.le_gt_cases start end_) as [Hle|Hgt].
  - split; [exact Hle|]. pose proof (run_unfold start end_ Hle) as Hrun.
    cbv zeta in Hrun.
    destruct (needs_of_years json_loads py_str input_files
                (py_range start (end_ + 1)) []) as [needs|e]; [eauto|].
    destruct Hrun as (tr_scan & Hrun & _). rewrite Hrun in Hok. discriminate.
  - rewrite run_invalid_range in Hok by lia. discriminate.
Qed.

(** The provider calls of a whole run: the calls of the priming, and
    nothing else. *)
Lemma run_calls (start end_ : Z) :
  exists cs,
    calls translate_batch translate [] ∅
      (_cache (run json_loads py_str input_files translate_batch translate
                   start end_).2)
      (trace (run json_loads py_str input_files translate_batch translate
                  start end_).2) cs /\
    (forall k, k ∉ concat cs ->
       _cache (run json_loads py_str input_files translate_batch translate
                   start end_).2 !! k = None).
Proof.
  destruct (Z.le_gt_cases start end_) as [Hle|Hgt].
  - pose proof (run_unfold start end_ Hle) as Hrun. cbv zeta in Hrun.
    destruct (needs_of_years json_loads py_str input_files
                (py_range start (end_ + 1)) []) as [needs|e] eqn:Hneeds.
    + match type of Hrun with
      | context [prime_translation_cache _ _ _ ?s] =>
          destruct (prime_calls translate_batch translate needs s)
            as (_ & (trp & Htrp & Hqp) & Hfr & Hcalls);
          set (s3 := s) in *
      end.
      cbv zeta in *.
      set (s4 := (prime_translation_cache translate_batch translate
                    needs s3).2) in *.
      match type of Hrun with
      | context [sum_process_year _ _ _ ?ys ?a ?s] =>
          destruct (sum_process_year_spec json_loads py_str input_files
                      ys a s) as (r & tr & Hsteps & _ & Hds & _)
      end.
      unfold steps_to in Hsteps. rewrite Hsteps in Hrun.
      cbn [fst snd _cache trace] in Hrun.
      assert (Hshape : exists rest,
                trace (run json_loads py_str input_files translate_batch
                           translate start end_).2 = trace s4 ++ rest /\
                Forall (fun e => ~ provider_event e) rest /\
                _cache (run json_loads py_str input_files translate_batch
                            translate start end_).2 = _cache s4).
      { assert (Hq : Forall (fun e => ~ provider_event e) tr).
        { eapply Forall_impl; [exact Hds|].
          intros [| | | | |]; simpl; tauto. }
        rewrite Hrun. destruct r as [w|e]; cbn [snd trace _cache].
        - exists ([EvPrint MsgPhase3; EvMkdir None] ++ tr
                  ++ [EvPrint (MsgDone w (length (py_range start (end_ + 1))))]).
          split; [rewrite <- !app_assoc; reflexivity|]. split; [|reflexivity].
          constructor; [intros []|]. constructor; [intros []|].
          apply Forall_app. split; [exact Hq|].
          constructor; [intros []|constructor].
        - exists ([EvPrint MsgPhase3; EvMkdir None] ++ tr).
          split; [rewrite <- !app_assoc; reflexivity|]. split; [|reflexivity].
          constructor; [intros []|]. constructor; [intros []|]. exact Hq. }
      destruct Hshape as (rest & Ht & Hq & Hc). rewrite Ht, Hc.
      exists (chunks (unique_names ∅ needs)). split.
      * apply (calls_extend translate_batch translate (trace s3) (trace s4)
                 rest ∅ (_cache s4) _ Hcalls).
        -- rewrite Htrp. apply prefix_app_r. reflexivity.
        -- unfold s3. cbn [trace]. constructor; [intros []|].
           apply Forall_app. split; [|constructor; [intros []|constructor]].
           apply Forall_fmap, Forall_forall. intros y _ [].
        -- exact Hq.
      * intros k Hk. rewrite concat_chunks in Hk.
        rewrite (Hfr k Hk). apply lookup_empty.
    + destruct Hrun as (tr_scan & Hrun & Hreads). rewrite Hrun.
      cbn [snd trace _cache]. exists []. split.
      * apply calls_none. constructor; [intros []|].
        eapply Forall_impl; [exact Hreads|]. intros ev [y ->] [].
      * intros k _. apply lookup_empty.
  - rewrite (run_invalid_range json_loads py_str input_files translate_batch
               translate start end_) by lia.
    cbn [snd trace _cache]. exists []. split.
    + apply calls_none. constructor; [intros []|constructor].
    + intros k _. apply lookup_empty.
Qed.

(** C1, amended: in a run no label is handed to the batched call more
    than once and none to the individual call more than once.  A label
    reaches the individual call only after a batched call of the run
    that held it and failed (the one-by-one retry of that batch), so
    when no batched call of the run fails there is no individual call
    and a label is passed at most once.  The labels of the batched calls
    are, in order, the deduplicated non-empty labels that phase 1 pooled
    from all requested years, and every read of phase 1 precedes the
    first translation call; [prime_translation_cache] hands over exactly
    the non-empty labels not yet in the cache, each once. *)
Theorem labels_translated_at_most_once (start end_ : Z) (label : pystr) :
  let years := py_range start (end_ + 1) in
  let tr := trace (run json_loads py_str input_files translate_batch translate
                       start end_).2 in
  occurrences label (batched tr) <= 1 /\
  occurrences label (singles tr) <= 1 /\
  sublist (singles tr) (batched tr) /\
  (forall h,
     (h ++ [EvTranslate label]) `prefix_of` tr ->
     exists hb chunk,
       (hb ++ [EvTranslateBatch chunk]) `prefix_of` h /\
       translate_batch hb chunk = None /\ label ∈ chunk) /\
  ((forall h chunk,
      (h ++ [EvTranslateBatch chunk]) `prefix_of` tr ->
      translate_batch h chunk <> None) ->
   singles tr = [] /\ times_passed label tr <= 1) /\
  (forall needs,
     (start <= end_)%Z ->
     needs_of_years json_loads py_str input_files years [] = Ok needs ->
     batched tr = unique_names ∅ needs /\
     exists rest,
       tr = EvPrint (MsgPhase1 (length years))
            :: map EvRead (existing input_files years)
            ++ EvPrint MsgPhase2 :: rest) /\
  (forall names s,
     exists c tr',
       prime_translation_cache translate_batch translate names s
         = (Ok tt, {| _cache := c; trace := trace s ++ tr' |}) /\
       batched tr' = unique_names (_cache s) names /\
       NoDup (unique_names (_cache s) names) /\
       forall n, n ∈ unique_names (_cache s) names ->
                 n ∈ names /\ n <> [] /\ _cache s !! n = None).
Proof.
  intros years tr. unfold tr, years. clear tr years.
  destruct (run_calls start end_) as (cs & [_ _ Hsingle] & _).
  destruct (run_facts json_loads py_str input_files translate_batch translate
              start end_)
    as (r & c & tr & Hrun & _ & Hnd & Hsub & _ & _ & _).
  rewrite Hrun in Hsingle. cbn [snd trace _cache] in Hsingle.
  assert (Hb : occurrences label (batched tr) <= 1)
    by (apply occurrences_NoDup, Hnd).
  assert (Hs : occurrences label (singles tr) <= 1).
  { pose proof (occurrences_sublist label _ _ Hsub). lia. }
  split; [rewrite Hrun; exact Hb|]. split; [rewrite Hrun; exact Hs|].
  split; [rewrite Hrun; exact Hsub|]. split.
  { rewrite Hrun. cbn [snd trace]. intros h Hp.
    destruct (Hsingle h label (prefix_nil _) Hp)
      as [(hb & chunk & _ & Hpb & Hnone & Hin) _].
    exists hb, chunk. auto. }
  split.
  { rewrite Hrun. cbn [snd trace]. intros Hnf.
    assert (Hnil : singles tr = []).
    { destruct (singles tr) as [|src l] eqn:Hs'; [reflexivity|]. exfalso.
      destruct (singles_elem_of tr src) as [h Hp]; [rewrite Hs'; left|].
      destruct (Hsingle h src (prefix_nil _) Hp)
        as [(hb & chunk & _ & Hpb & Hnone & _) _].
      apply (Hnf hb chunk); [|exact Hnone].
      etransitivity; [exact Hpb|]. etransitivity; [|exact Hp].
      apply prefix_app_r. reflexivity. }
    split; [exact Hnil|]. unfold times_passed. rewrite Hnil.
    unfold occurrences at 2. simpl. lia. }
  split.
  { intros needs Hle Hneeds.
    destruct (run_spec json_loads py_str input_files translate_batch translate
                start end_ Hle)
      as (r' & c' & tr' & Hrun' & _ & _ & _ & _ & _ & _ & Hpool & _).
    rewrite Hrun'. cbn [snd trace].
    destruct (Hpool needs Hneeds) as (Hbat & rest & Htr & _).
    split; [exact Hbat|]. exists rest. exact Htr. }
  intros names s.
  destruct (prime_translation_cache_spec translate_batch translate names s)
    as (c1 & tr1 & Hrun1 & [_ _ Hb1 _ _ _] & _).
  exists c1, tr1. split; [exact Hrun1|]. split; [exact Hb1|].
  split; [apply fromkeys_NoDup|].
  intros n Hn. apply unique_names_elem_of in Hn. exact Hn.
Qed.

End RunPhases.

(** ** What the resolver raises *)

Lemma attr_only_bind {A B} (m : exc A) (f : A -> exc B) :
  attr_only m -> (forall a, attr_only (f a)) -> attr_only (m ≫= f).
Proof. destruct m as [a|e]; simpl; auto. Qed.

Lemma attr_only_py_get (v : pyval) (key : pystr) : attr_only (py_get v key).
Proof. destruct v; exact I. Qed.

Lemma attr_only_py_strip (v : pyval) : attr_only (py_strip v).
Proof. destruct v; exact I. Qed.

Lemma attr_only_get_title_en (tags : pyval) (name : pystr) :
  attr_only (get_title_en tags name).
Proof.
  apply attr_only_bind; [apply attr_only_py_get|].
  intros v. apply attr_only_py_strip.
Qed.

Lemma attr_only_get_title_zh (tags : pyval) (name : pystr) :
  attr_only (get_title_zh tags name).
Proof.
  apply attr_only_bind.
  - induction ZH_KEYS as [|key keys IH]; [exact I|].
    cbn [get_title_zh_loop].
    apply attr_only_bind; [apply attr_only_py_get|]. intros v.
    apply attr_only_bind; [apply attr_only_py_strip|]. intros val.
    destruct (nonempty val); [exact I|exact IH].
  - intros [val|]; [exact I|]. destruct (has_chinese _); exact I.
Qed.

Lemma get_title_zh_not_dict (tags : pyval) (name : pystr) :
  is_dict tags = false -> get_title_zh tags name = Raise AttributeError.
Proof. destruct tags; try reflexivity. discriminate. Qed.

Lemma get_title_en_not_dict (tags : pyval) (name : pystr) :
  is_dict tags = false -> get_title_en tags name = Raise AttributeError.
Proof. destruct tags; try reflexivity. discriminate. Qed.

(** ** Discovery *)

Section Discovery.

Variable json_loads : pystr -> option pyval.
Variable py_str : pyval -> pystr.
Variable input_files : Z -> option GeoDataFrame.

Lemma attr_only_scan_rows (rws : list (gmap pystr pyval))
    (needs : list pystr) :
  attr_only (scan_rows json_loads py_str rws needs).
Proof.
  revert needs. induction rws as [|row rws IH]; intros needs; [exact I|].
  cbn [scan_rows]. apply attr_only_bind; [apply attr_only_get_title_zh|].
  intros zh. destruct (zh_truthy zh); [apply IH|].
  apply attr_only_bind; [apply attr_only_get_title_en|].
  intros en. destruct (nonempty en); apply IH.
Qed.

Lemma scan_rows_bad_row (rws : list (gmap pystr pyval)) (needs : list pystr)
    (row : gmap pystr pyval) :
  row ∈ rws ->
  is_dict (parse_tags json_loads (row_get row (u "tags"))) = false ->
  scan_rows json_loads py_str rws needs = Raise AttributeError.
Proof.
  intros Hin Hbad. revert needs.
  induction rws as [|row0 rws IH]; intros needs; [inversion Hin|].
  cbn [scan_rows].
  apply elem_of_cons in Hin as [<-|Hin].
  - rewrite (get_title_zh_not_dict _ _ Hbad). reflexivity.
  - pose proof (attr_only_get_title_zh
                  (parse_tags json_loads (row_get row0 (u "tags")))
                  (raw_name py_str row0)) as Hzh.
    pose proof (attr_only_get_title_en
                  (parse_tags json_loads (row_get row0 (u "tags")))
                  (raw_name py_str row0)) as Hen.
    destruct (get_title_zh _ _) as [zh|[]]; try contradiction;
      [|reflexivity].
    cbn [mbind exc_bind]. destruct (zh_truthy zh); [apply IH, Hin|].
    destruct (get_title_en _ _) as [en|[]]; try contradiction;
      [|reflexivity].
    cbn [mbind exc_bind]. destruct (nonempty en); apply IH, Hin.
Qed.

Lemma needs_of_years_bad_row (years : list Z) (needs : list pystr)
    (year : Z) (gdf : GeoDataFrame) (row : gmap pystr pyval) :
  year ∈ years -> input_files year = Some gdf -> row ∈ rows gdf ->
  is_dict (parse_tags json_loads (row_get row (u "tags"))) = false ->
  needs_of_years json_loads py_str input_files years needs
  = Raise AttributeError.
Proof.
  intros Hy Hfile Hrow Hbad. revert needs.
  induction years as [|y years IH]; intros needs; [inversion Hy|].
  cbn [needs_of_years].
  destruct (decide (y = year)) as [->|Hne].
  - rewrite Hfile, (scan_rows_bad_row _ needs row Hrow Hbad). reflexivity.
  - apply elem_of_cons in Hy as [->|Hy]; [congruence|].
    destruct (input_files y) as [gdf'|]; [|apply IH, Hy].
    pose proof (attr_only_scan_rows (rows gdf') needs) as Hs.
    destruct (scan_rows _ _ _ _) as [needs1|[]]; try contradiction;
      [|reflexivity].
    apply IH, Hy.
Qed.

Lemma scan_rows_pool (rws : list (gmap pystr pyval))
    (needs needs' : list pystr) :
  scan_rows json_loads py_str rws needs = Ok needs' ->
  forall en,
    en ∈ needs' <->
    en ∈ needs \/
    exists row, row ∈ rws /\ needs_label json_loads py_str row en.
Proof.
  revert needs. induction rws as [|row0 rws IH]; intros needs.
  - intros [= <-] en. split; [auto|].
    intros [H|(row & H & _)]; [exact H|inversion H].
  - cbn [scan_rows].
    destruct (get_title_zh _ _) as [zh|e] eqn:Hzh; [|discriminate].
    cbn [mbind exc_bind].
    destruct (zh_truthy zh) eqn:Htr.
    + intros Hs en. rewrite (IH _ Hs en). split.
      * intros [H|(row & Hin & Hl)]; [auto|].
        right. exists row. split; [right; exact Hin|exact Hl].
      * intros [H|(row & Hin & Hl)]; [auto|].
        apply elem_of_cons in Hin as [->|Hin]; [|eauto].
        destruct Hl as (zh' & Hzh' & Htr' & _).
        rewrite Hzh in Hzh'. injection Hzh' as <-. congruence.
    + destruct (get_title_en _ _) as [en0|e] eqn:Hen; [|discriminate].
      cbn [mbind exc_bind].
      destruct (nonempty en0) eqn:Hne.
      * intros Hs en. rewrite (IH _ Hs en), elem_of_app,
          list_elem_of_singleton. split.
        -- intros [[H| ->]|(row & Hin & Hl)]; [auto| |].
           ++ right. exists row0. split; [left|].
              exists zh. repeat split; try assumption.
              apply nonempty_true, Hne.
           ++ right. exists row. split; [right; exact Hin|exact Hl].
        -- intros [H|(row & Hin & Hl)]; [auto|].
           apply elem_of_cons in Hin as [->|Hin]; [|eauto].
           destruct Hl as (zh' & _ & _ & Hen' & _).
           rewrite Hen in Hen'. injection Hen' as <-. auto.
      * intros Hs en. rewrite (IH _ Hs en). split.
        -- intros [H|(row & Hin & Hl)]; [auto|].
           right. exists row. split; [right; exact Hin|exact Hl].
        -- intros [H|(row & Hin & Hl)]; [auto|].
           apply elem_of_cons in Hin as [->|Hin]; [|eauto].
           destruct Hl as (zh' & _ & _ & Hen' & Hnil).
           rewrite Hen in Hen'. injection Hen' as <-.
           apply nonempty_false in Hne. contradiction.
Qed.

Lemma needs_of_years_pool (years : list Z) (needs needs' : list pystr) :
  needs_of_years json_loads py_str input_files years needs = Ok needs' ->
  forall en,
    en ∈ needs' <->
    en ∈ needs \/
    exists year gdf row,
      year ∈ years /\ input_files year = Some gdf /\ row ∈ rows gdf /\
      needs_label json_loads py_str row en.
Proof.
  revert needs. induction years as [|y years IH]; intros needs.
  - intros [= <-] en. split; [auto|].
    intros [H|(year & gdf & row & H & _)]; [exact H|inversion H].
  - cbn [needs_of_years]. destruct (input_files y) as [gdf0|] eqn:Hy.
    + destruct (scan_rows json_loads py_str (rows gdf0) needs)
        as [needs1|e] eqn:Hscan; [|discriminate].
      cbn [mbind exc_bind]. intros Hs en.
      rewrite (IH _ Hs en), (scan_rows_pool _ _ _ Hscan en). split.
      * intros [[H|(row & Hin & Hl)]|(year & gdf & row & Hin & Hf & Hr & Hl)].
        -- auto.
        -- right. exists y, gdf0, row. repeat split; try assumption. left.
        -- right. exists year, gdf, row. repeat split; try assumption.
           right. exact Hin.
      * intros [H|(year & gdf & row & Hin & Hf & Hr & Hl)]; [auto|].
        apply elem_of_cons in Hin as [->|Hin].
        -- left. right. exists row. split; [congruence|exact Hl].
        -- right. exists year, gdf, row. auto.
    + intros Hs en. rewrite (IH _ Hs en). split.
      * intros [H|(year & gdf & row & Hin & Hf & Hr & Hl)]; [auto|].
        right. exists year, gdf, row. repeat split; try assumption.
        right. exact Hin.
      * intros [H|(year & gdf & row & Hin & Hf & Hr & Hl)]; [auto|].
        apply elem_of_cons in Hin as [->|Hin]; [congruence|].
        right. exists year, gdf, row. auto.
Qed.

(** X8: when phase 1 completes, the labels it has pooled are exactly the
    non-empty English labels of the features without Chinese candidate
    in the existing datasets of the requested years: none is missed and
    nothing else is pooled. *)
Theorem discovery_is_sound_and_complete (years : list Z)
    (needs : list pystr) (en : pystr) :
  needs_of_years json_loads py_str input_files years [] = Ok needs ->
  (en ∈ needs <->
   exists year gdf row,
     year ∈ years /\ input_files year = Some gdf /\ row ∈ rows gdf /\
     needs_label json_loads py_str row en).
Proof.
  intros Hs. rewrite (needs_of_years_pool _ _ _ Hs en). split.
  - intros [H|H]; [inversion H|exact H].
  - auto.
Qed.

End Discovery.

(** ** Phase 3, year by year *)

Lemma NoDup_py_range (start stop : Z) : NoDup (py_range start stop).
Proof.
  unfold py_range.
  assert (Hinj : Inj eq eq (fun i : nat => (start + Z.of_nat i)%Z)).
  { intros i j Hij. lia. }
  apply (NoDup_fmap_2 (fun i : nat => (start + Z.of_nat i)%Z)), NoDup_seq.
Qed.

Section RunProperties.

Variable json_loads : pystr -> option pyval.
Variable py_str : pyval -> pystr.
Variable input_files : Z -> option GeoDataFrame.
Variable translate_batch : list event -> list pystr -> option (list pystr).
Variable translate : list event -> pystr -> option pystr.

Lemma sum_process_year_outcomes (years : list Z) (acc : Z) (s : state) :
  exists tr,
    trace (sum_process_year json_loads py_str input_files years acc s).2
    = trace s ++ tr /\
    (written tr).*1 `prefix_of` year_dirs tr /\
    year_dirs tr `prefix_of` existing input_files years /\
    length (year_dirs tr) <= S (length (written tr)) /\
    (forall w,
       (sum_process_year json_loads py_str input_files years acc s).1 = Ok w ->
       year_dirs tr = existing input_files years /\
       (written tr).*1 = existing input_files years /\
       handled tr
       = map (fun y => (y, bool_decide (is_Some (input_files y)))) years).
Proof.
  revert acc s. induction years as [|y years IH]; intros acc s.
  - exists []. split; [symmetry; apply app_nil_r|].
    repeat split; simpl; auto.
  - cbn [sum_process_year]. rewrite M_bind_eq.
    unfold existing. rewrite filter_cons. fold (existing input_files years).
    destruct (input_files y) as [gdf|] eqn:Hy.
    + rewrite decide_True by eauto.
      destruct (enrich_frame json_loads py_str (_cache s) gdf)
        as [out|e] eqn:Hen.
      * pose proof (process_year_written json_loads py_str input_files
                      y gdf out s Hy Hen) as Hp.
        unfold runs_to in Hp. rewrite Hp.
        match goal with |- context [sum_process_year _ _ _ years ?a ?s1] =>
          destruct (IH a s1) as (tr & Htr & Hpre & Hdirs & Hlen & Hok)
        end.
        cbn [trace] in Htr.
        exists ([EvMkdir (Some y); EvRead y; EvWrite y out;
                 EvPrint (MsgFeatures y (length (rows out)))] ++ tr).
        rewrite Htr, <- app_assoc. split; [reflexivity|].
        rewrite written_app, year_dirs_app, handled_app. cbn.
        split; [apply prefix_cons, Hpre|].
        split; [apply prefix_cons, Hdirs|]. split; [lia|].
        intros w Hw. destruct (Hok w Hw) as (-> & -> & ->).
        rewrite Hy, bool_decide_eq_true_2 by eauto. auto.
      * pose proof (process_year_raises json_loads py_str input_files
                      y gdf e s Hy Hen) as Hp.
        unfold steps_to in Hp. rewrite Hp.
        exists [EvMkdir (Some y); EvRead y]. split; [reflexivity|]. cbn.
        split; [apply prefix_nil|].
        split; [apply prefix_cons, prefix_nil|]. split; [lia|].
        discriminate.
    + rewrite decide_False by (intros [? ?]; discriminate).
      pose proof (process_year_missing json_loads py_str input_files
                    y s Hy) as Hp.
      unfold runs_to in Hp. rewrite Hp.
      match goal with |- context [sum_process_year _ _ _ years ?a ?s1] =>
        destruct (IH a s1) as (tr & Htr & Hpre & Hdirs & Hlen & Hok)
      end.
      cbn [trace] in Htr.
      exists ([EvPrint (MsgSkipping y)] ++ tr).
      rewrite Htr, <- app_assoc. split; [reflexivity|].
      rewrite written_app, year_dirs_app, handled_app. cbn.
      split; [exact Hpre|]. split; [exact Hdirs|]. split; [exact Hlen|].
      intros w Hw. destruct (Hok w Hw) as (-> & -> & ->).
      rewrite Hy, bool_decide_eq_false_2 by (intros [? ?]; discriminate).
      auto.
Qed.

(** X3: one feature whose tags decode to something that is no mapping,
    in any existing dataset of a valid range, aborts the whole run in
    phase 1 with an [AttributeError]: the trace holds the phase 1 message
    and reads only, so nothing is translated, no directory is created
    and no dataset is written, for any year. *)
Theorem malformed_tags_abort_the_run (start end_ year : Z)
    (gdf : GeoDataFrame) (row : gmap pystr pyval) :
  (start <= year <= end_)%Z ->
  input_files year = Some gdf ->
  row ∈ rows gdf ->
  is_dict (parse_tags json_loads (row_get row (u "tags"))) = false ->
  exists tr_scan,
    run json_loads py_str input_files translate_batch translate start end_
    = (Raise AttributeError,
       {| _cache := ∅;
          trace := EvPrint (MsgPhase1 (length (py_range start (end_ + 1))))
                   :: tr_scan |}) /\
    Forall (fun ev => exists y, ev = EvRead y) tr_scan.
Proof.
  intros Hy Hfile Hrow Hbad.
  assert (Hle : (start <= end_)%Z) by lia.
  pose proof (run_unfold json_loads py_str input_files translate_batch
                translate start end_ Hle) as Hrun.
  cbv zeta in Hrun.
  rewrite (needs_of_years_bad_row json_loads py_str input_files
             (py_range start (end_ + 1)) [] year gdf row) in Hrun;
    try assumption.
  apply elem_of_py_range. lia.
Qed.

(** The trace of a run that got through discovery. *)
Lemma run_trace (start end_ : Z) (needs : list pystr) :
  (start <= end_)%Z ->
  needs_of_years json_loads py_str input_files (py_range start (end_ + 1)) []
    = Ok needs ->
  exists tr_prime tr_proc tail s5,
    trace (run json_loads py_str input_files translate_batch translate
               start end_).2
    = (EvPrint (MsgPhase1 (length (py_range start (end_ + 1))))
       :: map EvRead (existing input_files (py_range start (end_ + 1)))
       ++ [EvPrint MsgPhase2])
      ++ tr_prime ++ [EvPrint MsgPhase3; EvMkdir None] ++ tr_proc ++ tail /\
    Forall priming_event tr_prime /\
    trace (sum_process_year json_loads py_str input_files
             (py_range start (end_ + 1)) 0 s5).2 = trace s5 ++ tr_proc /\
    (run json_loads py_str input_files translate_batch translate
         start end_).1
    = match (sum_process_year json_loads py_str input_files
               (py_range start (end_ + 1)) 0 s5).1 with
      | Ok _ => Ok tt
      | Raise e => Raise e
      end /\
    (tail = [] \/ exists w n, tail = [EvPrint (MsgDone w n)]).
Proof.
  intros Hle Hneeds.
  pose proof (run_unfold json_loads py_str input_files translate_batch
                translate start end_ Hle) as Hrun.
  cbv zeta in Hrun. rewrite Hneeds in Hrun.
  set (years := py_range start (end_ + 1)) in *.
  set (s3 := {| _cache := ∅;
                trace := EvPrint (MsgPhase1 (length years))
                         :: map EvRead (existing input_files years)
                         ++ [EvPrint MsgPhase2] |}) in *.
  destruct (prime_trace translate_batch translate needs s3)
    as (tr_prime & Hp & _ & Hq).
  set (s4 := (prime_translation_cache translate_batch translate needs s3).2)
    in *.
  set (s5 := {| _cache := _cache s4;
                trace := (trace s4 ++ [EvPrint MsgPhase3])
                         ++ [EvMkdir None] |}) in *.
  destruct (sum_process_year_outcomes years 0 s5) as (tr_proc & Ht & _).
  exists tr_prime, tr_proc.
  exists (match (sum_process_year json_loads py_str input_files
                   years 0 s5).1 with
          | Ok w => [EvPrint (MsgDone w (length years))]
          | Raise _ => []
          end), s5.
  rewrite Hrun.
  destruct (sum_process_year json_loads py_str input_files years 0 s5)
    as [[w|e] s6]; cbn [fst snd trace] in *; rewrite Ht; unfold s5;
    cbn [trace]; rewrite Hp; cbn [trace s3].
  - split; [rewrite <- !app_assoc; reflexivity|].
    repeat split; eauto.
  - split; [rewrite app_nil_r, <- !app_assoc; reflexivity|].
    repeat split; eauto.
Qed.

Lemma run_trace_outcomes (start end_ : Z) :
  let result :=
    run json_loads py_str input_files translate_batch translate start end_ in
  let years := py_range start (end_ + 1) in
  (written (trace result.2)).*1 `prefix_of` year_dirs (trace result.2) /\
  year_dirs (trace result.2) `prefix_of` existing input_files years /\
  length (year_dirs (trace result.2)) <= S (length (written (trace result.2)))
  /\
  (result.1 = Ok tt ->
   year_dirs (trace result.2) = existing input_files years /\
   (written (trace result.2)).*1 = existing input_files years /\
   handled (trace result.2)
   = map (fun y => (y, bool_decide (is_Some (input_files y)))) years).
Proof.
  intros result years. unfold result, years. clear result years.
  destruct (Z.le_gt_cases start end_) as [Hle|Hgt].
  - pose proof (run_unfold json_loads py_str input_files translate_batch
                  translate start end_ Hle) as Hrun.
    cbv zeta in Hrun.
    destruct (needs_of_years json_loads py_str input_files
                (py_range start (end_ + 1)) []) as [needs|e] eqn:Hneeds.
    + clear Hrun.
      destruct (run_trace start end_ needs Hle Hneeds)
        as (tr_prime & tr_proc & tail & s5 & Htr & Hq & Hproc & Hres & Htail).
      destruct (sum_process_year_outcomes (py_range start (end_ + 1)) 0 s5)
        as (tr_proc' & Hproc' & Hpre & Hdirs & Hlen & Hok).
      rewrite Hproc in Hproc'. apply app_inv_head in Hproc'. subst tr_proc'.
      destruct (priming_events_quiet tr_prime Hq) as (Hw1 & Hh1 & Hd1).
      assert (Ht : written tail = [] /\ handled tail = []
                   /\ year_dirs tail = []).
      { destruct Htail as [->|(w & n & ->)]; repeat split. }
      destruct Ht as (Hw2 & Hh2 & Hd2).
      rewrite Htr, Hres.
      rewrite !written_app, !year_dirs_app, !handled_app.
      rewrite Hw1, Hh1, Hd1, Hw2, Hh2, Hd2. cbn [written handled year_dirs].
      rewrite !written_app, !year_dirs_app, !handled_app.
      rewrite handled_reads, year_dirs_reads.
      assert (Hwr : forall l, written (map EvRead l) = [])
        by (induction l; simpl; auto).
      rewrite Hwr. cbn. rewrite !app_nil_r.
      split; [exact Hpre|]. split; [exact Hdirs|]. split; [exact Hlen|].
      intros Hdone.
      destruct ((sum_process_year json_loads py_str input_files
                   (py_range start (end_ + 1)) 0 s5).1) as [w|e] eqn:Hs;
        [|discriminate].
      exact (Hok w eq_refl).
    + destruct Hrun as (tr_scan & -> & Hreads). cbn [fst snd trace].
      assert (Hs : written tr_scan = [] /\ year_dirs tr_scan = []).
      { clear -Hreads. induction Hreads as [|ev tr (y & ->) _ [IH1 IH2]];
          [split; reflexivity|]. simpl. auto. }
      destruct Hs as [Hw Hd]. cbn [written year_dirs]. rewrite Hw, Hd.
      split; [apply prefix_nil|]. split; [apply prefix_nil|].
      split; [simpl; lia|discriminate].
  - rewrite run_invalid_range by lia. cbn.
    split; [apply prefix_nil|]. split; [apply prefix_nil|].
    split; [lia|discriminate].
Qed.

(** X10: a run that completes has dealt with every year from [start] to
    [end_], both included, exactly once and in increasing order: a year
    whose source exists has its dataset written, any other year is
    reported as skipped. *)
Theorem every_year_is_handled_once (start end_ : Z) :
  (run json_loads py_str input_files translate_batch translate
       start end_).1 = Ok tt ->
  let tr := trace (run json_loads py_str input_files translate_batch
                       translate start end_).2 in
  handled tr
  = map (fun y => (y, bool_decide (is_Some (input_files y))))
        (py_range start (end_ + 1)) /\
  NoDup (handled tr).*1 /\
  forall y, y ∈ (handled tr).*1 <-> (start <= y <= end_)%Z.
Proof.
  intros Hdone tr. unfold tr. clear tr.
  destruct (run_trace_outcomes start end_) as (_ & _ & _ & Hok).
  destruct (Hok Hdone) as (_ & _ & Hh). rewrite Hh.
  assert (Hfst : forall l : list Z,
            (map (fun y => (y, bool_decide (is_Some (input_files y)))) l).*1
            = l).
  { clear. induction l as [|y l IH]; [reflexivity|].
    simpl. f_equal. exact IH. }
  rewrite Hfst. split; [reflexivity|]. split; [apply NoDup_py_range|].
  intros y. rewrite elem_of_py_range. lia.
Qed.

(** X11: a run creates a year directory only for a year whose source
    exists, in year order, and writes the dataset of a year only after
    creating its directory.  At most one directory is left without
    dataset, the last one, when the run aborts while enriching that
    year; in a run that completes every created directory has its
    dataset. *)
Theorem directories_follow_the_datasets (start end_ : Z) :
  let result :=
    run json_loads py_str input_files translate_batch translate start end_ in
  (written (trace result.2)).*1 `prefix_of` year_dirs (trace result.2) /\
  year_dirs (trace result.2)
    `prefix_of` existing input_files (py_range start (end_ + 1)) /\
  length (year_dirs (trace result.2)) <= S (length (written (trace result.2)))
  /\
  (result.1 = Ok tt ->
   year_dirs (trace result.2) = (written (trace result.2)).*1).
Proof.
  intros result. unfold result. clear result.
  destruct (run_trace_outcomes start end_) as (Hpre & Hdirs & Hlen & Hok).
  split; [exact Hpre|]. split; [exact Hdirs|]. split; [exact Hlen|].
  intros Hdone. destruct (Hok Hdone) as (-> & -> & _). reflexivity.
Qed.

(** Both phases see the same tags of a row. *)
Lemma tags_series_consistent (gdf : GeoDataFrame) (i : nat)
    (row : gmap pystr pyval) :
  frame_consistent gdf -> rows gdf !! i = Some row ->
  tags_series json_loads gdf !! i
  = Some (parse_tags json_loads (row_get row (u "tags"))).
Proof.
  intros Hc Hrow. unfold tags_series. case_bool_decide as Hcol.
  - rewrite list_lookup_fmap, Hrow. reflexivity.
  - rewrite list_lookup_fmap, Hrow. simpl. f_equal.
    unfold frame_consistent in Hc. rewrite Forall_forall in Hc.
    assert (Hin : row ∈ rows gdf) by (apply list_elem_of_lookup; eauto).
    unfold row_get. destruct (row !! u "tags") as [v|] eqn:Hv; [|reflexivity].
    exfalso. apply Hcol, (Hc row Hin). rewrite Hv. eauto.
Qed.

Lemma resolve_title_cases (c : gmap pystr pystr) (tags : pyval)
    (row : gmap pystr pyval) (en : pystr) (title : pyval) :
  resolve_title py_str c (tags, <[u "title_en" := PyStr en]> row) = Ok title ->
  exists zh,
    get_title_zh tags (raw_name py_str row) = Ok zh /\
    title = PyStr (match zh with
                   | Some z => z
                   | None => default en (c !! en)
                   end).
Proof.
  unfold resolve_title. rewrite raw_name_title_en, lookup_insert_eq.
  destruct (get_title_zh tags (raw_name py_str row)) as [zh|e] eqn:Hzh;
    [|discriminate].
  cbn [mbind exc_bind]. exists zh. split; [reflexivity|].
  destruct zh as [z|]; [|cbn [cache_get] in H; congruence].
  destruct (get_title_zh_Some _ _ _ Hzh) as [Hne _]. rewrite Hne in H.
  congruence.
Qed.

Lemma run_cache_entries (start end_ : Z) (k v : pystr) :
  _cache (run json_loads py_str input_files translate_batch translate
              start end_).2 !! k = Some v ->
  k <> [] /\ v <> [] /\
  resolved translate_batch translate []
    (trace (run json_loads py_str input_files translate_batch translate
                start end_).2) k v.
Proof.
  intros Hk.
  assert (Hne : k <> []).
  { destruct (run_facts json_loads py_str input_files translate_batch
                translate start end_) as (r & c & tr & Hrun & Hnil & _).
    rewrite Hrun in Hk. cbn [snd _cache] in Hk. intros ->. congruence. }
  destruct (run_calls json_loads py_str input_files translate_batch translate
              start end_) as (cs & Hcalls & Hfr).
  destruct (calls_resolved translate_batch translate _ _ _ _ _ Hcalls)
    with (k := k) (v := v) as [Hold|[_ Hres]].
  - intros k' Hk'. rewrite (Hfr k' Hk'). symmetry. apply lookup_empty.
  - exact Hk.
  - rewrite lookup_empty in Hold. discriminate Hold.
  - split; [exact Hne|]. split; [|exact Hres].
    exact (resolved_nonempty translate_batch translate _ _ k v Hne Hres).
Qed.

(** What every row of a written dataset holds. *)
Lemma written_row (start end_ year : Z) (out : GeoDataFrame) :
  (year, out) ∈ written (trace (run json_loads py_str input_files
                                    translate_batch translate start end_).2) ->
  exists gdf,
    input_files year = Some gdf /\
    length (rows out) = length (rows gdf) /\
    forall i row, rows gdf !! i = Some row ->
      exists tags en zh,
        tags_series json_loads gdf !! i = Some tags /\
        get_title_en tags (raw_name py_str row) = Ok en /\
        get_title_zh tags (raw_name py_str row) = Ok zh /\
        rows out !! i
        = Some (out_row i row en
                  (PyStr (match zh with
                          | Some z => z
                          | None =>
                              default en
                                (_cache (run json_loads py_str input_files
                                             translate_batch translate
                                             start end_).2 !! en)
                          end))).
Proof.
  destruct (run_facts json_loads py_str input_files translate_batch translate
              start end_) as (r & c & tr & Hrun & _ & _ & _ & _ & _ & Hq).
  rewrite Hrun. cbn [snd trace _cache]. intros Hin.
  destruct (run_events_written _ _ _ c tr year out Hq Hin)
    as (gdf & Hy & Hen).
  destruct (enrich_frame_Ok _ _ _ _ _ Hen) as (_ & Hlen & Hrows).
  exists gdf. split; [exact Hy|]. split; [exact Hlen|].
  intros i row Hrow.
  destruct (Hrows i row Hrow) as (tags & en & title & Ht & He & Hr & Ho).
  destruct (resolve_title_cases c tags row en title Hr) as (zh & Hzh & ->).
  exists tags, en, zh. auto.
Qed.

(** X12: every row of every dataset a run writes has strings as
    [title] and [title_en], and its Chinese title is empty only if its
    English title is empty: no feature with an English label is written
    without a Chinese title. *)
Theorem titles_are_never_lost (start end_ year : Z) (out : GeoDataFrame)
    (i : nat) (orow : gmap pystr pyval) :
  (year, out) ∈ written (trace (run json_loads py_str input_files
                                    translate_batch translate start end_).2) ->
  rows out !! i = Some orow ->
  exists title en,
    orow !! u "title" = Some (PyStr title) /\
    orow !! u "title_en" = Some (PyStr en) /\
    (title = [] -> en = []).
Proof.
  intros Hin Hrow.
  destruct (written_row start end_ year out Hin) as (gdf & Hy & Hlen & Hrows).
  destruct (lookup_lt_is_Some_2 (rows gdf) i) as [row Hr].
  { rewrite <- Hlen. apply (lookup_lt_Some _ _ _ Hrow). }
  destruct (Hrows i row Hr) as (tags & en & zh & _ & _ & Hzh & Ho).
  rewrite Hrow in Ho. injection Ho as ->.
  eexists _, en. split; [apply out_row_title|].
  split; [apply out_row_title_en|].
  destruct zh as [z|].
  - intros Hz. destruct (get_title_zh_Some _ _ _ Hzh) as [Hne _].
    rewrite Hz in Hne. discriminate.
  - destruct (_ !! en) as [v|] eqn:Hv; simpl; [|auto].
    intros Hv0. rewrite Hv0 in Hv.
    destruct (run_cache_entries start end_ en [] Hv) as (_ & H & _).
    congruence.
Qed.

(** X9: in a run that completes, under the provider contract, the
    Chinese title written for a feature is its tag candidate when it has
    one, and otherwise the cache entry of its English label, which
    exists whenever that label is not empty and is what a call of this
    run produced for that label (the answer of a batched call of the
    run at the label's position, or, after a batched call of the run
    that held the label and failed, the outcome of the individual call
    for it): the fallback to the English label of the lookup in
    [process_year] is only ever taken for the empty label. *)
Theorem titles_come_from_tags_or_cache (start end_ year : Z)
    (out gdf : GeoDataFrame) (i : nat) (row : gmap pystr pyval) :
  let result :=
    run json_loads py_str input_files translate_batch translate start end_ in
  batch_contract translate_batch ->
  result.1 = Ok tt ->
  (year, out) ∈ written (trace result.2) ->
  input_files year = Some gdf ->
  frame_consistent gdf ->
  rows gdf !! i = Some row ->
  exists en zh orow,
    get_title_en (parse_tags json_loads (row_get row (u "tags")))
                 (raw_name py_str row) = Ok en /\
    get_title_zh (parse_tags json_loads (row_get row (u "tags")))
                 (raw_name py_str row) = Ok zh /\
    rows out !! i = Some orow /\
    orow !! u "title_en" = Some (PyStr en) /\
    match zh with
    | Some z => orow !! u "title" = Some (PyStr z)
    | None =>
        (en = [] /\ orow !! u "title" = Some (PyStr [])) \/
        (exists v,
           en <> [] /\ v <> [] /\
           _cache result.2 !! en = Some v /\
           resolved translate_batch translate [] (trace result.2) en v /\
           orow !! u "title" = Some (PyStr v))
    end.
Proof.
  intros result Hc Hdone Hin Hy Hcons Hrow. unfold result in *. clear result.
  destruct (written_row start end_ year out Hin) as (gdf' & Hy' & _ & Hrows).
  assert (gdf' = gdf) as -> by congruence.
  destruct (Hrows i row Hrow) as (tags & en & zh & Ht & Hen & Hzh & Ho).
  rewrite (tags_series_consistent gdf i row Hcons Hrow) in Ht.
  injection Ht as <-.
  exists en, zh, (out_row i row en
                    (PyStr (match zh with
                            | Some z => z
                            | None =>
                                default en
                                  (_cache (run json_loads py_str input_files
                                               translate_batch translate
                                               start end_).2 !! en)
                            end))).
  split; [exact Hen|]. split; [exact Hzh|]. split; [exact Ho|].
  split; [apply out_row_title_en|].
  destruct zh as [z|]; [apply out_row_title|].
  destruct (decide (en = [])) as [->|Hne].
  - left. split; [reflexivity|]. rewrite out_row_title.
    destruct (_ !! []) as [v|] eqn:Hv; [|reflexivity].
    destruct (run_cache_entries start end_ [] v Hv) as (H & _). congruence.
  - right.
    destruct (run_completed json_loads py_str input_files translate_batch
                translate start end_ Hdone) as (Hle & needs & Hneeds).
    assert (Hyear : year ∈ py_range start (end_ + 1)).
    { destruct (run_spec json_loads py_str input_files translate_batch
                  translate start end_ Hle)
        as (r & c & tr & Hrun & _ & _ & _ & _ & _ & _ & _ & _ & Hok & _).
      rewrite Hrun in Hin, Hdone. cbn [fst snd trace] in Hin, Hdone.
      destruct (Hok Hdone) as [Hw _].
      assert (Hyw : year ∈ (written tr).*1).
      { apply list_elem_of_fmap. exists (year, out). auto. }
      rewrite Hw in Hyw. unfold existing in Hyw.
      apply list_elem_of_filter in Hyw as [_ Hyw]. exact Hyw. }
    assert (Hpool : en ∈ needs).
    { apply (needs_of_years_pool json_loads py_str input_files
               _ _ _ Hneeds en).
      right. exists year, gdf, row. repeat split; try assumption.
      - apply list_elem_of_lookup. eauto.
      - exists None. repeat split; assumption. }
    assert (Hsome : is_Some (_cache (run json_loads py_str input_files
                                         translate_batch translate
                                         start end_).2 !! en)).
    { rewrite (run_cache json_loads py_str input_files translate_batch
                 translate start end_ needs Hle Hneeds).
      match goal with
      | |- is_Some (_cache (prime_translation_cache _ _ _ ?s3).2 !! _) =>
          destruct (prime_translation_cache_spec translate_batch translate
                      needs s3) as (c & tr & Hrun & _ & Hfill & _)
      end.
      unfold runs_to in Hrun. rewrite Hrun. cbn [snd _cache].
      apply (Hfill Hc). apply unique_names_elem_of.
      split; [exact Hpool|]. split; [exact Hne|apply lookup_empty]. }
    destruct Hsome as [v Hv]. exists v.
    destruct (run_cache_entries start end_ en v Hv) as (_ & Hvne & Hst).
    rewrite out_row_title, Hv. auto.
Qed.

End RunProperties.

(** ** The order of the phases *)

Lemma reads_app (tr1 tr2 : list event) :
  reads (tr1 ++ tr2) = reads tr1 ++ reads tr2.
Proof.
  induction tr1 as [|e tr1 IH]; [reflexivity|].
  destruct e; simpl; rewrite IH; reflexivity.
Qed.

Lemma reads_map_EvRead (years : list Z) : reads (map EvRead years) = years.
Proof. induction years as [|y years IH]; simpl; [|rewrite IH]; reflexivity. Qed.

Lemma priming_events_no_output (tr : list event) :
  Forall priming_event tr ->
  reads tr = [] /\ Forall (fun e => ~ output_event e) tr.
Proof.
  induction 1 as [|e tr He _ [Hr Ho]]; [split; constructor|].
  destruct e as [[]| | | | |]; simpl in *; try contradiction;
    (split; [exact Hr|constructor; [intros []|exact Ho]]).
Qed.

(** A list cut in two, the first part free of [P]: what follows an
    element that satisfies [P] lies in the second part. *)
Lemma split_after {A} (P Q : A -> Prop) (l1 l2 pre post : list A) (x : A) :
  l1 ++ l2 = pre ++ x :: post ->
  Forall (fun y => ~ P y) l1 -> Forall Q l2 -> P x -> Forall Q post.
Proof.
  revert pre. induction l1 as [|y l1 IH]; intros pre Heq H1 H2 Hx.
  - simpl in Heq. rewrite Heq in H2.
    apply Forall_app in H2 as [_ H2]. apply Forall_cons in H2 as [_ H2].
    exact H2.
  - apply Forall_cons in H1 as [Hy H1].
    destruct pre as [|z pre]; simpl in Heq; injection Heq as -> Heq.
    + contradiction.
    + exact (IH pre Heq H1 H2 Hx).
Qed.

Section RunOrder.

Variable json_loads : pystr -> option pyval.
Variable py_str : pyval -> pystr.
Variable input_files : Z -> option GeoDataFrame.
Variable translate_batch : list event -> list pystr -> option (list pystr).
Variable translate : list event -> pystr -> option pystr.

(** Phase 3 never calls the provider, and reads a dataset right after
    creating its directory. *)
Lemma sum_process_year_events (years : list Z) (acc : Z) (s : state) :
  exists tr,
    trace (sum_process_year json_loads py_str input_files years acc s).2
    = trace s ++ tr /\
    Forall (fun e => ~ provider_event e) tr /\
    reads tr = year_dirs tr.
Proof.
  revert acc s. induction years as [|y years IH]; intros acc s.
  - exists []. split; [symmetry; apply app_nil_r|]. split; constructor.
  - cbn [sum_process_year]. rewrite M_bind_eq.
    destruct (input_files y) as [gdf|] eqn:Hy.
    + destruct (enrich_frame json_loads py_str (_cache s) gdf)
        as [out|e] eqn:Hen.
      * pose proof (process_year_written json_loads py_str input_files
                      y gdf out s Hy Hen) as Hp.
        unfold runs_to in Hp. rewrite Hp.
        match goal with |- context [sum_process_year _ _ _ years ?a ?s1] =>
          destruct (IH a s1) as (tr & Htr & Hq & Hr)
        end.
        cbn [trace] in Htr.
        exists ([EvMkdir (Some y); EvRead y; EvWrite y out;
                 EvPrint (MsgFeatures y (length (rows out)))] ++ tr).
        rewrite Htr, <- app_assoc. split; [reflexivity|].
        split; [|simpl; rewrite Hr; reflexivity].
        apply Forall_app. split; [|exact Hq].
        repeat (constructor; [intros []|]). constructor.
      * pose proof (process_year_raises json_loads py_str input_files
                      y gdf e s Hy Hen) as Hp.
        unfold steps_to in Hp. rewrite Hp.
        exists [EvMkdir (Some y); EvRead y]. split; [reflexivity|].
        split; [|reflexivity].
        repeat (constructor; [intros []|]). constructor.
    + pose proof (process_year_missing json_loads py_str input_files
                    y s Hy) as Hp.
      unfold runs_to in Hp. rewrite Hp.
      match goal with |- context [sum_process_year _ _ _ years ?a ?s1] =>
        destruct (IH a s1) as (tr & Htr & Hq & Hr)
      end.
      cbn [trace] in Htr.
      exists ([EvPrint (MsgSkipping y)] ++ tr).
      rewrite Htr, <- app_assoc. split; [reflexivity|].
      split; [|simpl; exact Hr].
      apply Forall_app. split; [|exact Hq].
      constructor; [intros []|constructor].
Qed.

(** X13: a run calls the translation provider only before it creates
    anything on disk: once a directory is created or a dataset written,
    no batched and no individual call follows.  Phase 3 works from the
    cache alone. *)
Theorem translation_precedes_output (start end_ : Z)
    (pre post : list event) (e : event) :
  trace (run json_loads py_str input_files translate_batch translate
             start end_).2 = pre ++ e :: post ->
  output_event e ->
  Forall (fun e' => ~ provider_event e') post.
Proof.
  intros Htr He.
  destruct (Z.le_gt_cases start end_) as [Hle|Hgt].
  - pose proof (run_unfold json_loads py_str input_files translate_batch
                  translate start end_ Hle) as Hrun.
    cbv zeta in Hrun.
    destruct (needs_of_years json_loads py_str input_files
                (py_range start (end_ + 1)) []) as [needs|ex] eqn:Hneeds.
    + clear Hrun.
      destruct (run_trace json_loads py_str input_files translate_batch
                  translate start end_ needs Hle Hneeds)
        as (tr_prime & tr_proc & tail & s5 & Ht & Hq & Hproc & _ & Htail).
      destruct (sum_process_year_events (py_range start (end_ + 1)) 0 s5)
        as (tr_proc' & Hproc' & Hnp & _).
      rewrite Hproc in Hproc'. apply app_inv_head in Hproc'. subst tr_proc'.
      rewrite Ht, app_assoc in Htr.
      refine (split_after output_event _ _ _ pre post e Htr _ _ He).
      * apply Forall_app. split; [|apply priming_events_no_output, Hq].
        constructor; [intros []|].
        apply Forall_app. split; [|constructor; [intros []|constructor]].
        apply Forall_fmap, Forall_forall. intros y _ [].
      * constructor; [intros []|]. constructor; [intros []|].
        apply Forall_app. split; [exact Hnp|].
        destruct Htail as [->|(w & n & ->)];
          [constructor|constructor; [intros []|constructor]].
    + destruct Hrun as (tr_scan & Hrun & Hreads). exfalso.
      rewrite Hrun in Htr. cbn [snd trace] in Htr.
      assert (Hin : e ∈ EvPrint (MsgPhase1 (length (py_range start (end_ + 1))))
                        :: tr_scan).
      { rewrite Htr. apply elem_of_app. right. left. }
      apply elem_of_cons in Hin as [->|Hin]; [exact He|].
      rewrite Forall_forall in Hreads.
      destruct (Hreads e Hin) as [y ->]. exact He.
  - exfalso.
    rewrite (run_invalid_range json_loads py_str input_files translate_batch
               translate start end_) in Htr by lia.
    cbn [snd trace] in Htr.
    destruct pre as [|z [|z' pre]]; simpl in Htr; try discriminate Htr.
    injection Htr as <- _. exact He.
Qed.

(** X15: a run that completes reads every existing dataset of the range
    exactly twice, once in phase 1 and once in phase 3, each time in year
    order, and reads nothing else. *)
Theorem every_dataset_is_read_twice (start end_ : Z) :
  (run json_loads py_str input_files translate_batch translate
       start end_).1 = Ok tt ->
  reads (trace (run json_loads py_str input_files translate_batch translate
                    start end_).2)
  = existing input_files (py_range start (end_ + 1))
    ++ existing input_files (py_range start (end_ + 1)).
Proof.
  intros Hdone.
  destruct (run_completed json_loads py_str input_files translate_batch
              translate start end_ Hdone) as (Hle & needs & Hneeds).
  destruct (run_trace json_loads py_str input_files translate_batch
              translate start end_ needs Hle Hneeds)
    as (tr_prime & tr_proc & tail & s5 & Ht & Hq & Hproc & Hres & Htail).
  destruct (sum_process_year_events (py_range start (end_ + 1)) 0 s5)
    as (tr1 & Hproc1 & _ & Hr).
  rewrite Hproc in Hproc1. apply app_inv_head in Hproc1. subst tr1.
  destruct (sum_process_year_outcomes json_loads py_str input_files
              (py_range start (end_ + 1)) 0 s5)
    as (tr2 & Hproc2 & _ & _ & _ & Hok).
  rewrite Hproc in Hproc2. apply app_inv_head in Hproc2. subst tr2.
  rewrite Hdone in Hres.
  destruct (sum_process_year json_loads py_str input_files
              (py_range start (end_ + 1)) 0 s5).1 as [w|ex] eqn:Hw;
    [|discriminate Hres].
  destruct (Hok w eq_refl) as (Hdirs & _ & _).
  rewrite Ht, !reads_app. cbn [reads]. rewrite reads_app, reads_map_EvRead.
  destruct (priming_events_no_output tr_prime Hq) as [-> _].
  rewrite Hr, Hdirs.
  destruct Htail as [->|(w' & n & ->)]; simpl; rewrite !app_nil_r;
    reflexivity.
Qed.

End RunOrder.

(** ** One dataset, whatever the range *)

Lemma written_reads_only (tr : list event) :
  Forall (fun ev => exists y, ev = EvRead y) tr -> written tr = [].
Proof.
  induction 1 as [|e tr [y ->] _ IH]; [reflexivity|exact IH].
Qed.

Section Independence.

Variable json_loads : pystr -> option pyval.
Variable py_str : pyval -> pystr.
Variable input_files : Z -> option GeoDataFrame.
Variable translate_batch : list event -> list pystr -> option (list pystr).
Variable translate : list event -> pystr -> option pystr.

(** A run that wrote the dataset of a year had a valid range that holds
    the year, and its discovery did not raise. *)
Lemma run_written_inv (start end_ year : Z) (out : GeoDataFrame) :
  (year, out) ∈ written (trace (run json_loads py_str input_files
                                    translate_batch translate start end_).2) ->
  (start <= year <= end_)%Z /\
  exists needs,
    needs_of_years json_loads py_str input_files
      (py_range start (end_ + 1)) [] = Ok needs.
Proof.
  intros Hin.
  assert (Hyear : year ∈ py_range start (end_ + 1)).
  { destruct (run_trace_outcomes json_loads py_str input_files
                translate_batch translate start end_)
      as ([k1 Hk1] & [k2 Hk2] & _).
    assert (Hy : year ∈ existing input_files (py_range start (end_ + 1))).
    { rewrite Hk2, Hk1. apply elem_of_app. left. apply elem_of_app. left.
      apply list_elem_of_fmap. exists (year, out). auto. }
    unfold existing in Hy. apply list_elem_of_filter in Hy as [_ Hy].
    exact Hy. }
  apply elem_of_py_range in Hyear.
  split; [lia|].
  pose proof (run_unfold json_loads py_str input_files translate_batch
                translate start end_ ltac:(lia)) as Hrun.
  cbv zeta in Hrun.
  destruct (needs_of_years json_loads py_str input_files
              (py_range start (end_ + 1)) []) as [needs|e]; [eauto|].
  destruct Hrun as (tr_scan & Hrun & Hreads).
  rewrite Hrun in Hin. cbn [snd trace written] in Hin.
  rewrite (written_reads_only tr_scan Hreads) in Hin. inversion Hin.
Qed.

Lemma written_columns (start end_ year : Z) (out : GeoDataFrame) :
  (year, out) ∈ written (trace (run json_loads py_str input_files
                                    translate_batch translate start end_).2) ->
  columns out = OUT_COLUMNS.
Proof.
  destruct (run_facts json_loads py_str input_files translate_batch translate
              start end_) as (r & c & tr & Hrun & _ & _ & _ & _ & _ & Hq).
  rewrite Hrun. cbn [snd trace]. intros Hin.
  destruct (run_events_written _ _ _ c tr year out Hq Hin)
    as (gdf & Hy & Hen).
  exact (proj1 (enrich_frame_Ok _ _ _ _ _ Hen)).
Qed.

(** Under a provider that answers every label [k] with [f k], the rows
    of a written dataset are determined by the source dataset. *)
Lemma written_titles (f : pystr -> pystr) (start end_ year : Z)
    (out gdf : GeoDataFrame) :
  (forall h chunk results,
     translate_batch h chunk = Some results -> results = map f chunk) ->
  (forall h k, translate h k = Some (f k)) ->
  (year, out) ∈ written (trace (run json_loads py_str input_files
                                    translate_batch translate start end_).2) ->
  input_files year = Some gdf ->
  frame_consistent gdf ->
  length (rows out) = length (rows gdf) /\
  forall i row, rows gdf !! i = Some row ->
    exists en zh,
      get_title_en (parse_tags json_loads (row_get row (u "tags")))
                   (raw_name py_str row) = Ok en /\
      get_title_zh (parse_tags json_loads (row_get row (u "tags")))
                   (raw_name py_str row) = Ok zh /\
      rows out !! i
      = Some (out_row i row en
                (PyStr (match zh with
                        | Some z => z
                        | None => if nonempty en then str_or (f en) en else []
                        end))).
Proof.
  intros Hbatch Hone Hin Hy Hcons.
  destruct (written_row json_loads py_str input_files translate_batch
              translate start end_ year out Hin)
    as (gdf' & Hy' & Hlen & Hrows).
  assert (gdf' = gdf) as -> by congruence.
  split; [exact Hlen|]. intros i row Hrow.
  destruct (Hrows i row Hrow) as (tags & en & zh & Ht & Hen & Hzh & Ho).
  rewrite (tags_series_consistent json_loads gdf i row Hcons Hrow) in Ht.
  injection Ht as <-.
  exists en, zh. split; [exact Hen|]. split; [exact Hzh|].
  rewrite Ho. do 3 f_equal.
  destruct zh as [z|]; [reflexivity|].
  destruct (nonempty en) eqn:Hne.
  - apply nonempty_true in Hne.
    destruct (run_written_inv start end_ year out Hin)
      as (Hyr & needs & Hneeds).
    assert (Hle : (start <= end_)%Z) by lia.
    assert (Hpool : en ∈ needs).
    { apply (needs_of_years_pool json_loads py_str input_files
               _ _ _ Hneeds en).
      right. exists year, gdf, row.
      split; [apply elem_of_py_range; lia|]. split; [exact Hy|].
      split; [apply list_elem_of_lookup; eauto|].
      exists None. split; [exact Hzh|]. split; [reflexivity|].
      split; [exact Hen|exact Hne]. }
    rewrite (run_cache json_loads py_str input_files translate_batch
               translate start end_ needs Hle Hneeds).
    rewrite (prime_answers translate_batch translate f needs _ Hbatch Hone en).
    + reflexivity.
    + apply unique_names_elem_of.
      split; [exact Hpool|]. split; [exact Hne|apply lookup_empty].
  - apply nonempty_false in Hne. subst en.
    destruct (_ !! []) as [v|] eqn:Hv; [|reflexivity].
    destruct (run_cache_entries json_loads py_str input_files translate_batch
                translate start end_ [] v Hv) as (H & _).
    congruence.
Qed.

(** X14: with a provider that answers label by label (a batched call
    that succeeds and the individual call answer [f k] for the label
    [k]), the dataset written for a year depends on that year's source
    alone: two runs over different ranges, whatever other datasets they
    pool labels from and whichever batched calls fail, write the same
    dataset for the year. *)
Theorem dataset_is_independent_of_the_range (f : pystr -> pystr)
    (start end_ start' end_' year : Z) (out out' gdf : GeoDataFrame) :
  (forall h chunk results,
     translate_batch h chunk = Some results -> results = map f chunk) ->
  (forall h k, translate h k = Some (f k)) ->
  input_files year = Some gdf ->
  frame_consistent gdf ->
  (year, out) ∈ written (trace (run json_loads py_str input_files
                                    translate_batch translate start end_).2) ->
  (year, out') ∈ written (trace (run json_loads py_str input_files
                                     translate_batch translate
                                     start' end_').2) ->
  out = out'.
Proof.
  intros Hbatch Hone Hy Hcons Hin Hin'.
  pose proof (written_columns start end_ year out Hin) as Hc.
  pose proof (written_columns start' end_' year out' Hin') as Hc'.
  destruct (written_titles f start end_ year out gdf Hbatch Hone Hin Hy Hcons)
    as [Hlen Hrows].
  destruct (written_titles f start' end_' year out' gdf Hbatch Hone Hin' Hy
              Hcons) as [Hlen' Hrows'].
  assert (Hr : rows out = rows out').
  { apply list_eq. intros i.
    destruct (rows gdf !! i) as [row|] eqn:Hrow.
    - destruct (Hrows i row Hrow) as (en & zh & Hen & Hzh & ->).
      destruct (Hrows' i row Hrow) as (en' & zh' & Hen' & Hzh' & ->).
      rewrite Hen in Hen'. injection Hen' as <-.
      rewrite Hzh in Hzh'. injection Hzh' as <-. reflexivity.
    - apply lookup_ge_None in Hrow.
      rewrite (proj2 (lookup_ge_None (rows out) i)) by lia.
      rewrite (proj2 (lookup_ge_None (rows out') i)) by lia.
      reflexivity. }
  destruct out as [c r], out' as [c' r']. cbn [columns rows] in *.
  congruence.
Qed.

End Independence.

(** ** Failures and their causes *)

Lemma exc_map_Raise {A B} (f : A -> exc B) (l : list A) (e : exn) :
  exc_map f l = Raise e -> exists i x, l !! i = Some x /\ f x = Raise e.
Proof.
  induction l as [|x l IH]; cbn [exc_map]; [discriminate|].
  destruct (f x) as [y|e'] eqn:Hx.
  - cbn [mbind exc_bind].
    destruct (exc_map f l) as [ys|e'] eqn:Hl; [discriminate|].
    cbn [mbind exc_bind]. intros [= ->].
    destruct (IH eq_refl) as (i & x' & Hi & Hx').
    exists (S i), x'. auto.
  - cbn [mbind exc_bind]. intros [= ->]. exists 0, x. auto.
Qed.

Section Failures.

Variable json_loads : pystr -> option pyval.
Variable py_str : pyval -> pystr.
Variable input_files : Z -> option GeoDataFrame.
Variable translate_batch : list event -> list pystr -> option (list pystr).
Variable translate : list event -> pystr -> option pystr.

(** The resolver raises only on tags that are no mapping from strings to
    strings, and then an [AttributeError]. *)
Lemma resolver_raises (row : gmap pystr pyval) (tags : pyval) (name : pystr)
    (e : exn) :
  tags = PyDict ∅ \/ tags = parse_tags json_loads (row_get row (u "tags")) ->
  get_title_zh tags name = Raise e \/ get_title_en tags name = Raise e ->
  e = AttributeError /\ ~ wf_row json_loads row.
Proof.
  intros Ht He. split.
  - pose proof (attr_only_get_title_zh tags name) as Hzh.
    pose proof (attr_only_get_title_en tags name) as Hen.
    destruct He as [He|He]; rewrite He in *; destruct e; auto; contradiction.
  - intros [d Hd].
    assert (Hs : exists d', tags = str_dict d').
    { destruct Ht as [->| ->]; [|eauto].
      exists ∅. unfold str_dict. rewrite fmap_empty. reflexivity. }
    destruct Hs as [d' ->].
    rewrite get_title_zh_str_dict, get_title_en_str_dict in He.
    destruct He; discriminate.
Qed.

Lemma tags_series_lookup (gdf : GeoDataFrame) (i : nat) (tags : pyval)
    (row : gmap pystr pyval) :
  tags_series json_loads gdf !! i = Some tags -> rows gdf !! i = Some row ->
  tags = PyDict ∅ \/ tags = parse_tags json_loads (row_get row (u "tags")).
Proof.
  unfold tags_series. intros Ht Hrow.
  case_bool_decide; rewrite list_lookup_fmap, Hrow in Ht;
    injection Ht as <-; auto.
Qed.

(** Why [enrich_frame] raises: some feature has tags that are no mapping
    from strings to strings, or the dataset has no geometry column. *)
Lemma enrich_frame_Raise (cache : gmap pystr pystr) (gdf : GeoDataFrame)
    (e : exn) :
  enrich_frame json_loads py_str cache gdf = Raise e ->
  (e = AttributeError /\
   exists row, row ∈ rows gdf /\ ~ wf_row json_loads row) \/
  (e = KeyError /\ u "geometry" ∉ columns gdf).
Proof.
  unfold enrich_frame.
  destruct (exc_map _ (zip _ (rows gdf))) as [title_en|e1] eqn:Hen.
  - cbn [mbind exc_bind].
    set (gdf1 := set_column (u "title_en") (PyStr <$> title_en) gdf).
    destruct (exc_map _ (zip _ (rows gdf1))) as [titles|e2] eqn:Hti.
    + cbn [mbind exc_bind]. unfold select_columns.
      match goal with |- context [forallb ?f ?l] =>
        destruct (forallb f l) eqn:Hall end; [discriminate|].
      intros [= <-]. right. split; [reflexivity|]. intros Hgeo.
      unfold OUT_COLUMNS in Hall. cbn [forallb] in Hall.
      rewrite !bool_decide_eq_true_2 in Hall; [discriminate Hall| | | |].
      * do 3 apply set_column_columns_old. exact Hgeo.
      * do 2 apply set_column_columns_old. apply set_column_columns_new.
      * apply set_column_columns_old. apply set_column_columns_new.
      * apply set_column_columns_new.
    + cbn [mbind exc_bind]. intros [= ->]. left.
      apply exc_map_Raise in Hti as (i & [tags row1] & Hz & Hr).
      apply lookup_zip_with_Some in Hz as (t & r1 & [= -> ->] & Ht & Hr1).
      unfold gdf1, set_column in Hr1. cbn [rows] in Hr1.
      apply lookup_zip_with_Some in Hr1 as (row & v & -> & Hrow & Hv).
      unfold resolve_title in Hr. rewrite raw_name_title_en in Hr.
      rewrite lookup_insert_eq in Hr.
      destruct (get_title_zh t (raw_name py_str row)) as [zh|e'] eqn:Hzh.
      * cbn [mbind exc_bind] in Hr.
        destruct zh as [z|]; [destruct (nonempty z)|]; discriminate Hr.
      * cbn [mbind exc_bind] in Hr. injection Hr as ->.
        destruct (resolver_raises row t (raw_name py_str row) e
                    (tags_series_lookup gdf i t row Ht Hrow) (or_introl Hzh))
          as [-> Hwf].
        split; [reflexivity|]. exists row.
        split; [apply list_elem_of_lookup; eauto|exact Hwf].
  - cbn [mbind exc_bind]. intros [= ->]. left.
    apply exc_map_Raise in Hen as (i & [tags row] & Hz & Hr).
    apply lookup_zip_with_Some in Hz as (t & r & [= -> ->] & Ht & Hrow).
    destruct (resolver_raises r t (raw_name py_str r) e
                (tags_series_lookup gdf i t r Ht Hrow) (or_intror Hr))
      as [-> Hwf].
    split; [reflexivity|]. exists r.
    split; [apply list_elem_of_lookup; eauto|exact Hwf].
Qed.

Lemma scan_rows_Raise (rws : list (gmap pystr pyval)) (needs : list pystr)
    (e : exn) :
  scan_rows json_loads py_str rws needs = Raise e ->
  e = AttributeError /\ exists row, row ∈ rws /\ ~ wf_row json_loads row.
Proof.
  revert needs. induction rws as [|row rws IH]; intros needs;
    cbn [scan_rows]; [discriminate|].
  assert (Hnext : forall needs',
            scan_rows json_loads py_str rws needs' = Raise e ->
            e = AttributeError /\
            exists row', row' ∈ row :: rws /\ ~ wf_row json_loads row').
  { intros needs' H. destruct (IH needs' H) as (-> & row' & Hin & Hwf).
    split; [reflexivity|]. exists row'. split; [right; exact Hin|exact Hwf]. }
  destruct (get_title_zh _ _) as [zh|e'] eqn:Hzh.
  - cbn [mbind exc_bind]. destruct (zh_truthy zh); [apply Hnext|].
    destruct (get_title_en _ _) as [en|e'] eqn:Hen.
    + cbn [mbind exc_bind]. destruct (nonempty en); apply Hnext.
    + cbn [mbind exc_bind]. intros [= ->].
      destruct (resolver_raises row _ _ e (or_intror eq_refl) (or_intror Hen))
        as [-> Hwf].
      split; [reflexivity|]. exists row. split; [left|exact Hwf].
  - cbn [mbind exc_bind]. intros [= ->].
    destruct (resolver_raises row _ _ e (or_intror eq_refl) (or_introl Hzh))
      as [-> Hwf].
    split; [reflexivity|]. exists row. split; [left|exact Hwf].
Qed.

Lemma needs_of_years_Raise (years : list Z) (needs : list pystr) (e : exn) :
  needs_of_years json_loads py_str input_files years needs = Raise e ->
  e = AttributeError /\
  exists year gdf row,
    year ∈ years /\ input_files year = Some gdf /\ row ∈ rows gdf /\
    ~ wf_row json_loads row.
Proof.
  revert needs. induction years as [|y years IH]; intros needs;
    cbn [needs_of_years]; [discriminate|].
  assert (Hnext : forall needs',
            needs_of_years json_loads py_str input_files years needs'
            = Raise e ->
            e = AttributeError /\
            exists year gdf row,
              year ∈ y :: years /\ input_files year = Some gdf /\
              row ∈ rows gdf /\ ~ wf_row json_loads row).
  { intros needs' H.
    destruct (IH needs' H) as (-> & year & gdf & row & Hin & Hrest).
    split; [reflexivity|]. exists year, gdf, row.
    split; [right; exact Hin|exact Hrest]. }
  destruct (input_files y) as [gdf|] eqn:Hy; [|apply Hnext].
  destruct (scan_rows json_loads py_str (rows gdf) needs)
    as [needs1|e'] eqn:Hscan.
  - cbn [mbind exc_bind]. apply Hnext.
  - cbn [mbind exc_bind]. intros [= ->].
    destruct (scan_rows_Raise _ _ _ Hscan) as (-> & row & Hin & Hwf).
    split; [reflexivity|]. exists y, gdf, row.
    split; [left|]. split; [exact Hy|]. split; [exact Hin|exact Hwf].
Qed.

(** Phase 3 raises what [enrich_frame] raises on one of the datasets. *)
Lemma sum_process_year_Raise (years : list Z) (acc : Z) (s : state)
    (e : exn) :
  (sum_process_year json_loads py_str input_files years acc s).1 = Raise e ->
  exists year gdf,
    year ∈ years /\ input_files year = Some gdf /\
    enrich_frame json_loads py_str (_cache s) gdf = Raise e.
Proof.
  revert acc s. induction years as [|y years IH]; intros acc s;
    [discriminate|].
  cbn [sum_process_year]. rewrite M_bind_eq.
  destruct (input_files y) as [gdf|] eqn:Hy.
  - destruct (enrich_frame json_loads py_str (_cache s) gdf)
      as [out|e'] eqn:Hen.
    + pose proof (process_year_written json_loads py_str input_files
                    y gdf out s Hy Hen) as Hp.
      unfold runs_to in Hp. rewrite Hp. intros Hr.
      destruct (IH _ _ Hr) as (year & gdf' & Hin & Hy' & He).
      exists year, gdf'. split; [right; exact Hin|]. split; [exact Hy'|].
      exact He.
    + pose proof (process_year_raises json_loads py_str input_files
                    y gdf e' s Hy Hen) as Hp.
      unfold steps_to in Hp. rewrite Hp. cbn [fst]. intros [= ->].
      exists y, gdf. split; [left|]. split; [exact Hy|exact Hen].
  - pose proof (process_year_missing json_loads py_str input_files
                  y s Hy) as Hp.
    unfold runs_to in Hp. rewrite Hp. intros Hr.
    destruct (IH _ _ Hr) as (year & gdf' & Hin & Hy' & He).
    exists year, gdf'. split; [right; exact Hin|]. split; [exact Hy'|].
    exact He.
Qed.

(** What a run raises, and why. *)
Lemma run_Raise (start end_ : Z) (e : exn) :
  (run json_loads py_str input_files translate_batch translate
       start end_).1 = Raise e ->
  match e with
  | SystemExit code => code = 1%Z /\ (start > end_)%Z
  | AttributeError =>
      exists year gdf row,
        (start <= year <= end_)%Z /\ input_files year = Some gdf /\
        row ∈ rows gdf /\ ~ wf_row json_loads row
  | KeyError =>
      exists year gdf,
        (start <= year <= end_)%Z /\ input_files year = Some gdf /\
        u "geometry" ∉ columns gdf
  end.
Proof.
  intros Hr.
  destruct (Z.le_gt_cases start end_) as [Hle|Hgt].
  - pose proof (run_unfold json_loads py_str input_files translate_batch
                  translate start end_ Hle) as Hrun.
    cbv zeta in Hrun.
    destruct (needs_of_years json_loads py_str input_files
                (py_range start (end_ + 1)) []) as [needs|e'] eqn:Hneeds.
    + rewrite Hrun in Hr. clear Hrun.
      match type of Hr with
      | context [sum_process_year _ _ _ ?ys ?a ?s] =>
          pose proof (sum_process_year_Raise ys a s) as Hsum;
          destruct (sum_process_year json_loads py_str input_files ys a s)
            as [[w|e'] s6]
      end; cbn [fst] in Hr; [discriminate Hr|].
      injection Hr as ->.
      destruct (Hsum e eq_refl) as (year & gdf & Hin & Hy & Hen).
      apply elem_of_py_range in Hin.
      destruct (enrich_frame_Raise _ _ _ Hen)
        as [(-> & row & Hrow & Hwf)|(-> & Hgeo)].
      * exists year, gdf, row. split; [lia|auto].
      * exists year, gdf. split; [lia|auto].
    + destruct Hrun as (tr_scan & Hrun & _).
      rewrite Hrun in Hr. cbn [fst] in Hr. injection Hr as ->.
      destruct (needs_of_years_Raise _ _ _ Hneeds)
        as (-> & year & gdf & row & Hin & Hy & Hrow & Hwf).
      apply elem_of_py_range in Hin.
      exists year, gdf, row. split; [lia|auto].
  - rewrite (run_invalid_range json_loads py_str input_files translate_batch
               translate start end_) in Hr by lia.
    cbn [fst] in Hr. injection Hr as <-. split; [reflexivity|lia].
Qed.

(** X16: the two exceptions that the converter's own code raises on bad
    data have their cause in the input.  A run ends in an
    [AttributeError] only when a feature of an existing dataset of the
    range has tags that do not normalise to a mapping from strings to
    strings, and in a [KeyError] only when an existing dataset of the
    range has no geometry column.  (What the collaborators raise on
    their own account, the decoder beyond its decode error, the dataset
    reader and the writer, is outside the embedding.) *)
Theorem attribute_and_key_errors_have_a_cause (start end_ : Z) :
  ((run json_loads py_str input_files translate_batch translate
        start end_).1 = Raise AttributeError ->
   exists year gdf row,
     (start <= year <= end_)%Z /\ input_files year = Some gdf /\
     row ∈ rows gdf /\ ~ wf_row json_loads row) /\
  ((run json_loads py_str input_files translate_batch translate
        start end_).1 = Raise KeyError ->
   exists year gdf,
     (start <= year <= end_)%Z /\ input_files year = Some gdf /\
     u "geometry" ∉ columns gdf).
Proof.
  split; intros Hr.
  - exact (run_Raise start end_ AttributeError Hr).
  - exact (run_Raise start end_ KeyError Hr).
Qed.

End Failures.

(** ** The properties on the sample world *)

Lemma sample_batch_contract : batch_contract Sample.batch_up.
Proof.
  intros h chunk results [= <-]. rewrite length_map. apply le_n.
Qed.

Lemma sample_run_completes :
  (run Sample.json_loads Sample.py_str Sample.input_files
       Sample.batch_up Sample.translate 1899 1901).1 = Ok tt.
Proof. vm_compute. reflexivity. Qed.

Lemma sample_frame_consistent : frame_consistent Sample.frame_1900.
Proof.
  unfold frame_consistent, Sample.frame_1900. cbn [rows columns].
  repeat first [apply Forall_nil_2 | apply Forall_cons_2];
    intros k; unfold Sample.feature;
    rewrite !lookup_insert_is_Some, lookup_empty;
    intros [<-|[_ [<-|[_ [<-|[_ [? ?]]]]]]]; try discriminate;
    unfold Sample.cols; set_solver.
Qed.

(** Priming twice with "Germany": the second call only prints. *)
Lemma priming_is_idempotent_witness :
  let s1 := (prime_translation_cache Sample.batch_up Sample.translate
               [Sample.germany; Sample.germany] initial_state).2 in
  prime_translation_cache Sample.batch_up Sample.translate
    [Sample.germany; Sample.germany] s1
  = (Ok tt, {| _cache := _cache s1;
               trace := trace s1 ++ [EvPrint MsgNoTranslationNeeded] |}).
Proof.
  exact (proj2 (priming_is_idempotent Sample.batch_up Sample.translate
                  [Sample.germany; Sample.germany] initial_state
                  sample_batch_contract)).
Defined.

(** The year 1902 holds a feature whose tags are the text of a JSON
    list: the run over 1899..1902 aborts. *)
Lemma malformed_tags_abort_the_run_witness :
  (run Sample.json_loads Sample.py_str Sample.input_files_1902
       Sample.batch_up Sample.translate 1899 1902).1 = Raise AttributeError.
Proof.
  destruct (malformed_tags_abort_the_run Sample.json_loads Sample.py_str
              Sample.input_files_1902 Sample.batch_up Sample.translate
              1899 1902 1902 Sample.frame_1902
              (Sample.feature Sample.germany (PyStr (u "[]")) 6))
    as (tr_scan & Hrun & _).
  - lia.
  - reflexivity.
  - unfold Sample.frame_1902. cbn [rows]. left.
  - vm_compute. reflexivity.
  - rewrite Hrun. reflexivity.
Defined.

(** With the batched call down and an individual call that fails once,
    "France" holds the answer of its individual call. *)
Lemma cache_entries_have_provenance_witness :
  resolved Sample.batch_down Sample.translate_flaky []
    (trace (prime_translation_cache Sample.batch_down Sample.translate_flaky
              [Sample.germany; Sample.france] initial_state).2)
    Sample.france Sample.deguo.
Proof.
  destruct (cache_entries_have_provenance Sample.batch_down
              Sample.translate_flaky [Sample.germany; Sample.france]
              initial_state) as [_ H].
  destruct (H Sample.france Sample.deguo) as [Hold|(_ & _ & _ & _ & Hres)].
  - vm_compute. reflexivity.
  - vm_compute in Hold. discriminate Hold.
  - exact Hres.
Defined.

(** A provider that answers every label with the same name, whether the
    batched call works or not. *)
Lemma cache_holds_the_answers_witness :
  _cache (prime_translation_cache Sample.batch_down Sample.translate
            [Sample.germany] initial_state).2 !! Sample.germany
  = Some Sample.deguo.
Proof.
  apply (cache_holds_the_answers Sample.batch_down Sample.translate
           (fun _ => Sample.deguo) [Sample.germany] initial_state).
  - intros h chunk results. discriminate.
  - reflexivity.
  - left.
  - discriminate.
  - reflexivity.
Defined.

(** "Germany" is pooled in the sample world, so a feature without
    Chinese candidate carries it. *)
Lemma discovery_is_sound_and_complete_witness :
  exists year gdf row,
    year ∈ [1899; 1900; 1901]%Z /\
    Sample.input_files year = Some gdf /\ row ∈ rows gdf /\
    needs_label Sample.json_loads Sample.py_str row Sample.germany.
Proof.
  apply (discovery_is_sound_and_complete Sample.json_loads Sample.py_str
           Sample.input_files [1899; 1900; 1901]%Z
           [Sample.germany; Sample.germany] Sample.germany).
  - vm_compute. reflexivity.
  - left.
Defined.

(** The first feature of 1900 has no Chinese tag: its title is the
    cache entry of its English label. *)
Lemma titles_come_from_tags_or_cache_witness :
  exists en zh orow,
    get_title_en
      (parse_tags Sample.json_loads
         (row_get (Sample.feature Sample.germany (PyStr (u "{}")) 1)
                  (u "tags")))
      (raw_name Sample.py_str
         (Sample.feature Sample.germany (PyStr (u "{}")) 1)) = Ok en /\
    get_title_zh
      (parse_tags Sample.json_loads
         (row_get (Sample.feature Sample.germany (PyStr (u "{}")) 1)
                  (u "tags")))
      (raw_name Sample.py_str
         (Sample.feature Sample.germany (PyStr (u "{}")) 1)) = Ok zh /\
    rows Sample.out_1900 !! 0 = Some orow /\
    orow !! u "title_en" = Some (PyStr en) /\
    match zh with
    | Some z => orow !! u "title" = Some (PyStr z)
    | None =>
        (en = [] /\ orow !! u "title" = Some (PyStr [])) \/
        (exists v,
           en <> [] /\ v <> [] /\
           _cache (run Sample.json_loads Sample.py_str Sample.input_files
                       Sample.batch_up Sample.translate 1899 1901).2 !! en
           = Some v /\
           resolved Sample.batch_up Sample.translate []
             (trace (run Sample.json_loads Sample.py_str Sample.input_files
                         Sample.batch_up Sample.translate 1899 1901).2)
             en v /\
           orow !! u "title" = Some (PyStr v))
    end.
Proof.
  apply (titles_come_from_tags_or_cache Sample.json_loads Sample.py_str
           Sample.input_files Sample.batch_up Sample.translate
           1899 1901 1900 Sample.out_1900 Sample.frame_1900 0
           (Sample.feature Sample.germany (PyStr (u "{}")) 1)).
  - exact sample_batch_contract.
  - exact sample_run_completes.
  - exact sample_written_1900.
  - reflexivity.
  - exact sample_frame_consistent.
  - reflexivity.
Defined.

(** The run over 1899..1901: 1899 is skipped, 1900 and 1901 are
    written. *)
Lemma every_year_is_handled_once_witness :
  handled (trace (run Sample.json_loads Sample.py_str Sample.input_files
                      Sample.batch_up Sample.translate 1899 1901).2)
  = [(1899, false); (1900, true); (1901, true)]%Z.
Proof.
  destruct (every_year_is_handled_once Sample.json_loads Sample.py_str
              Sample.input_files Sample.batch_up Sample.translate
              1899 1901 sample_run_completes) as (Hh & _).
  rewrite Hh. vm_compute. reflexivity.
Defined.

(** The directories of the same run. *)
Lemma directories_follow_the_datasets_witness :
  year_dirs (trace (run Sample.json_loads Sample.py_str Sample.input_files
                        Sample.batch_up Sample.translate 1899 1901).2)
  = (written (trace (run Sample.json_loads Sample.py_str Sample.input_files
                         Sample.batch_up Sample.translate 1899 1901).2)).*1.
Proof.
  destruct (directories_follow_the_datasets Sample.json_loads Sample.py_str
              Sample.input_files Sample.batch_up Sample.translate 1899 1901)
    as (_ & _ & _ & Hdone).
  exact (Hdone sample_run_completes).
Defined.

(** The first row written for 1900. *)
Lemma titles_are_never_lost_witness :
  exists orow title en,
    rows Sample.out_1900 !! 0 = Some orow /\
    orow !! u "title" = Some (PyStr title) /\
    orow !! u "title_en" = Some (PyStr en) /\
    (title = [] -> en = []).
Proof.
  assert (Hrow : is_Some (rows Sample.out_1900 !! 0))
    by (vm_compute; eexists; reflexivity).
  destruct Hrow as [orow Hrow].
  destruct (titles_are_never_lost Sample.json_loads Sample.py_str
              Sample.input_files Sample.batch_up Sample.translate
              1899 1901 1900 Sample.out_1900 0 orow
              sample_written_1900 Hrow) as (title & en & Ht & He & Himp).
  exists orow, title, en. auto.
Defined.

Lemma sample_written_1900_alone :
  (1900%Z, Sample.out_1900_alone)
  ∈ written (trace (run Sample.json_loads Sample.py_str Sample.input_files
                        Sample.batch_up Sample.translate 1900 1900).2).
Proof. apply list_elem_of_lookup. exists 0. vm_compute. reflexivity. Qed.

(** In the run over 1899..1901 the output directory is the ninth event:
    no provider call follows it. *)
Lemma translation_precedes_output_witness :
  Forall (fun e' => ~ provider_event e')
    (drop 9 (trace (run Sample.json_loads Sample.py_str Sample.input_files
                        Sample.batch_up Sample.translate 1899 1901).2)).
Proof.
  apply (translation_precedes_output Sample.json_loads Sample.py_str
           Sample.input_files Sample.batch_up Sample.translate 1899 1901
           (take 8 (trace (run Sample.json_loads Sample.py_str
                               Sample.input_files Sample.batch_up
                               Sample.translate 1899 1901).2))
           (drop 9 (trace (run Sample.json_loads Sample.py_str
                               Sample.input_files Sample.batch_up
                               Sample.translate 1899 1901).2))
           (EvMkdir None)).
  - vm_compute. reflexivity.
  - exact I.
Defined.

(** The dataset of 1900 is the same in the run over 1899..1901 and in
    the run over 1900 alone. *)
Lemma dataset_is_independent_of_the_range_witness :
  Sample.out_1900 = Sample.out_1900_alone.
Proof.
  apply (dataset_is_independent_of_the_range Sample.json_loads Sample.py_str
           Sample.input_files Sample.batch_up Sample.translate
           (fun _ => Sample.deguo) 1899 1901 1900 1900 1900
           Sample.out_1900 Sample.out_1900_alone Sample.frame_1900).
  - intros h chunk results [= <-]. reflexivity.
  - reflexivity.
  - reflexivity.
  - exact sample_frame_consistent.
  - exact sample_written_1900.
  - exact sample_written_1900_alone.
Defined.

(** The reads of the run over 1899..1901. *)
Lemma every_dataset_is_read_twice_witness :
  reads (trace (run Sample.json_loads Sample.py_str Sample.input_files
                    Sample.batch_up Sample.translate 1899 1901).2)
  = [1900; 1901; 1900; 1901]%Z.
Proof.
  rewrite (every_dataset_is_read_twice Sample.json_loads Sample.py_str
             Sample.input_files Sample.batch_up Sample.translate
             1899 1901 sample_run_completes).
  vm_compute. reflexivity.
Defined.

(** The run over 1899..1902 ends in an [AttributeError]: a feature of the
    range has tags that are no mapping. *)
Lemma attribute_and_key_errors_have_a_cause_witness :
  exists year gdf row,
    (1899 <= year <= 1902)%Z /\ Sample.input_files_1902 year = Some gdf /\
    row ∈ rows gdf /\ ~ wf_row Sample.json_loads row.
Proof.
  apply (attribute_and_key_errors_have_a_cause Sample.json_loads
           Sample.py_str Sample.input_files_1902 Sample.batch_up
           Sample.translate 1899 1902).
  vm_compute. reflexivity.
Defined.

(** With the batched call down and an individual call that fails once:
    "Germany" is stored with itself, "France" with its answer. *)
Lemma prime_translation_cache_fills_witness :
  _cache (prime_translation_cache Sample.batch_down Sample.translate_flaky
            [Sample.germany; Sample.france] initial_state).2
    !! Sample.germany = Some Sample.germany /\
  _cache (prime_translation_cache Sample.batch_down Sample.translate_flaky
            [Sample.germany; Sample.france] initial_state).2
    !! Sample.france = Some Sample.deguo.
Proof.
  destruct (prime_translation_cache_fills Sample.batch_down
              Sample.translate_flaky [Sample.germany; Sample.france]
              initial_state) as (_ & _ & _ & _ & H).
  split.
  - apply (H [EvPrint (MsgTranslating 2);
              EvTranslateBatch [Sample.germany; Sample.france];
              EvPrint MsgBatchFailed] Sample.germany).
    + apply prefix_nil.
    + exists [EvPrint (MsgCouldNotTranslate Sample.germany);
              EvTranslate Sample.france; EvPrint MsgTranslationComplete].
      reflexivity.
  - apply (H [EvPrint (MsgTranslating 2);
              EvTranslateBatch [Sample.germany; Sample.france];
              EvPrint MsgBatchFailed; EvTranslate Sample.germany;
              EvPrint (MsgCouldNotTranslate Sample.germany)] Sample.france).
    + apply prefix_nil.
    + exists [EvPrint MsgTranslationComplete]. reflexivity.
Defined.

(** C4 as stated fails: a batched call that succeeds with fewer answers
    than labels leaves a label without a value. *)
Lemma label_left_without_value :
  ~ is_Some (_cache (prime_translation_cache Sample.batch_short
                       Sample.translate [Sample.germany] initial_state).2
               !! Sample.germany).
Proof. intros [v Hv]. vm_compute in Hv. discriminate Hv. Qed.

(** A provider whose batched call would fail on an empty history, which
    no call of the run has: "Germany" is passed once. *)
Lemma labels_translated_at_most_once_witness :
  times_passed Sample.germany
    (trace (run Sample.json_loads Sample.py_str Sample.input_files
                Sample.batch_late Sample.translate 1899 1901).2) <= 1.
Proof.
  destruct (labels_translated_at_most_once Sample.json_loads Sample.py_str
              Sample.input_files Sample.batch_late Sample.translate
              1899 1901 Sample.germany) as (_ & _ & _ & _ & H & _).
  apply H. intros [|e h] chunk Hp.
  - destruct Hp as [k Hk]. vm_compute in Hk. discriminate Hk.
  - discriminate.
Defined.

(** C1 as stated fails: when the batched call fails, the label of the
    batch is passed to the provider a second time, by the individual
    call. *)
Lemma label_passed_twice :
  ~ (times_passed Sample.germany
       (trace (run Sample.json_loads Sample.py_str Sample.input_files
                   Sample.batch_down Sample.translate 1899 1901).2) <= 1).
Proof. intros H. vm_compute in H. lia. Qed.
